(** * The registration form validator of [script.js]

    A shallow embedding of the [FormValidator] class: JavaScript strings as
    lists of UTF-16 code units, the regular-expression literals of the source
    over a small derivative matcher, the DOM elements the validator holds
    as records in the validator state, and the methods as computations in a
    state-and-exception monad (a [TypeError] is the only exception the code
    can raise). *)

From Stdlib Require Import NArith ZArith String Ascii List Bool Lia DecimalString.
From stdpp Require Import base list gmap strings.

Local Open Scope string_scope.
Local Open Scope list_scope.

(** ** JavaScript strings *)

(** A JavaScript string is a sequence of UTF-16 code units; [length] counts
    code units. *)
Abbreviation jsstring := (list N).

(** The code unit of an ASCII character. *)
Definition ch (a : ascii) : N := N_of_ascii a.

(** A string literal of the source (all of them are ASCII). *)
Definition js (s : string) : jsstring := map ch (list_ascii_of_string s).

(** [!value] for a string: only the empty string is falsy. *)
Definition is_empty (s : jsstring) : bool :=
  match s with [] => true | _ :: _ => false end.

Definition in_range (lo hi c : N) : bool := ((lo <=? c) && (c <=? hi))%N.

(** WhiteSpace and LineTerminator of ECMAScript: what [String.prototype.trim]
    strips, what [\s] matches and what [parseInt] skips. *)
Definition is_white_space (c : N) : bool :=
  in_range 9 13 c            (* TAB, LF, VT, FF, CR *)
  || (c =? 32)%N             (* SPACE *)
  || (c =? 160)%N            (* NO-BREAK SPACE *)
  || (c =? 5760)%N           (* U+1680 *)
  || in_range 8192 8202 c    (* U+2000 .. U+200A *)
  || in_range 8232 8233 c    (* U+2028, U+2029 *)
  || (c =? 8239)%N           (* U+202F *)
  || (c =? 8287)%N           (* U+205F *)
  || (c =? 12288)%N          (* U+3000 *)
  || (c =? 65279)%N.         (* U+FEFF *)

Fixpoint trim_start (s : jsstring) : jsstring :=
  match s with
  | [] => []
  | c :: s' => if is_white_space c then trim_start s' else s
  end.

Definition trim_end (s : jsstring) : jsstring := rev (trim_start (rev s)).

(** [String.prototype.trim]. *)
Definition trim (s : jsstring) : jsstring := trim_end (trim_start s).

(** ** Regular expressions *)

Module Regex.

(** Regular expressions over code units; a character class is its
    membership test. *)
Inductive regex : Type :=
| Void
| Eps
| Class (p : N -> bool)
| Cat (r1 r2 : regex)
| Alt (r1 r2 : regex)
| Star (r : regex).

(** [r+] *)
Definition Plus (r : regex) : regex := Cat r (Star r).

Fixpoint nullable (r : regex) : bool :=
  match r with
  | Void => false
  | Eps => true
  | Class _ => false
  | Cat r1 r2 => nullable r1 && nullable r2
  | Alt r1 r2 => nullable r1 || nullable r2
  | Star _ => true
  end.

(** Brzozowski derivative. *)
Fixpoint deriv (c : N) (r : regex) : regex :=
  match r with
  | Void => Void
  | Eps => Void
  | Class p => if p c then Eps else Void
  | Cat r1 r2 =>
      if nullable r1 then Alt (Cat (deriv c r1) r2) (deriv c r2)
      else Cat (deriv c r1) r2
  | Alt r1 r2 => Alt (deriv c r1) (deriv c r2)
  | Star r1 => Cat (deriv c r1) (Star r1)
  end.

(** Does [r] match the whole of [s]? *)
Fixpoint matches (r : regex) (s : jsstring) : bool :=
  match s with
  | [] => nullable r
  | c :: s' => matches (deriv c r) s'
  end.

(** A regular-expression literal without flags: its body, and whether it
    starts with [^] and ends with [$]. *)
Record pattern : Type := Pattern {
  anchor_start : bool;
  body : regex;
  anchor_end : bool
}.

(** Any run of code units: what an unanchored search may skip. *)
Definition skip : regex := Star (Class (fun _ => true)).

(** [RegExp.prototype.test]: is there a match somewhere in [s]? The
    literals of the source have no [g] or [y] flag, so [test] keeps no
    state between calls. *)
Definition test (p : pattern) (s : jsstring) : bool :=
  matches
    (Cat (if anchor_start p then Eps else skip)
         (Cat (body p) (if anchor_end p then Eps else skip)))
    s.

(** [s.replace(/[class]/g, '')] for a literal that is one character class:
    every code unit of the class is removed. *)
Definition remove_all (p : N -> bool) (s : jsstring) : jsstring :=
  List.filter (fun c => negb (p c)) s.

(** The language of a regular expression. *)
Inductive lang : regex -> jsstring -> Prop :=
| lang_eps : lang Eps []
| lang_class p c : p c = true -> lang (Class p) [c]
| lang_cat r1 r2 s1 s2 : lang r1 s1 -> lang r2 s2 -> lang (Cat r1 r2) (s1 ++ s2)
| lang_alt_l r1 r2 s : lang r1 s -> lang (Alt r1 r2) s
| lang_alt_r r1 r2 s : lang r2 s -> lang (Alt r1 r2) s
| lang_star_nil r : lang (Star r) []
| lang_star_cons r s1 s2 : lang r s1 -> lang (Star r) s2 -> lang (Star r) (s1 ++ s2).

End Regex.

Import Regex.

(** *** Character classes and literals of the source *)

Definition is_upper (c : N) : bool := in_range (ch "A") (ch "Z") c.
Definition is_lower (c : N) : bool := in_range (ch "a") (ch "z") c.
(** [\d] without the [u] flag: the ten ASCII digits. *)
Definition is_digit (c : N) : bool := in_range (ch "0") (ch "9") c.
(** [\D] *)
Definition is_non_digit (c : N) : bool := negb (is_digit c).

Definition one_of (set : jsstring) (c : N) : bool :=
  existsb (fun d => (c =? d)%N) set.

(** The class of special characters of the password rule: the characters
    ! @ # $ % ^ & * ( ) , . ? : { } | < > and the double quote, which is
    code unit 34. *)
Definition special_chars : jsstring :=
  js "!@#$%^&*(),.?" ++ [34%N] ++ js ":{}|<>".
Definition is_special (c : N) : bool := one_of special_chars c.

(** [[a-zA-Z\s]] *)
Definition is_name_char (c : N) : bool :=
  is_lower c || is_upper c || is_white_space c.

(** [[^\s@]] *)
Definition is_email_char (c : N) : bool :=
  negb (is_white_space c || (c =? ch "@")%N).

(** [/^[a-zA-Z\s]+$/] *)
Definition nameRegex : pattern := Pattern true (Plus (Class is_name_char)) true.

(** [/^[^\s@]+@[^\s@]+\.[^\s@]+$/] *)
Definition emailRegex : pattern :=
  Pattern true
    (Cat (Plus (Class is_email_char))
      (Cat (Class (fun c => (c =? ch "@")%N))
        (Cat (Plus (Class is_email_char))
          (Cat (Class (fun c => (c =? ch ".")%N))
            (Plus (Class is_email_char))))))
    true.

(** [/[A-Z]/], [/[a-z]/], [/\d/] and the search for one special character. *)
Definition upperRegex : pattern := Pattern false (Class is_upper) false.
Definition lowerRegex : pattern := Pattern false (Class is_lower) false.
Definition digitRegex : pattern := Pattern false (Class is_digit) false.
Definition specialRegex : pattern := Pattern false (Class is_special) false.

(** ** parseInt *)

(** The value of a code unit as a digit of the given radix (10 or 16). *)
Definition digit_value (radix : Z) (c : N) : option Z :=
  if is_digit c then Some (Z.of_N c - Z.of_N (ch "0"))%Z
  else if (radix =? 16)%Z && in_range (ch "a") (ch "f") c
       then Some (Z.of_N c - Z.of_N (ch "a") + 10)%Z
  else if (radix =? 16)%Z && in_range (ch "A") (ch "F") c
       then Some (Z.of_N c - Z.of_N (ch "A") + 10)%Z
  else None.

(** The digits of the longest prefix of [s] made of radix digits. *)
Fixpoint digits_prefix (radix : Z) (s : jsstring) : list Z :=
  match s with
  | [] => []
  | c :: s' =>
      match digit_value radix c with
      | Some d => d :: digits_prefix radix s'
      | None => []
      end
  end.

Definition digits_value (radix : Z) (ds : list Z) : Z :=
  fold_left (fun acc d => acc * radix + d)%Z ds 0%Z.

(** [parseInt(s)] with no radix argument; [None] is [NaN]. The algorithm of
    the language standard: skip leading white space, read a sign, read a
    [0x] or [0X] prefix, read the longest run of digits. The result is the
    exact integer: a JavaScript number rounds integers above 2^53, which
    changes no comparison with 13 or 120. *)
Definition parseInt (s : jsstring) : option Z :=
  let s0 := trim_start s in
  let '(sign, s1) :=
    match s0 with
    | c :: r =>
        if (c =? ch "-")%N then ((-1)%Z, r)
        else if (c =? ch "+")%N then (1%Z, r)
        else (1%Z, s0)
    | [] => (1%Z, s0)
    end in
  let '(radix, s2) :=
    match s1 with
    | c0 :: c1 :: r =>
        if (c0 =? ch "0")%N && ((c1 =? ch "x")%N || (c1 =? ch "X")%N)
        then (16%Z, r) else (10%Z, s1)
    | _ => (10%Z, s1)
    end in
  match digits_prefix radix s2 with
  | [] => None
  | ds => Some (sign * digits_value radix ds)%Z
  end.

(** ** The DOM elements the validator holds *)

(** An [<input>]: its current value and checkedness, the tokens of its
    [classList], and the defaults that [form.reset()] restores. *)
Record InputElement : Type := {
  value : jsstring;
  checked : bool;
  classList : list string;
  defaultValue : jsstring;
  defaultChecked : bool
}.

(** An error-display element: only its [textContent] is used. *)
Record ErrorElement : Type := { textContent : jsstring }.

(** The form and the success view: only [style.display] is used. *)
Record BlockElement : Type := { display : string }.

(** The callbacks that [setTimeout] is given inside the class. *)
Inductive Callback : Type := ResetForm.

Record Timer : Type := { callback : Callback; delay : N }.

(** The validator object together with the elements it refers to. A key that
    is absent from [fields] or [errorElements] stands for a [null] entry:
    [getElement] found no such element. *)
Record FormValidator : Type := {
  form : option BlockElement;
  formSuccess : option BlockElement;
  fields : gmap string InputElement;
  errorElements : gmap string ErrorElement;
  timers : list Timer;
  scrolledTo : option string;
  focused : option string
}.

(** The keys of [this.fields], in the order the constructor inserts them:
    the order of [Object.keys]. *)
Definition field_names : list string :=
  ["fullName"; "email"; "password"; "confirmPassword"; "age"; "phone"; "terms"].

Definition set_form (b : option BlockElement) (s : FormValidator) : FormValidator :=
  {| form := b; formSuccess := formSuccess s; fields := fields s;
     errorElements := errorElements s; timers := timers s;
     scrolledTo := scrolledTo s; focused := focused s |}.

Definition set_formSuccess (b : option BlockElement) (s : FormValidator) : FormValidator :=
  {| form := form s; formSuccess := b; fields := fields s;
     errorElements := errorElements s; timers := timers s;
     scrolledTo := scrolledTo s; focused := focused s |}.

Definition set_fields (m : gmap string InputElement) (s : FormValidator) : FormValidator :=
  {| form := form s; formSuccess := formSuccess s; fields := m;
     errorElements := errorElements s; timers := timers s;
     scrolledTo := scrolledTo s; focused := focused s |}.

Definition set_errorElements (m : gmap string ErrorElement) (s : FormValidator) : FormValidator :=
  {| form := form s; formSuccess := formSuccess s; fields := fields s;
     errorElements := m; timers := timers s;
     scrolledTo := scrolledTo s; focused := focused s |}.

Definition set_timers (ts : list Timer) (s : FormValidator) : FormValidator :=
  {| form := form s; formSuccess := formSuccess s; fields := fields s;
     errorElements := errorElements s; timers := ts;
     scrolledTo := scrolledTo s; focused := focused s |}.

Definition set_scrolledTo (t : option string) (s : FormValidator) : FormValidator :=
  {| form := form s; formSuccess := formSuccess s; fields := fields s;
     errorElements := errorElements s; timers := timers s;
     scrolledTo := t; focused := focused s |}.

Definition set_focused (t : option string) (s : FormValidator) : FormValidator :=
  {| form := form s; formSuccess := formSuccess s; fields := fields s;
     errorElements := errorElements s; timers := timers s;
     scrolledTo := scrolledTo s; focused := t |}.

Definition set_classList (l : list string) (e : InputElement) : InputElement :=
  {| value := value e; checked := checked e; classList := l;
     defaultValue := defaultValue e; defaultChecked := defaultChecked e |}.

Definition set_value (v : jsstring) (e : InputElement) : InputElement :=
  {| value := v; checked := checked e; classList := classList e;
     defaultValue := defaultValue e; defaultChecked := defaultChecked e |}.

Definition set_checked (b : bool) (e : InputElement) : InputElement :=
  {| value := value e; checked := b; classList := classList e;
     defaultValue := defaultValue e; defaultChecked := defaultChecked e |}.

(** *** DOMTokenList *)

Definition contains (tok : string) (l : list string) : bool :=
  existsb (String.eqb tok) l.

(** [classList.add(tok)]: the token is appended unless it is there. *)
Definition classList_add (tok : string) (l : list string) : list string :=
  if contains tok l then l else l ++ [tok].

(** [classList.remove(tok, ...)]: every listed token is removed. *)
Definition classList_remove (toks : list string) (l : list string) : list string :=
  List.filter (fun t => negb (contains t toks)) l.

(** ** Completions: a result and the new state, or an uncaught TypeError *)

Inductive Completion (A : Type) : Type :=
| Normal (a : A) (s : FormValidator)
| Throw (s : FormValidator).
Arguments Normal {A} a s.
Arguments Throw {A} s.

Definition M (A : Type) : Type := FormValidator -> Completion A.

#[global] Instance M_ret : MRet M := fun A a s => Normal a s.

#[global] Instance M_bind : MBind M := fun A B k c s =>
  match c s with
  | Normal a s' => k a s'
  | Throw s' => Throw s'
  end.

(** The state a computation leaves behind, thrown or not. *)
Definition state_of {A} (c : Completion A) : FormValidator :=
  match c with Normal _ s => s | Throw s => s end.

(** The value a computation returns; [None] when it throws. *)
Definition result_of {A} (c : Completion A) : option A :=
  match c with Normal a _ => Some a | Throw _ => None end.

(** Run a computation that cannot throw for its effect on the state. *)
Definition modify (f : FormValidator -> FormValidator) : M unit :=
  fun s => Normal tt (f s).

(** [this.fields.name]: reading a property of the result throws when the
    entry is [null]. *)
Definition getField (name : string) : M InputElement :=
  fun s => match fields s !! name with
           | Some f => Normal f s
           | None => Throw s
           end.

(** ** The methods of [FormValidator] *)

Definition showError (fieldName : string) (message : jsstring) : M unit :=
  fun s =>
    let s1 :=
      match fields s !! fieldName with
      | Some field =>
          let cl := classList_remove ["success"] (classList_add "error" (classList field)) in
          set_fields (<[fieldName := set_classList cl field]> (fields s)) s
      | None => s
      end in
    let s2 :=
      match errorElements s1 !! fieldName with
      | Some _ =>
          set_errorElements (<[fieldName := {| textContent := message |}]> (errorElements s1)) s1
      | None => s1
      end in
    Normal tt s2.

(** The first of the two methods called [showSuccess] (the one with a
    [fieldName] parameter). The class body defines a second method of the
    same name further down, which replaces this one: no call reaches it. *)
Definition showSuccess_field (fieldName : string) : M unit :=
  fun s =>
    let s1 :=
      match fields s !! fieldName with
      | Some field =>
          let cl := classList_remove ["error"] (classList_add "success" (classList field)) in
          set_fields (<[fieldName := set_classList cl field]> (fields s)) s
      | None => s
      end in
    let s2 :=
      match errorElements s1 !! fieldName with
      | Some _ =>
          set_errorElements (<[fieldName := {| textContent := [] |}]> (errorElements s1)) s1
      | None => s1
      end in
    Normal tt s2.

Definition clearError (fieldName : string) : M unit :=
  fun s =>
    let s1 :=
      match fields s !! fieldName with
      | Some field =>
          let cl := classList_remove ["error"; "success"] (classList field) in
          set_fields (<[fieldName := set_classList cl field]> (fields s)) s
      | None => s
      end in
    let s2 :=
      match errorElements s1 !! fieldName with
      | Some _ =>
          set_errorElements (<[fieldName := {| textContent := [] |}]> (errorElements s1)) s1
      | None => s1
      end in
    Normal tt s2.

(** [this.form.style.display = v]: throws when [this.form] is [null]. *)
Definition setFormDisplay (v : string) : M unit :=
  fun s => match form s with
           | Some _ => Normal tt (set_form (Some {| display := v |}) s)
           | None => Throw s
           end.

(** [this.formSuccess.style.display = v] *)
Definition setFormSuccessDisplay (v : string) : M unit :=
  fun s => match formSuccess s with
           | Some _ => Normal tt (set_formSuccess (Some {| display := v |}) s)
           | None => Throw s
           end.

(** [this.formSuccess.scrollIntoView(...)] *)
Definition scrollFormSuccessIntoView : M unit :=
  fun s => match formSuccess s with
           | Some _ => Normal tt (set_scrolledTo (Some "formSuccess") s)
           | None => Throw s
           end.

(** [setTimeout(cb, ms)]: the callback joins the pending timers. *)
Definition setTimeout (cb : Callback) (ms : N) : M unit :=
  modify (fun s => set_timers (timers s ++ [{| callback := cb; delay := ms |}]) s).

(** The second method called [showSuccess], the one every
    [this.showSuccess(...)] resolves to. It declares no parameter, so the
    arguments of a call are ignored. *)
Definition showSuccess (arguments : list string) : M unit :=
  setFormDisplay "none";;
  setFormSuccessDisplay "block";;
  scrollFormSuccessIntoView;;
  setTimeout ResetForm 5000.

(** [Array.prototype.forEach] over a list of names. *)
Fixpoint forEach (names : list string) (f : string -> M unit) : M unit :=
  match names with
  | [] => mret tt
  | n :: rest => f n;; forEach rest f
  end.

(** Modelled from the spec: the page markup is not among the sources; the
    seven inputs are the controls of the enclosing form, so [form.reset()]
    gives each its default value and default checkedness. *)
Definition restore_defaults (e : InputElement) : InputElement :=
  set_checked (defaultChecked e) (set_value (defaultValue e) e).

Definition form_reset : M unit :=
  fun s => match form s with
           | Some _ => Normal tt (set_fields (restore_defaults <$> fields s) s)
           | None => Throw s
           end.

Definition resetForm : M unit :=
  form_reset;;
  forEach field_names clearError;;
  setFormDisplay "block";;
  setFormSuccessDisplay "none".

(** *** The field validators *)

Definition validateFullName : M bool :=
  field ← getField "fullName";
  let value := trim (value field) in
  if is_empty value then
    showError "fullName" (js "Full name is required");; mret false
  else if (length value <? 2)%nat then
    showError "fullName" (js "Full name must be at least 2 characters");; mret false
  else if negb (test nameRegex value) then
    showError "fullName" (js "Full name can only contain letters and spaces");; mret false
  else
    showSuccess ["fullName"];; mret true.

Definition validateEmail : M bool :=
  field ← getField "email";
  let value := trim (value field) in
  if is_empty value then
    showError "email" (js "Email address is required");; mret false
  else if negb (test emailRegex value) then
    showError "email" (js "Please enter a valid email address");; mret false
  else
    showSuccess ["email"];; mret true.

Definition validatePassword : M bool :=
  field ← getField "password";
  let value := value field in
  if is_empty value then
    showError "password" (js "Password is required");; mret false
  else if (length value <? 8)%nat then
    showError "password" (js "Password must be at least 8 characters long");; mret false
  else
    let hasUpperCase := test upperRegex value in
    let hasLowerCase := test lowerRegex value in
    let hasNumbers := test digitRegex value in
    let hasSpecialChar := test specialRegex value in
    if negb hasUpperCase then
      showError "password" (js "Password must contain at least one uppercase letter");;
      mret false
    else if negb hasLowerCase then
      showError "password" (js "Password must contain at least one lowercase letter");;
      mret false
    else if negb hasNumbers then
      showError "password" (js "Password must contain at least one number");;
      mret false
    else if negb hasSpecialChar then
      showError "password" (js "Password must contain at least one special character");;
      mret false
    else
      showSuccess ["password"];; mret true.

(** [value !== passwordValue] on two strings: they differ as sequences of
    code units. *)
Definition strict_equal (a b : jsstring) : bool := bool_decide (a = b).

Definition validateConfirmPassword : M bool :=
  field ← getField "confirmPassword";
  passwordField ← getField "password";
  let passwordValue := value passwordField in
  let value := value field in
  if is_empty value then
    showError "confirmPassword" (js "Please confirm your password");; mret false
  else if negb (strict_equal value passwordValue) then
    showError "confirmPassword" (js "Passwords do not match");; mret false
  else
    showSuccess ["confirmPassword"];; mret true.

Definition validateAge : M bool :=
  field ← getField "age";
  let rawValue := value field in
  let value := parseInt rawValue in
  if is_empty rawValue then
    showError "age" (js "Age is required");; mret false
  else
    match value with
    | None => showError "age" (js "Please enter a valid age");; mret false
    | Some n =>
        if (n <? 13)%Z then
          showError "age" (js "You must be at least 13 years old");; mret false
        else if (n >? 120)%Z then
          showError "age" (js "Please enter a valid age");; mret false
        else
          showSuccess ["age"];; mret true
    end.

Definition validatePhone : M bool :=
  field ← getField "phone";
  let value := trim (value field) in
  if is_empty value then
    clearError "phone";; mret true
  else
    let digitsOnly := remove_all is_non_digit value in
    if (length digitsOnly <? 10)%nat then
      showError "phone" (js "Phone number must have at least 10 digits");; mret false
    else if (15 <? length digitsOnly)%nat then
      showError "phone" (js "Phone number is too long");; mret false
    else
      showSuccess ["phone"];; mret true.

Definition validateTerms : M bool :=
  field ← getField "terms";
  let isChecked := checked field in
  if negb isChecked then
    showError "terms" (js "You must agree to the Terms and Conditions");; mret false
  else
    clearError "terms";; mret true.

(** The array literal runs the seven validators from left to right;
    [every] then tests each result against [true]. *)
Definition validateAllFields : M bool :=
  v1 ← validateFullName;
  v2 ← validateEmail;
  v3 ← validatePassword;
  v4 ← validateConfirmPassword;
  v5 ← validateAge;
  v6 ← validatePhone;
  v7 ← validateTerms;
  let validations := [v1; v2; v3; v4; v5; v6; v7] in
  mret (forallb (fun validation => Bool.eqb validation true) validations).

(** Modelled from the spec: the page markup is not among the sources;
    [document.querySelector('.error')] finds the first field that is in the
    error state, the fields standing in the document in the order of
    [field_names] and no other element carrying the class. *)
Definition firstErrorField (s : FormValidator) : option string :=
  List.find
    (fun n => match fields s !! n with
              | Some f => contains "error" (classList f)
              | None => false
              end)
    field_names.

Definition showFormErrors : M unit :=
  fun s =>
    match firstErrorField s with
    | Some n => Normal tt (set_focused (Some n) (set_scrolledTo (Some n) s))
    | None => Normal tt s
    end.

(** [e.preventDefault()] acts on the event, which the validator state does
    not hold. *)
Definition handleSubmit : M unit :=
  isValid ← validateAllFields;
  if isValid : bool then showSuccess [] else showFormErrors.

(** *** Timers *)

Definition run_callback (cb : Callback) : M unit :=
  match cb with ResetForm => resetForm end.

(** The pending callbacks run one after the other, each as a task of its
    own: an exception ends that task only. *)
Fixpoint run_tasks (ts : list Timer) (s : FormValidator) : FormValidator :=
  match ts with
  | [] => s
  | t :: rest => run_tasks rest (state_of (run_callback (callback t) s))
  end.

(** Every pending timer fires. *)
Definition run_timers (s : FormValidator) : FormValidator :=
  run_tasks (timers s) (set_timers [] s).

(** ** Pages *)

(** What the user does to a field between two events: type a value, tick or
    untick the box. *)
Definition type_value (name : string) (v : jsstring) (s : FormValidator) : FormValidator :=
  set_fields (alter (set_value v) name (fields s)) s.

Definition set_check (name : string) (b : bool) (s : FormValidator) : FormValidator :=
  set_fields (alter (set_checked b) name (fields s)) s.

Definition blank_input : InputElement :=
  {| value := []; checked := false; classList := [];
     defaultValue := []; defaultChecked := false |}.

(** The page as it is loaded: every element present, every field blank and
    unvalidated, every message empty, no [display] set from script yet. *)
Definition initial_page : FormValidator :=
  {| form := Some {| display := "" |};
     formSuccess := Some {| display := "" |};
     fields := list_to_map (map (fun n => (n, blank_input)) field_names);
     errorElements := list_to_map (map (fun n => (n, {| textContent := [] |})) field_names);
     timers := [];
     scrolledTo := None;
     focused := None |}.

(** The error message shown for a field; [None] when it has no error
    element. *)
Definition errorText (name : string) (s : FormValidator) : option jsstring :=
  textContent <$> errorElements s !! name.

Definition classes (name : string) (s : FormValidator) : option (list string) :=
  classList <$> fields s !! name.

Definition valid_page : FormValidator :=
  type_value "fullName" (js "Jo Doe")
    (type_value "email" (js "jo@example.com")
      (type_value "password" (js "Abcdef1!")
        (type_value "confirmPassword" (js "Abcdef1!")
          (type_value "age" (js "13")
            (type_value "phone" (js "0712 345 678")
              (set_check "terms" true initial_page)))))).

(** ** Events *)

(** An [input] event on a text field: the value has changed and the
    listener clears the field's error. *)
Definition on_input (name : string) (v : jsstring) : M unit :=
  fun s => clearError name (type_value name v s).

(** A [change] event on the terms box. *)
Definition on_change_terms (b : bool) : M bool :=
  fun s => validateTerms (set_check "terms" b s).

(** The state after a sequence of events, none of which may throw. *)
Definition after {A} (c : M A) (s : FormValidator) : FormValidator := state_of (c s).

(** ** The rules, read off the validators *)

(** The outcome of a field rule. *)
Inductive Outcome : Type :=
| Valid
| Invalid (reason : jsstring).

Definition is_valid (o : Outcome) : bool :=
  match o with Valid => true | Invalid _ => false end.

Definition outcome_fullName (raw : jsstring) : Outcome :=
  let v := trim raw in
  if is_empty v then Invalid (js "Full name is required")
  else if (length v <? 2)%nat then Invalid (js "Full name must be at least 2 characters")
  else if negb (forallb is_name_char v)
       then Invalid (js "Full name can only contain letters and spaces")
  else Valid.

Definition outcome_email (raw : jsstring) : Outcome :=
  let v := trim raw in
  if is_empty v then Invalid (js "Email address is required")
  else if negb (test emailRegex v) then Invalid (js "Please enter a valid email address")
  else Valid.

Definition outcome_password (raw : jsstring) : Outcome :=
  if is_empty raw then Invalid (js "Password is required")
  else if (length raw <? 8)%nat
       then Invalid (js "Password must be at least 8 characters long")
  else if negb (existsb is_upper raw)
       then Invalid (js "Password must contain at least one uppercase letter")
  else if negb (existsb is_lower raw)
       then Invalid (js "Password must contain at least one lowercase letter")
  else if negb (existsb is_digit raw)
       then Invalid (js "Password must contain at least one number")
  else if negb (existsb is_special raw)
       then Invalid (js "Password must contain at least one special character")
  else Valid.

Definition outcome_confirmPassword (raw password : jsstring) : Outcome :=
  if is_empty raw then Invalid (js "Please confirm your password")
  else if negb (bool_decide (raw = password)) then Invalid (js "Passwords do not match")
  else Valid.

Definition outcome_age (raw : jsstring) : Outcome :=
  if is_empty raw then Invalid (js "Age is required")
  else match parseInt raw with
       | None => Invalid (js "Please enter a valid age")
       | Some n =>
           if (n <? 13)%Z then Invalid (js "You must be at least 13 years old")
           else if (120 <? n)%Z then Invalid (js "Please enter a valid age")
           else Valid
       end.

(** The number of digits of a string. *)
Definition digit_count (s : jsstring) : nat := length (List.filter is_digit s).

Definition outcome_phone (raw : jsstring) : Outcome :=
  let v := trim raw in
  if is_empty v then Valid
  else if (digit_count v <? 10)%nat
       then Invalid (js "Phone number must have at least 10 digits")
  else if (15 <? digit_count v)%nat then Invalid (js "Phone number is too long")
  else Valid.

Definition outcome_terms (isChecked : bool) : Outcome :=
  if isChecked then Valid else Invalid (js "You must agree to the Terms and Conditions").

(** The current value and checkedness of a field; a missing field reads as
    blank. *)
Definition fieldValue (name : string) (s : FormValidator) : jsstring :=
  default [] (value <$> fields s !! name).

Definition fieldChecked (name : string) (s : FormValidator) : bool :=
  default false (checked <$> fields s !! name).

(** The outcome of the rule of a field on the current state of the form. *)
Definition outcome (name : string) (s : FormValidator) : Outcome :=
  if String.eqb name "fullName" then outcome_fullName (fieldValue "fullName" s)
  else if String.eqb name "email" then outcome_email (fieldValue "email" s)
  else if String.eqb name "password" then outcome_password (fieldValue "password" s)
  else if String.eqb name "confirmPassword" then
    outcome_confirmPassword (fieldValue "confirmPassword" s) (fieldValue "password" s)
  else if String.eqb name "age" then outcome_age (fieldValue "age" s)
  else if String.eqb name "phone" then outcome_phone (fieldValue "phone" s)
  else outcome_terms (fieldChecked "terms" s).

(** The validator of each field, as [addRealTimeValidation] and
    [validateAllFields] pair them. *)
Definition validators : list (string * M bool) :=
  [("fullName", validateFullName); ("email", validateEmail);
   ("password", validatePassword); ("confirmPassword", validateConfirmPassword);
   ("age", validateAge); ("phone", validatePhone); ("terms", validateTerms)].

(** ** States of the page *)

Definition present {A} (o : option A) : bool :=
  match o with Some _ => true | None => false end.

(** Every element the constructor looks up exists. *)
Definition all_present (s : FormValidator) : bool :=
  present (form s) && present (formSuccess s)
  && forallb (fun n => present (fields s !! n) && present (errorElements s !! n))
       field_names.

(** The markup gives no field a default value and leaves the box unticked. *)
Definition defaults_blank (s : FormValidator) : bool :=
  forallb
    (fun n => match fields s !! n with
              | Some f => is_empty (defaultValue f) && negb (defaultChecked f)
              | None => true
              end)
    field_names.

(** The three visual states of a field. *)
Inductive Visual : Type := Unvalidated | ShowsError | ShowsSuccess | ShowsBoth.

Definition visual_of (cl : list string) : Visual :=
  match contains "error" cl, contains "success" cl with
  | false, false => Unvalidated
  | true, false => ShowsError
  | false, true => ShowsSuccess
  | true, true => ShowsBoth
  end.

Definition visual (name : string) (s : FormValidator) : option Visual :=
  visual_of <$> classes name s.

(** A field and its error element after a helper has run: the class list
    goes through [upd], the message becomes [msg]; nothing happens to an
    element that is missing. *)
Definition mark (name : string) (upd : list string -> list string) (msg : jsstring)
    (s : FormValidator) : FormValidator :=
  set_errorElements
    (alter (fun _ => {| textContent := msg |}) name (errorElements s))
    (set_fields (alter (fun f => set_classList (upd (classList f)) f) name (fields s)) s).

Definition to_error (cl : list string) : list string :=
  classList_remove ["success"] (classList_add "error" cl).

Definition to_success (cl : list string) : list string :=
  classList_remove ["error"] (classList_add "success" cl).

Definition to_neutral (cl : list string) : list string :=
  classList_remove ["error"; "success"] cl.

(** The state the second [showSuccess] leaves when both views exist. *)
Definition success_view (s : FormValidator) : FormValidator :=
  {| form := Some {| display := "none" |};
     formSuccess := Some {| display := "block" |};
     fields := fields s;
     errorElements := errorElements s;
     timers := timers s ++ [{| callback := ResetForm; delay := 5000 |}];
     scrolledTo := Some "formSuccess";
     focused := focused s |}.

(** The state a validator leaves on a page with every element present: the
    error state and the message after an Invalid outcome; after a Valid one
    the cleared field where the validator calls [clearError], else whatever
    [this.showSuccess] does. *)
Definition settle (name : string) (s : FormValidator) : FormValidator :=
  match outcome name s with
  | Invalid m => mark name to_error m s
  | Valid =>
      if String.eqb name "terms" then mark name to_neutral [] s
      else if String.eqb name "phone" && is_empty (trim (fieldValue "phone" s))
           then mark name to_neutral [] s
      else success_view s
  end.

(** The state [resetForm] leaves on a page with every element present. *)
Definition reset_values (s : FormValidator) : FormValidator :=
  set_fields (restore_defaults <$> fields s) s.

Definition reset_state (s : FormValidator) : FormValidator :=
  set_formSuccess (Some {| display := "none" |})
    (set_form (Some {| display := "block" |})
       (fold_left (fun st n => mark n to_neutral [] st) field_names (reset_values s))).

(** The form as the visitor first sees it: every field blank and
    unvalidated, no message, the form shown and the success view hidden. *)
Definition pristine (s : FormValidator) : Prop :=
  Forall
    (fun n =>
       fieldValue n s = [] /\ fieldChecked n s = false
       /\ visual n s = Some Unvalidated /\ errorText n s = Some [])
    field_names
  /\ form s = Some {| display := "block" |}
  /\ formSuccess s = Some {| display := "none" |}.

(** [s'] differs from [s] at most in the class list of the field [name] and
    in the text of its error element. *)
Definition only_touches (name : string) (s s' : FormValidator) : Prop :=
  form s' = form s /\ formSuccess s' = formSuccess s
  /\ timers s' = timers s /\ scrolledTo s' = scrolledTo s /\ focused s' = focused s
  /\ (forall k, fieldValue k s' = fieldValue k s /\ fieldChecked k s' = fieldChecked k s)
  /\ (forall k, k <> name ->
        fields s' !! k = fields s !! k /\ errorElements s' !! k = errorElements s !! k).

(** The seven values have the shape the rules ask for. *)
Definition valid_shaped (s : FormValidator) : Prop :=
  let name := trim (fieldValue "fullName" s) in
  let password := fieldValue "password" s in
  let phone := fieldValue "phone" s in
  ((2 <= length name)%nat
   /\ forallb (fun c => is_lower c || is_upper c || (c =? 32)%N) name = true)
  /\ test emailRegex (fieldValue "email" s) = true
  /\ ((8 <= length password)%nat
      /\ existsb is_upper password = true /\ existsb is_lower password = true
      /\ existsb is_digit password = true /\ existsb is_special password = true)
  /\ fieldValue "confirmPassword" s = password
  /\ (exists n, parseInt (fieldValue "age" s) = Some n /\ (13 <= n <= 120)%Z)
  /\ (phone = [] \/ (10 <= digit_count phone <= 15)%nat)
  /\ fieldChecked "terms" s = true.

(** *** Pages used below *)

(** A page whose values the browser has restored, all of them well formed;
    the visitor then retypes the confirmation with one character too many,
    leaves the field, and types the same character into the password. *)
Definition stale_page : FormValidator :=
  after (on_input "password" (js "Abcdef1!x"))
    (after validateConfirmPassword
       (after (on_input "confirmPassword" (js "Abcdef1!x")) valid_page)).

(** The same page with a digit in the name. *)
Definition stale_page_bad_name : FormValidator :=
  type_value "fullName" (js "Jo3") stale_page.

(** The loaded page with the terms box ticked. *)
Definition terms_ticked : FormValidator := set_check "terms" true initial_page.

(** A page whose markup lacks the input of one field. *)
Definition page_without (name : string) : FormValidator :=
  set_fields (delete name (fields valid_page)) valid_page.

(** A page whose markup lacks the form element. *)
Definition page_without_form : FormValidator := set_form None valid_page.

(** *** Two readings the code does not bear out *)

(** A Valid outcome puts the field in the success state and empties its
    message, for every field. *)
Definition valid_shows_success : Prop :=
  forall name validate s,
    In (name, validate) validators -> all_present s = true ->
    result_of (validate s) = Some true ->
    visual name (state_of (validate s)) = Some ShowsSuccess
    /\ errorText name (state_of (validate s)) = Some [].

(** The phone rule with emptiness tested on the value as typed. *)
Definition phone_rule_on_raw_value : Prop :=
  forall s v,
    all_present s = true -> fieldValue "phone" s = v ->
    (v = [] -> result_of (validatePhone s) = Some true)
    /\ (v <> [] ->
        (result_of (validatePhone s) = Some true
         <-> (10 <= digit_count v <= 15)%nat)).

(** *** What a computation leaves to the visitor *)

(** [s'] holds the same values and the same checkedness as [s]. *)
Definition same_inputs (s s' : FormValidator) : Prop :=
  forall k,
    value <$> fields s' !! k = value <$> fields s !! k
    /\ checked <$> fields s' !! k = checked <$> fields s !! k.

(** Completed or thrown, the computation changes no value and no
    checkedness. *)
Definition keeps_inputs {A} (c : M A) : Prop :=
  forall s, same_inputs s (state_of (c s)).

(** The validator of [name] ends in [this.showSuccess(...)]: the rule holds,
    and the field is neither the terms box nor a phone field that is empty
    once trimmed. *)
Definition reaches_showSuccess (name : string) (s : FormValidator) : bool :=
  is_valid (outcome name s)
  && negb (String.eqb name "terms"
           || String.eqb name "phone" && is_empty (trim (fieldValue "phone" s))).

(** The timer that the form-level [showSuccess] starts. *)
Definition reset_timer : Timer := {| callback := ResetForm; delay := 5000 |}.

(** The state [showFormErrors] leaves. *)
Definition focus_first_error (s : FormValidator) : FormValidator :=
  match firstErrorField s with
  | Some n => set_focused (Some n) (set_scrolledTo (Some n) s)
  | None => s
  end.

(** The number that a string of decimal digits writes. *)
Definition decimal (ds : jsstring) : Z :=
  digits_value 10 (map (fun c => Z.of_N c - Z.of_N (ch "0"))%Z ds).

(** * The other widgets of the page *)

(** [s.includes(p)]: [p] occurs in [s] as a run of code units. *)
Fixpoint starts_with (p s : jsstring) : bool :=
  match p, s with
  | [], _ => true
  | _ :: _, [] => false
  | a :: p', b :: s' => (a =? b)%N && starts_with p' s'
  end.

Fixpoint includes (s p : jsstring) : bool :=
  starts_with p s
  || match s with
     | [] => false
     | _ :: s' => includes s' p
     end.

(** The string of an integer number: its decimal digits, with a minus sign
    when negative. *)
Definition number_to_string (z : Z) : jsstring :=
  js (NilZero.string_of_int (Z.to_int z)).

(** ** The theme switch *)

Module ThemeToggle.

(** The button: only its [aria-label] attribute is written. *)
Record Button : Type := { ariaLabel : option jsstring }.

(** The object with what it reads and writes: the button, the text of the
    icon, [localStorage], the [data-theme] attribute of the root element,
    and whether the button has the click listener. *)
Record state : Type := {
  themeToggle : option Button;
  themeIcon : option jsstring;
  currentTheme : jsstring;
  localStorage : gmap string jsstring;
  dataTheme : option jsstring;
  listening : bool
}.

Definition light : jsstring := js "light".
Definition dark : jsstring := js "dark".

(** The crescent moon, U+1F319, as a surrogate pair. *)
Definition moon : jsstring := [55356%N; 57113%N].
(** The sun, U+2600, followed by the variation selector U+FE0F. *)
Definition sun : jsstring := [9728%N; 65039%N].

(** [theme === 'light'] *)
Definition is_light (theme : jsstring) : bool := bool_decide (theme = light).

Definition applyTheme (theme : jsstring) (s : state) : state :=
  {| themeToggle :=
       match themeToggle s with
       | Some _ =>
           Some {| ariaLabel :=
                     Some (js "Switch to "
                           ++ (if is_light theme then dark else light)
                           ++ js " mode") |}
       | None => None
       end;
     themeIcon :=
       match themeIcon s with
       | Some _ => Some (if is_light theme then moon else sun)
       | None => None
       end;
     currentTheme := currentTheme s;
     localStorage := localStorage s;
     dataTheme := Some theme;
     listening := listening s |}.

Definition set_currentTheme (theme : jsstring) (s : state) : state :=
  {| themeToggle := themeToggle s; themeIcon := themeIcon s;
     currentTheme := theme; localStorage := localStorage s;
     dataTheme := dataTheme s; listening := listening s |}.

(** [localStorage.setItem(key, v)] *)
Definition setItem (key : string) (v : jsstring) (s : state) : state :=
  {| themeToggle := themeToggle s; themeIcon := themeIcon s;
     currentTheme := currentTheme s; localStorage := <[key := v]> (localStorage s);
     dataTheme := dataTheme s; listening := listening s |}.

Definition toggleTheme (s : state) : state :=
  let s1 := set_currentTheme (if is_light (currentTheme s) then dark else light) s in
  let s2 := applyTheme (currentTheme s1) s1 in
  setItem "theme" (currentTheme s2) s2.

(** [addEvent(this.themeToggle, 'click', ...)] registers nothing on a
    missing button. *)
Definition init (s : state) : state :=
  let s1 := applyTheme (currentTheme s) s in
  {| themeToggle := themeToggle s1; themeIcon := themeIcon s1;
     currentTheme := currentTheme s1; localStorage := localStorage s1;
     dataTheme := dataTheme s1;
     listening := match themeToggle s1 with Some _ => true | None => false end |}.

(** [localStorage.getItem('theme') || 'light']: a missing key reads as
    [null], and [null] and the empty string are falsy. *)
Definition saved_theme (storage : gmap string jsstring) : jsstring :=
  match storage !! "theme" with
  | Some v => if is_empty v then light else v
  | None => light
  end.

(** [new ThemeToggle()] on a page with the given button, icon text, storage
    and root attribute. *)
Definition new (button : option Button) (icon : option jsstring)
    (storage : gmap string jsstring) (root : option jsstring) : state :=
  init {| themeToggle := button; themeIcon := icon;
          currentTheme := saved_theme storage; localStorage := storage;
          dataTheme := root; listening := false |}.

(** What [applyTheme] and [setItem] leave when they have run for the
    current theme. *)
Definition settled (s : state) : Prop :=
  dataTheme s = Some (currentTheme s)
  /\ localStorage s !! "theme" = Some (currentTheme s)
  /\ (forall t, themeIcon s = Some t ->
        t = if is_light (currentTheme s) then moon else sun)
  /\ (forall b, themeToggle s = Some b ->
        ariaLabel b
        = Some (js "Switch to "
                ++ (if is_light (currentTheme s) then dark else light)
                ++ js " mode")).

End ThemeToggle.

(** ** The counter *)

Module CounterGame.

(** The element that shows the count: its text and [style.transform]. *)
Record Display : Type := { textContent : jsstring; transform : jsstring }.

Inductive Callback : Type := ClearMessage | ScaleBack.

Record Timer : Type := { callback : Callback; delay : N }.

Record state : Type := {
  counterValue : option Display;
  counterMessage : option jsstring;
  count : Z;
  timers : list Timer
}.

Inductive Completion : Type :=
| Normal (s : state)
| Throw (s : state).

Definition state_of (c : Completion) : state :=
  match c with Normal s => s | Throw s => s end.

Definition completes (c : Completion) : bool :=
  match c with Normal _ => true | Throw _ => false end.

(** Run [k] after a step that completed. *)
Definition and_then (c : Completion) (k : state -> Completion) : Completion :=
  match c with Normal s => k s | Throw s => Throw s end.

Definition set_counterValue (d : option Display) (s : state) : state :=
  {| counterValue := d; counterMessage := counterMessage s;
     count := count s; timers := timers s |}.

Definition set_counterMessage (m : option jsstring) (s : state) : state :=
  {| counterValue := counterValue s; counterMessage := m;
     count := count s; timers := timers s |}.

Definition set_count (c : Z) (s : state) : state :=
  {| counterValue := counterValue s; counterMessage := counterMessage s;
     count := c; timers := timers s |}.

Definition setTimeout (cb : Callback) (ms : N) (s : state) : state :=
  {| counterValue := counterValue s; counterMessage := counterMessage s;
     count := count s; timers := timers s ++ [{| callback := cb; delay := ms |}] |}.

(** The largest integer below which every integer is a number: 2^53. *)
Definition limit : Z := 9007199254740992.

(** [count++] and [count--] on a number that is an integer between -2^53
    and 2^53: exact, except that 2^53 + 1 rounds back to 2^53 and
    -2^53 - 1 to -2^53. *)
Definition succ (c : Z) : Z := if (c =? limit)%Z then c else (c + 1)%Z.
Definition pred (c : Z) : Z := if (c =? - limit)%Z then c else (c - 1)%Z.

Definition updateDisplay (s : state) : state :=
  match counterValue s with
  | Some d =>
      set_counterValue
        (Some {| textContent := number_to_string (count s); transform := transform d |}) s
  | None => s
  end.

(** [this.counterMessage.textContent = m]: throws when the element is
    missing. *)
Definition writeMessage (m : jsstring) (s : state) : Completion :=
  match counterMessage s with
  | Some _ => Normal (set_counterMessage (Some m) s)
  | None => Throw s
  end.

(** The party popper, the trophy, the glowing star, the confetti ball, the
    warning sign with its variation selector, the round pushpin. *)
Definition party : jsstring := [55356%N; 57225%N].
Definition trophy : jsstring := [55356%N; 57286%N].
Definition star : jsstring := [55356%N; 57119%N].
Definition confetti : jsstring := [55356%N; 57226%N].
Definition warning : jsstring := [9888%N; 65039%N].
Definition pushpin : jsstring := [55357%N; 56525%N].

Definition message_for (c : Z) : jsstring :=
  if (c =? 10)%Z then party ++ js " You reached 10! Great job!"
  else if (c =? 25)%Z then trophy ++ js " Amazing! You hit 25!"
  else if (c =? 50)%Z then star ++ js " Fantastic! Half century!"
  else if (c =? 100)%Z then confetti ++ js " Centurion! You made it to 100!"
  else if (c <? 0)%Z then warning ++ js " Going negative!"
  else if (c =? 0)%Z then pushpin ++ js " Back to zero!"
  else [].

Definition showMessage (s : state) : Completion :=
  let message := message_for (count s) in
  and_then (writeMessage message s) (fun s1 =>
    if negb (is_empty message) && negb (includes message (js "negative"))
    then Normal (setTimeout ClearMessage 3000 s1)
    else Normal s1).

Definition animateCounter (s : state) : state :=
  match counterValue s with
  | Some d =>
      setTimeout ScaleBack 200
        (set_counterValue
           (Some {| textContent := textContent d; transform := js "scale(1.2)" |}) s)
  | None => s
  end.

Definition increment (s : state) : Completion :=
  let s1 := updateDisplay (set_count (succ (count s)) s) in
  and_then (showMessage s1) (fun s2 => Normal (animateCounter s2)).

Definition decrement (s : state) : Completion :=
  let s1 := updateDisplay (set_count (pred (count s)) s) in
  and_then (showMessage s1) (fun s2 => Normal (animateCounter s2)).

Definition reset (s : state) : Completion :=
  let s1 := updateDisplay (set_count 0 s) in
  and_then (writeMessage (js "Counter reset!") s1) (fun s2 =>
    Normal (setTimeout ClearMessage 2000 (animateCounter s2))).

(** A [keydown] event: its key and whether Ctrl is held. *)
Record KeyboardEvent : Type := { key : jsstring; ctrlKey : bool }.

(** The handler, with whether it called [preventDefault]. *)
Definition handleKeyboard (e : KeyboardEvent) (s : state) : bool * Completion :=
  if bool_decide (key e = js "+") || bool_decide (key e = js "=")
  then (true, increment s)
  else if bool_decide (key e = js "-") then (true, decrement s)
  else if bool_decide (key e = js "0")
       then if ctrlKey e then (true, reset s) else (false, Normal s)
  else (false, Normal s).

(** The callbacks given to [setTimeout]. *)
Definition run_callback (cb : Callback) (s : state) : Completion :=
  match cb with
  | ClearMessage => writeMessage [] s
  | ScaleBack =>
      match counterValue s with
      | Some d =>
          Normal (set_counterValue
                    (Some {| textContent := textContent d; transform := js "scale(1)" |}) s)
      | None => Throw s
      end
  end.

(** The pending timer at position [i] fires: its callback runs and it is
    pending no more. Which timer is due first depends on the delays and on
    when each was started. *)
Definition fire (i : nat) (s : state) : state :=
  match timers s !! i with
  | Some t =>
      state_of (run_callback (callback t)
                  {| counterValue := counterValue s; counterMessage := counterMessage s;
                     count := count s; timers := delete i (timers s) |})
  | None => s
  end.

(** [new CounterGame()]: the count starts at 0 and [init] shows it. *)
Definition new (display : option Display) (message : option jsstring) : state :=
  updateDisplay {| counterValue := display; counterMessage := message;
                   count := 0; timers := [] |}.

(** The display, when there is one, shows the count. *)
Definition shows_count (s : state) : Prop :=
  forall d, counterValue s = Some d -> textContent d = number_to_string (count s).

Definition in_bounds (s : state) : Prop := (- limit <= count s <= limit)%Z.

(** The counts that get a message which a timer clears. *)
Definition milestone (c : Z) : bool :=
  (c =? 0)%Z || (c =? 10)%Z || (c =? 25)%Z || (c =? 50)%Z || (c =? 100)%Z.

End CounterGame.

(** ** A document *)

Module Dom.

(** An element: its attributes and the tokens of its class list. A document
    is the list of its elements in document order; an element is named by
    its position. *)
Record Node : Type := {
  attributes : gmap string jsstring;
  classList : list string
}.

(** [element.getAttribute(name)]: [null] when the attribute is missing. *)
Definition getAttribute (name : string) (n : Node) : option jsstring :=
  attributes n !! name.

(** What a template literal makes of an attribute value: a missing one
    reads [null]. *)
Definition template (v : option jsstring) : jsstring := default (js "null") v.

Fixpoint find_index {A} (p : A -> bool) (l : list A) : option nat :=
  match l with
  | [] => None
  | x :: l' => if p x then Some 0%nat else S <$> find_index p l'
  end.

(** [getElement('#' + v)]. The page markup is not among the sources; the
    values of [data-target] and [data-tab] are taken to be element ids
    written as plain identifiers, the use that the selector built from them
    is made for: the selector then finds the first element of the document
    whose id is [v], or nothing. *)
Definition query_id (doc : list Node) (v : jsstring) : option nat :=
  find_index (fun n => bool_decide (getAttribute "id" n = Some v)) doc.

Definition set_classes (f : list string -> list string) (n : Node) : Node :=
  {| attributes := attributes n; classList := f (classList n) |}.

(** A class-list operation on the element at position [i]. *)
Definition with_classes (f : list string -> list string) (i : nat)
    (doc : list Node) : list Node :=
  alter (set_classes f) i doc.

(** [classList.toggle(tok)] *)
Definition toggle (tok : string) (l : list string) : list string :=
  if contains tok l then classList_remove [tok] l else classList_add tok l.

Definition has_class (tok : string) (doc : list Node) (i : nat) : bool :=
  match doc !! i with
  | Some n => contains tok (classList n)
  | None => false
  end.

(** [getElements('.' + cls)]: the elements that carry the class, in
    document order. *)
Definition query_class (doc : list Node) (cls : string) : list nat :=
  List.filter (has_class cls doc) (seq 0 (length doc)).

(** The element that an attribute of the element at [i] names by id. *)
Definition named_by (attr : string) (doc : list Node) (i : nat) : option nat :=
  match doc !! i with
  | Some n => query_id doc (template (getAttribute attr n))
  | None => None
  end.

Definition mem (i : nat) (l : list nat) : bool := existsb (Nat.eqb i) l.

End Dom.

(** ** The tabs *)

Module TabbedInterface.

Record state : Type := {
  doc : list Dom.Node;
  tabButtons : list nat;
  tabPanels : list nat
}.

(** [new TabbedInterface()] *)
Definition new (d : list Dom.Node) : state :=
  {| doc := d;
     tabButtons := Dom.query_class d "tab-btn";
     tabPanels := Dom.query_class d "tab-panel" |}.

(** [list.forEach(el => el.classList.remove('active'))] *)
Definition remove_active (nodes : list nat) (d : list Dom.Node) : list Dom.Node :=
  fold_left (fun d' i => Dom.with_classes (classList_remove ["active"]) i d') nodes d.

(** [switchTab(clickedButton)]; the handler is attached to an element of
    the document, so the first case does not arise. *)
Definition switchTab (clickedButton : nat) (s : state) : state :=
  match doc s !! clickedButton with
  | None => s
  | Some button =>
      let targetTab := Dom.getAttribute "data-tab" button in
      let d1 := remove_active (tabButtons s) (doc s) in
      let d2 := remove_active (tabPanels s) d1 in
      let d3 := Dom.with_classes (classList_add "active") clickedButton d2 in
      let targetPanel := Dom.query_id d3 (Dom.template targetTab) in
      let d4 :=
        match targetPanel with
        | Some p => Dom.with_classes (classList_add "active") p d3
        | None => d3
        end in
      {| doc := d4; tabButtons := tabButtons s; tabPanels := tabPanels s |}
  end.

End TabbedInterface.

(** ** The questions and answers *)

Module FAQSection.

Record state : Type := {
  doc : list Dom.Node;
  faqQuestions : list nat
}.

(** [new FAQSection()] *)
Definition new (d : list Dom.Node) : state :=
  {| doc := d; faqQuestions := Dom.query_class d "faq-question" |}.

(** The body of the loop that closes the other questions. *)
Definition close_other (clickedQuestion : nat) (d : list Dom.Node) (question : nat)
    : list Dom.Node :=
  if bool_decide (question <> clickedQuestion) then
    let d1 := Dom.with_classes (classList_remove ["active"]) question d in
    match d1 !! question with
    | Some q =>
        let otherTargetId := Dom.getAttribute "data-target" q in
        match Dom.query_id d1 (Dom.template otherTargetId) with
        | Some otherAnswer =>
            Dom.with_classes (classList_remove ["active"]) otherAnswer d1
        | None => d1
        end
    | None => d1
    end
  else d.

(** [toggleFAQ(clickedQuestion)]; the handler is attached to an element of
    the document, so the first case does not arise. *)
Definition toggleFAQ (clickedQuestion : nat) (s : state) : state :=
  match doc s !! clickedQuestion with
  | None => s
  | Some q =>
      let targetId := Dom.getAttribute "data-target" q in
      let targetAnswer := Dom.query_id (doc s) (Dom.template targetId) in
      let d1 := fold_left (close_other clickedQuestion) (faqQuestions s) (doc s) in
      let d2 := Dom.with_classes (Dom.toggle "active") clickedQuestion d1 in
      let d3 :=
        match targetAnswer with
        | Some a => Dom.with_classes (Dom.toggle "active") a d2
        | None => d2
        end in
      {| doc := d3; faqQuestions := faqQuestions s |}
  end.

(** The answer of a question: the element its [data-target] names. *)
Definition answer (d : list Dom.Node) (q : nat) : option nat :=
  Dom.named_by "data-target" d q.

(** The accordion is laid out as meant: the questions are elements of the
    document, no answer is itself a question, and no two questions share an
    answer. *)
Definition well_formed (s : state) : Prop :=
  (forall q, In q (faqQuestions s) -> is_Some (doc s !! q))
  /\ (forall q a, In q (faqQuestions s) -> answer (doc s) q = Some a ->
        ~ In a (faqQuestions s))
  /\ (forall q q' a, In q (faqQuestions s) -> In q' (faqQuestions s) ->
        answer (doc s) q = Some a -> answer (doc s) q' = Some a -> q = q').

End FAQSection.

(** What [switchTab] makes of the element at position [i], the clicked
    button being at [c] and its panel, if any, at [target]. *)
Definition tab_view (s : TabbedInterface.state) (c : nat) (target : option nat)
    (i : nat) (n : Dom.Node) : Dom.Node :=
  (if decide (target = Some i) then Dom.set_classes (classList_add "active") else id)
    ((if decide (c = i) then Dom.set_classes (classList_add "active") else id)
       ((if Dom.mem i (TabbedInterface.tabPanels s)
         then Dom.set_classes (classList_remove ["active"]) else id)
          ((if Dom.mem i (TabbedInterface.tabButtons s)
            then Dom.set_classes (classList_remove ["active"]) else id) n))).

(** The loop of [toggleFAQ] takes [active] off the element at [i]: one of
    the questions [qs] other than the clicked one is that element or names
    it as its answer. *)
Definition closes (d : list Dom.Node) (c : nat) (qs : list nat) (i : nat) : bool :=
  existsb
    (fun q => bool_decide (q <> c)
              && (Nat.eqb i q || bool_decide (FAQSection.answer d q = Some i)))
    qs.

(** What [toggleFAQ] makes of the element at position [i], the clicked
    question being at [c] and its answer, if any, at [target]. *)
Definition faq_view (s : FAQSection.state) (c : nat) (target : option nat)
    (i : nat) (n : Dom.Node) : Dom.Node :=
  (if decide (target = Some i) then Dom.set_classes (Dom.toggle "active") else id)
    ((if decide (c = i) then Dom.set_classes (Dom.toggle "active") else id)
       ((if closes (FAQSection.doc s) c (FAQSection.faqQuestions s) i
         then Dom.set_classes (classList_remove ["active"]) else id) n)).

(** Every question and the answer it names are open together or closed
    together. *)
Definition in_step (s : FAQSection.state) : Prop :=
  forall q a, In q (FAQSection.faqQuestions s) ->
    FAQSection.answer (FAQSection.doc s) q = Some a ->
    Dom.has_class "active" (FAQSection.doc s) a
    = Dom.has_class "active" (FAQSection.doc s) q.

(** A sequence of clicks on questions, in order. *)
Definition clicks (cs : list nat) (s : FAQSection.state) : FAQSection.state :=
  fold_left (fun s' c => FAQSection.toggleFAQ c s') cs s.

(** What can happen to the counter once it is built: a click on one of its
    three buttons, a key pressed anywhere in the document, a pending timer
    that fires. *)
Inductive CounterEvent : Type :=
| ClickIncrement
| ClickDecrement
| ClickReset
| KeyDown (e : CounterGame.KeyboardEvent)
| TimerFires (i : nat).

(** The listeners of [init] and the timer callbacks; an exception ends the
    handler and leaves what it had done. *)
Definition counter_handle (ev : CounterEvent) (s : CounterGame.state) : CounterGame.state :=
  match ev with
  | ClickIncrement => CounterGame.state_of (CounterGame.increment s)
  | ClickDecrement => CounterGame.state_of (CounterGame.decrement s)
  | ClickReset => CounterGame.state_of (CounterGame.reset s)
  | KeyDown e => CounterGame.state_of (snd (CounterGame.handleKeyboard e s))
  | TimerFires i => CounterGame.fire i s
  end.

Definition counter_run (evs : list CounterEvent) (s : CounterGame.state)
    : CounterGame.state :=
  fold_left (fun s' ev => counter_handle ev s') evs s.

(** Which of the two elements of the counter are there. *)
Definition counter_elements (s : CounterGame.state) : bool * bool :=
  (bool_decide (is_Some (CounterGame.counterValue s)),
   bool_decide (is_Some (CounterGame.counterMessage s))).

(** * Properties *)

(** ** The primitives on small inputs *)

Example parseInt_13 : parseInt (js "13") = Some 13%Z.
Proof. reflexivity. Qed.
Example parseInt_suffix : parseInt (js " 42px") = Some 42%Z.
Proof. reflexivity. Qed.
Example parseInt_hex : parseInt (js "0x20") = Some 32%Z.
Proof. reflexivity. Qed.
Example parseInt_nan : parseInt (js "abc") = None.
Proof. reflexivity. Qed.
Example test_email : test emailRegex (js "a@b.co") = true.
Proof. reflexivity. Qed.
Example test_email_bad : test emailRegex (js "a@b") = false.
Proof. reflexivity. Qed.
Example test_name : test nameRegex (js "Jo3") = false.
Proof. reflexivity. Qed.
Example trim_spaces : trim (js "  Jo Doe ") = js "Jo Doe".
Proof. reflexivity. Qed.
Example parseInt_blank : parseInt (js "  ") = None.
Proof. reflexivity. Qed.
Example parseInt_negative : parseInt (js "-7") = Some (-7)%Z.
Proof. reflexivity. Qed.
Example parseInt_bare_prefix : parseInt (js "0x") = None.
Proof. reflexivity. Qed.
Example test_special : test specialRegex (js "Abcdef1") = false.
Proof. reflexivity. Qed.
Example blank_form_rejected :
  result_of (validateAllFields initial_page) = Some false
  /\ firstErrorField (state_of (validateAllFields initial_page)) = Some "fullName".
Proof. split; reflexivity. Qed.
Example short_name_message :
  errorText "fullName" (state_of (validateFullName (type_value "fullName" (js "J") initial_page)))
  = Some (js "Full name must be at least 2 characters").
Proof. reflexivity. Qed.
Example digit_in_name_message :
  errorText "fullName" (state_of (validateFullName (type_value "fullName" (js "Jo3") initial_page)))
  = Some (js "Full name can only contain letters and spaces").
Proof. reflexivity. Qed.

(** ** The matcher decides the language *)

Section RegexFacts.

Lemma bool_eq_of_iff (a b : bool) : (a = true <-> b = true) -> a = b.
Proof. destruct a, b; intuition congruence. Qed.

Lemma lang_cat_inv r1 r2 s :
  lang (Cat r1 r2) s -> exists s1 s2, s = s1 ++ s2 /\ lang r1 s1 /\ lang r2 s2.
Proof. intros H; inv H; eauto. Qed.

Lemma lang_class_inv p s : lang (Class p) s -> exists c, s = [c] /\ p c = true.
Proof. intros H; inv H; eauto. Qed.

Lemma lang_eps_inv s : lang Eps s -> s = [].
Proof. intros H; now inv H. Qed.

Lemma lang_star_cons_inv r c s :
  lang (Star r) (c :: s) ->
  exists s1 s2, s = s1 ++ s2 /\ lang r (c :: s1) /\ lang (Star r) s2.
Proof.
  remember (Star r) as r0 eqn:Er. remember (c :: s) as w eqn:Ew.
  intros H. revert Er Ew.
  induction H as [| | | | | r'|r' s1 s2 H1 _ H2 IH2]; intros Er Ew; try discriminate.
  injection Er as ->.
  destruct s1 as [|c1 s1]; simpl in Ew.
  - auto.
  - injection Ew as -> <-. eauto.
Qed.

Lemma nullable_lang r : nullable r = true <-> lang r [].
Proof.
  induction r as [| |p|r1 IH1 r2 IH2|r1 IH1 r2 IH2|r IH]; simpl.
  - split; [discriminate | intros H; inv H].
  - split; [constructor | reflexivity].
  - split; [discriminate | intros H; inv H].
  - rewrite andb_true_iff, IH1, IH2. split.
    + intros [H1 H2]. change (@nil N) with (@nil N ++ []). now constructor.
    + intros H. apply lang_cat_inv in H as (s1 & s2 & E & H1 & H2).
      symmetry in E. apply app_eq_nil in E as [-> ->]. auto.
  - rewrite orb_true_iff, IH1, IH2. split.
    + intros [H|H]; [now apply lang_alt_l | now apply lang_alt_r].
    + intros H; inv H; auto.
  - split; [constructor | reflexivity].
Qed.

Lemma deriv_lang c r : forall s, lang (deriv c r) s <-> lang r (c :: s).
Proof.
  induction r as [| |p|r1 IH1 r2 IH2|r1 IH1 r2 IH2|r IH]; simpl; intros s.
  - split; intros H; inv H.
  - split; intros H; inv H.
  - destruct (p c) eqn:Ep; split; intros H.
    + apply lang_eps_inv in H as ->. now constructor.
    + apply lang_class_inv in H as (c' & E & _). injection E as -> ->. constructor.
    + inv H.
    + apply lang_class_inv in H as (c' & E & Hp). injection E as -> ->. congruence.
  - assert (Hl : lang (Cat (deriv c r1) r2) s -> lang (Cat r1 r2) (c :: s)).
    { intros H. apply lang_cat_inv in H as (s1 & s2 & -> & H1 & H2).
      apply IH1 in H1. change (c :: s1 ++ s2) with ((c :: s1) ++ s2). now constructor. }
    assert (Hr : lang (Cat r1 r2) (c :: s) ->
                 lang (Cat (deriv c r1) r2) s \/ (lang r1 [] /\ lang r2 (c :: s))).
    { intros H. apply lang_cat_inv in H as (s1 & s2 & E & H1 & H2).
      destruct s1 as [|c1 s1]; simpl in E.
      - right. subst s2. auto.
      - injection E as -> ->. left. constructor; [now apply IH1 | assumption]. }
    destruct (nullable r1) eqn:En; split; intros H.
    + inv H; [auto |].
      change (c :: s) with ([] ++ c :: s). constructor.
      * now apply nullable_lang.
      * now apply IH2.
    + destruct (Hr H) as [H'|[_ H']]; [now apply lang_alt_l |].
      apply lang_alt_r. now apply IH2.
    + auto.
    + destruct (Hr H) as [H'|[H' _]]; [assumption |].
      apply nullable_lang in H'. congruence.
  - split; intros H; inv H.
    + apply lang_alt_l. now apply IH1.
    + apply lang_alt_r. now apply IH2.
    + apply lang_alt_l. now apply IH1.
    + apply lang_alt_r. now apply IH2.
  - split; intros H.
    + apply lang_cat_inv in H as (s1 & s2 & -> & H1 & H2).
      apply IH in H1. change (c :: s1 ++ s2) with ((c :: s1) ++ s2). now constructor.
    + apply lang_star_cons_inv in H as (s1 & s2 & -> & H1 & H2).
      constructor; [now apply IH | assumption].
Qed.

Lemma matches_lang s : forall r, matches r s = true <-> lang r s.
Proof.
  induction s as [|c s IH]; intros r; simpl.
  - apply nullable_lang.
  - rewrite IH. apply deriv_lang.
Qed.

Lemma lang_star_class p s : lang (Star (Class p)) s <-> forallb p s = true.
Proof.
  split.
  - induction s as [|c s IH]; intros H; [reflexivity |].
    apply lang_star_cons_inv in H as (s1 & s2 & -> & H1 & H2).
    apply lang_class_inv in H1 as (c' & E & Hp). injection E as -> ->.
    simpl. rewrite Hp. now apply IH.
  - induction s as [|c s IH]; simpl; intros H; [constructor |].
    apply andb_true_iff in H as [Hp H]. change (c :: s) with ([c] ++ s).
    constructor; [now constructor | now apply IH].
Qed.

Lemma lang_skip s : lang skip s.
Proof. apply lang_star_class. now induction s. Qed.

Lemma lang_plus_class p s :
  lang (Plus (Class p)) s <-> is_empty s = false /\ forallb p s = true.
Proof.
  unfold Plus. split.
  - intros H. apply lang_cat_inv in H as (s1 & s2 & -> & H1 & H2).
    apply lang_class_inv in H1 as (c & -> & Hp). apply lang_star_class in H2.
    simpl. now rewrite Hp.
  - destruct s as [|c s]; simpl; intros [E H]; [discriminate |].
    apply andb_true_iff in H as [Hp H]. change (c :: s) with ([c] ++ s).
    constructor; [now constructor | now apply lang_star_class].
Qed.

(** An unanchored one-class literal finds a code unit of the class. *)
Lemma test_search_class p s : test (Pattern false (Class p) false) s = existsb p s.
Proof.
  apply bool_eq_of_iff. unfold test; simpl anchor_start; simpl anchor_end; simpl body.
  cbv iota. rewrite matches_lang, existsb_exists. split.
  - intros H. apply lang_cat_inv in H as (s1 & s2 & -> & _ & H).
    apply lang_cat_inv in H as (s3 & s4 & -> & H & _).
    apply lang_class_inv in H as (c & -> & Hp).
    exists c. split; [| assumption]. apply in_or_app. right. now left.
  - intros (c & Hin & Hp). apply in_split in Hin as (s1 & s2 & ->).
    constructor; [apply lang_skip |]. change (c :: s2) with ([c] ++ s2).
    constructor; [now constructor | apply lang_skip].
Qed.

(** An anchored [[class]+] literal wants a non-empty string of the class. *)
Lemma test_plus_class p s :
  test (Pattern true (Plus (Class p)) true) s = negb (is_empty s) && forallb p s.
Proof.
  apply bool_eq_of_iff. unfold test; simpl anchor_start; simpl anchor_end; simpl body.
  cbv iota. rewrite matches_lang, andb_true_iff, negb_true_iff, <- lang_plus_class.
  split.
  - intros H. apply lang_cat_inv in H as (s1 & s2 & -> & H1 & H).
    apply lang_eps_inv in H1 as ->.
    apply lang_cat_inv in H as (s3 & s4 & -> & H & H4).
    apply lang_eps_inv in H4 as ->. simpl. now rewrite app_nil_r.
  - intros H. change s with ([] ++ s). constructor; [constructor |].
    rewrite <- (app_nil_r s). constructor; [assumption | constructor].
Qed.

(** What the e-mail literal accepts. *)
Lemma test_emailRegex s :
  test emailRegex s = true <->
  exists a b c,
    s = a ++ [ch "@"] ++ b ++ [ch "."] ++ c
    /\ (is_empty a = false /\ forallb is_email_char a = true)
    /\ (is_empty b = false /\ forallb is_email_char b = true)
    /\ (is_empty c = false /\ forallb is_email_char c = true).
Proof.
  unfold test, emailRegex; simpl anchor_start; simpl anchor_end; simpl body.
  cbv iota. rewrite matches_lang. split.
  - intros H. apply lang_cat_inv in H as (s0 & s' & -> & H0 & H).
    apply lang_eps_inv in H0 as ->.
    apply lang_cat_inv in H as (s1 & s2 & -> & H & H2).
    apply lang_eps_inv in H2 as ->.
    apply lang_cat_inv in H as (a & s3 & -> & Ha & H).
    apply lang_cat_inv in H as (at' & s4 & -> & Hat & H).
    apply lang_cat_inv in H as (b & s5 & -> & Hb & H).
    apply lang_cat_inv in H as (dot & c & -> & Hdot & Hc).
    apply lang_class_inv in Hat as (x & -> & Hx). apply N.eqb_eq in Hx as ->.
    apply lang_class_inv in Hdot as (y & -> & Hy). apply N.eqb_eq in Hy as ->.
    apply lang_plus_class in Ha, Hb, Hc.
    exists a, b, c. simpl. rewrite app_nil_r. auto.
  - intros (a & b & c & -> & Ha & Hb & Hc).
    apply lang_plus_class in Ha, Hb, Hc.
    change (a ++ [ch "@"] ++ b ++ [ch "."] ++ c)
      with ([] ++ (a ++ [ch "@"] ++ b ++ [ch "."] ++ c)).
    constructor; [constructor |].
    rewrite <- (app_nil_r (a ++ _)).
    constructor; [| constructor].
    constructor; [assumption |].
    constructor; [constructor; apply N.eqb_refl |].
    constructor; [assumption |].
    constructor; [constructor; apply N.eqb_refl | assumption].
Qed.

End RegexFacts.

(** ** Character classes and trimming *)

Section StringFacts.

Ltac class_arith :=
  unfold is_name_char, is_email_char, is_upper, is_lower, is_digit, is_white_space,
    in_range in *;
  change (ch "A") with 65%N in *; change (ch "Z") with 90%N in *;
  change (ch "a") with 97%N in *; change (ch "z") with 122%N in *;
  change (ch "0") with 48%N in *; change (ch "9") with 57%N in *;
  change (ch "@") with 64%N in *;
  repeat match goal with
         | H : _ = true |- _ =>
             first [ apply andb_true_iff in H as [? ?]
                   | apply N.leb_le in H | apply N.eqb_eq in H ]
         end;
  rewrite ?orb_false_iff, ?andb_false_iff, ?N.leb_gt, ?N.eqb_neq;
  repeat split; try lia.

Lemma upper_not_white_space c : is_upper c = true -> is_white_space c = false.
Proof. intros H. class_arith. Qed.

Lemma lower_not_white_space c : is_lower c = true -> is_white_space c = false.
Proof. intros H. class_arith. Qed.

Lemma digit_not_white_space c : is_digit c = true -> is_white_space c = false.
Proof. intros H. class_arith. Qed.

Lemma special_not_white_space c : is_special c = true -> is_white_space c = false.
Proof.
  unfold is_special, one_of. rewrite existsb_exists. intros (d & Hin & E).
  apply N.eqb_eq in E as ->.
  vm_compute in Hin.
  repeat (destruct Hin as [<-|Hin]; [reflexivity |]). destruct Hin.
Qed.

(** No code unit of a white-space string belongs to a class that white
    space stays out of. *)
Lemma existsb_white_space (p : N -> bool) w :
  (forall c, p c = true -> is_white_space c = false) ->
  forallb is_white_space w = true -> existsb p w = false.
Proof.
  intros Hp. induction w as [|c w IH]; simpl; [reflexivity |].
  intros H. apply andb_true_iff in H as [Hc Hw].
  rewrite (IH Hw), orb_false_r.
  destruct (p c) eqn:E; [| reflexivity]. apply Hp in E. congruence.
Qed.

Lemma existsb_pad (p : N -> bool) w1 s w2 :
  (forall c, p c = true -> is_white_space c = false) ->
  forallb is_white_space w1 = true -> forallb is_white_space w2 = true ->
  existsb p (w1 ++ s ++ w2) = existsb p s.
Proof.
  intros Hp H1 H2. rewrite !existsb_app.
  rewrite (existsb_white_space p w1 Hp H1), (existsb_white_space p w2 Hp H2).
  now rewrite orb_false_r.
Qed.

Lemma trim_start_white_space w s :
  forallb is_white_space w = true -> trim_start (w ++ s) = trim_start s.
Proof.
  induction w as [|c w IH]; simpl; [reflexivity |].
  intros H. apply andb_true_iff in H as [-> Hw]. now apply IH.
Qed.

Lemma trim_start_all_white_space w :
  forallb is_white_space w = true -> trim_start w = [].
Proof.
  intros H. rewrite <- (app_nil_r w). now rewrite trim_start_white_space.
Qed.

Lemma forallb_rev (p : N -> bool) l : forallb p (rev l) = forallb p l.
Proof.
  induction l as [|c l IH]; simpl; [reflexivity |].
  rewrite forallb_app, IH. simpl. rewrite andb_true_r. apply andb_comm.
Qed.

Lemma trim_end_white_space s w :
  forallb is_white_space w = true -> trim_end (s ++ w) = trim_end s.
Proof.
  intros H. unfold trim_end. rewrite rev_app_distr.
  rewrite trim_start_white_space; [reflexivity |]. now rewrite forallb_rev.
Qed.

Lemma trim_app_white_space s w :
  forallb is_white_space w = true -> trim (s ++ w) = trim s.
Proof.
  intros H. unfold trim. induction s as [|c s IH]; simpl.
  - now rewrite (trim_start_all_white_space w H).
  - destruct (is_white_space c); [exact IH |].
    change (c :: s ++ w) with ((c :: s) ++ w). now apply trim_end_white_space.
Qed.

(** Padding a value with white space does not change what [trim] gives. *)
Lemma trim_pad w1 s w2 :
  forallb is_white_space w1 = true -> forallb is_white_space w2 = true ->
  trim (w1 ++ s ++ w2) = trim s.
Proof.
  intros H1 H2. rewrite <- (trim_app_white_space s w2 H2).
  unfold trim. now rewrite trim_start_white_space.
Qed.

Lemma trim_start_id s :
  forallb (fun c => negb (is_white_space c)) s = true -> trim_start s = s.
Proof.
  destruct s as [|c s]; simpl; [reflexivity |].
  intros H. apply andb_true_iff in H as [Hc _].
  apply negb_true_iff in Hc. now rewrite Hc.
Qed.

(** A string without white space is its own trimmed form. *)
Lemma trim_id s :
  forallb (fun c => negb (is_white_space c)) s = true -> trim s = s.
Proof.
  intros H. unfold trim, trim_end. rewrite (trim_start_id s H).
  rewrite trim_start_id; [apply rev_involutive |]. now rewrite forallb_rev.
Qed.

Lemma email_char_not_white_space c :
  is_email_char c = true -> negb (is_white_space c) = true.
Proof.
  unfold is_email_char. rewrite negb_true_iff, orb_false_iff.
  intros [-> _]. reflexivity.
Qed.

Lemma forallb_impl (p q : N -> bool) l :
  (forall c, p c = true -> q c = true) -> forallb p l = true -> forallb q l = true.
Proof.
  intros Hpq. induction l as [|c l IH]; simpl; [reflexivity |].
  intros H. apply andb_true_iff in H as [Hc Hl]. now rewrite (Hpq c Hc), IH.
Qed.

(** What the e-mail literal accepts holds no white space. *)
Lemma email_no_white_space s :
  test emailRegex s = true -> forallb (fun c => negb (is_white_space c)) s = true.
Proof.
  intros H. apply test_emailRegex in H
    as (a & b & c & -> & [_ Ha] & [_ Hb] & [_ Hc]).
  pose proof (forallb_impl _ _ _ email_char_not_white_space Ha) as Ha'.
  pose proof (forallb_impl _ _ _ email_char_not_white_space Hb) as Hb'.
  pose proof (forallb_impl _ _ _ email_char_not_white_space Hc) as Hc'.
  rewrite !forallb_app, Ha', Hb', Hc'. reflexivity.
Qed.

Lemma is_empty_false_length (s : jsstring) : is_empty s = false <-> (0 < length s)%nat.
Proof. destruct s; simpl; split; intros; try lia; congruence. Qed.

Lemma is_empty_true (s : jsstring) : is_empty s = true <-> s = [].
Proof. destruct s; simpl; split; intros; congruence. Qed.

Lemma remove_non_digits s : length (remove_all is_non_digit s) = digit_count s.
Proof.
  unfold remove_all, digit_count, is_non_digit. f_equal.
  induction s as [|c s IH]; simpl; [reflexivity |].
  rewrite negb_involutive, IH. reflexivity.
Qed.

Lemma digit_count_pad w1 s w2 :
  forallb is_white_space w1 = true -> forallb is_white_space w2 = true ->
  digit_count (w1 ++ s ++ w2) = digit_count s.
Proof.
  assert (Hw : forall w, forallb is_white_space w = true -> List.filter is_digit w = []).
  { induction w as [|c w IH]; simpl; [reflexivity |]. intros H.
    apply andb_true_iff in H as [Hc Hw].
    destruct (is_digit c) eqn:E; [| now apply IH].
    apply digit_not_white_space in E. congruence. }
  intros H1 H2. unfold digit_count.
  rewrite !List.filter_app, (Hw w1 H1), (Hw w2 H2), app_nil_r. reflexivity.
Qed.

End StringFacts.

(** ** The helpers as state transformers *)

Section Helpers.

Lemma insert_is_alter {A} (g : A -> A) (n : string) (m : gmap string A) :
  match m !! n with Some f => <[n := g f]> m | None => m end = alter g n m.
Proof.
  destruct (m !! n) as [f|] eqn:E; apply map_eq; intros k;
    rewrite ?lookup_insert, lookup_alter; case_decide; subst; rewrite ?E; done.
Qed.

Lemma marked n upd msg s :
  (let s1 :=
     match fields s !! n with
     | Some field => set_fields (<[n := set_classList (upd (classList field)) field]> (fields s)) s
     | None => s
     end in
   match errorElements s1 !! n with
   | Some _ => set_errorElements (<[n := {| textContent := msg |}]> (errorElements s1)) s1
   | None => s1
   end) = mark n upd msg s.
Proof.
  unfold mark.
  rewrite <- (insert_is_alter (fun f => set_classList (upd (classList f)) f)).
  rewrite <- (insert_is_alter (fun _ => {| textContent := msg |})).
  destruct s as [fm fs fl er tm sc fo]; simpl.
  destruct (fl !! n); simpl; destruct (er !! n); reflexivity.
Qed.

Lemma showError_eq n msg s : showError n msg s = Normal tt (mark n to_error msg s).
Proof. unfold showError. f_equal. apply (marked n to_error). Qed.

Lemma clearError_eq n s : clearError n s = Normal tt (mark n to_neutral [] s).
Proof. unfold clearError. f_equal. apply (marked n to_neutral). Qed.

Lemma showSuccess_field_eq n s :
  showSuccess_field n s = Normal tt (mark n to_success [] s).
Proof. unfold showSuccess_field. f_equal. apply (marked n to_success). Qed.

(** The [showSuccess] that calls reach ignores its arguments: it shows the
    success view and starts the reset timer. *)
Lemma showSuccess_eq args s :
  present (form s) = true -> present (formSuccess s) = true ->
  showSuccess args s = Normal tt (success_view s).
Proof.
  destruct s as [[fm|] [fs|] fl er tm sc fo]; simpl; try discriminate.
  intros _ _. reflexivity.
Qed.

Lemma showSuccess_throws args s :
  form s = None \/ formSuccess s = None -> result_of (showSuccess args s) = None.
Proof.
  destruct s as [[fm|] [fs|] fl er tm sc fo]; simpl; intros [H|H];
    try discriminate; reflexivity.
Qed.

Lemma present_alter {A} (g : A -> A) n (m : gmap string A) k :
  present (alter g n m !! k) = present (m !! k).
Proof. rewrite lookup_alter. case_decide; subst; destruct (m !! k); reflexivity. Qed.

Lemma all_present_mark n upd msg s : all_present (mark n upd msg s) = all_present s.
Proof.
  unfold all_present, mark; simpl. now rewrite !present_alter.
Qed.

Lemma all_present_success_view s :
  all_present s = true -> all_present (success_view s) = true.
Proof.
  unfold all_present; simpl. rewrite !andb_true_iff. intros [_ H]. auto.
Qed.

Lemma fieldValue_mark n upd msg s k : fieldValue k (mark n upd msg s) = fieldValue k s.
Proof.
  unfold fieldValue, mark; simpl. rewrite lookup_alter.
  case_decide; subst; destruct (fields s !! k); reflexivity.
Qed.

Lemma fieldChecked_mark n upd msg s k :
  fieldChecked k (mark n upd msg s) = fieldChecked k s.
Proof.
  unfold fieldChecked, mark; simpl. rewrite lookup_alter.
  case_decide; subst; destruct (fields s !! k); reflexivity.
Qed.

Lemma outcome_mark n upd msg s k : outcome k (mark n upd msg s) = outcome k s.
Proof. unfold outcome. now rewrite !fieldValue_mark, fieldChecked_mark. Qed.

Lemma outcome_success_view s k : outcome k (success_view s) = outcome k s.
Proof. reflexivity. Qed.

Lemma errorText_mark n upd msg s k :
  errorText k (mark n upd msg s)
  = if decide (n = k) then (fun _ => msg) <$> errorText k s else errorText k s.
Proof.
  unfold errorText, mark; simpl. rewrite lookup_alter.
  case_decide; subst; destruct (errorElements s !! k); reflexivity.
Qed.

Lemma classes_mark n upd msg s k :
  classes k (mark n upd msg s)
  = if decide (n = k) then upd <$> classes k s else classes k s.
Proof.
  unfold classes, mark; simpl. rewrite lookup_alter.
  case_decide; subst; destruct (fields s !! k); reflexivity.
Qed.

Lemma contains_add tok t l :
  contains t (classList_add tok l) = String.eqb t tok || contains t l.
Proof.
  unfold classList_add, contains.
  destruct (existsb (String.eqb tok) l) eqn:E.
  - destruct (String.eqb t tok) eqn:Et; [| reflexivity].
    apply String.eqb_eq in Et as ->. now rewrite E.
  - rewrite existsb_app. simpl. rewrite orb_false_r. apply orb_comm.
Qed.

Lemma contains_remove toks t l :
  contains t (classList_remove toks l) = negb (contains t toks) && contains t l.
Proof.
  unfold classList_remove. induction l as [|x l IH]; simpl.
  - now rewrite andb_false_r.
  - destruct (contains x toks) eqn:Ex; simpl; rewrite IH.
    + destruct (String.eqb t x) eqn:Et; [| reflexivity].
      apply String.eqb_eq in Et as ->. rewrite Ex. reflexivity.
    + destruct (String.eqb t x) eqn:Et; [| reflexivity].
      apply String.eqb_eq in Et as ->. rewrite Ex. reflexivity.
Qed.

Lemma visual_to_error cl : visual_of (to_error cl) = ShowsError.
Proof.
  unfold visual_of, to_error. rewrite !contains_remove, !contains_add. simpl.
  reflexivity.
Qed.

Lemma visual_to_neutral cl : visual_of (to_neutral cl) = Unvalidated.
Proof. unfold visual_of, to_neutral. rewrite !contains_remove. reflexivity. Qed.

Lemma visual_to_success cl : visual_of (to_success cl) = ShowsSuccess.
Proof.
  unfold visual_of, to_success. rewrite !contains_remove, !contains_add. simpl.
  reflexivity.
Qed.

End Helpers.

(** ** The validators, one by one *)

Section Validators.

Variable s : FormValidator.
Hypothesis Hpresent : all_present s = true.

Lemma getField_run {A} n f (k : InputElement -> M A) :
  fields s !! n = Some f -> (getField n ≫= k) s = k f s.
Proof. intros E. unfold mbind, M_bind, getField. now rewrite E. Qed.

Lemma report_run n msg :
  (showError n msg;; mret false) s = Normal false (mark n to_error msg s).
Proof. unfold mbind, M_bind. now rewrite showError_eq. Qed.

Lemma clear_run n :
  (clearError n;; mret true) s = Normal true (mark n to_neutral [] s).
Proof. unfold mbind, M_bind. now rewrite clearError_eq. Qed.

Lemma success_run args :
  (showSuccess args;; mret true) s = Normal true (success_view s).
Proof.
  unfold mbind, M_bind. rewrite showSuccess_eq; [reflexivity | |];
    unfold all_present in Hpresent; rewrite !andb_true_iff in Hpresent; tauto.
Qed.

Lemma field_present n : In n field_names -> exists f, fields s !! n = Some f.
Proof.
  intros Hin. unfold all_present in Hpresent.
  apply andb_true_iff in Hpresent as [_ H].
  rewrite forallb_forall in H. specialize (H n Hin).
  apply andb_true_iff in H as [H _].
  destruct (fields s !! n); [eauto | discriminate].
Qed.

Lemma error_present n : In n field_names -> exists e, errorElements s !! n = Some e.
Proof.
  intros Hin. unfold all_present in Hpresent.
  apply andb_true_iff in Hpresent as [_ H].
  rewrite forallb_forall in H. specialize (H n Hin).
  apply andb_true_iff in H as [_ H].
  destruct (errorElements s !! n); [eauto | discriminate].
Qed.

Ltac field n f E :=
  destruct (field_present n) as [f E]; [simpl; tauto |].

Ltac settle_with :=
  unfold settle, outcome, fieldValue, fieldChecked;
  repeat match goal with E : fields s !! _ = Some _ |- _ => rewrite !E end;
  cbn [String.eqb Ascii.eqb Bool.eqb andb fmap option_fmap option_map default
       from_option id].

Ltac finish :=
  cbn [is_valid negb andb is_empty];
  rewrite ?report_run, ?success_run, ?clear_run; reflexivity.

Lemma validateFullName_run :
  validateFullName s = Normal (is_valid (outcome "fullName" s)) (settle "fullName" s).
Proof.
  field "fullName" f E. unfold validateFullName. rewrite (getField_run _ f _ E).
  settle_with. unfold outcome_fullName, nameRegex. cbv zeta. rewrite test_plus_class.
  destruct (is_empty (trim (value f))); [finish |].
  destruct (length (trim (value f)) <? 2)%nat; [finish |].
  destruct (forallb is_name_char (trim (value f))); finish.
Qed.

Lemma validateEmail_run :
  validateEmail s = Normal (is_valid (outcome "email" s)) (settle "email" s).
Proof.
  field "email" f E. unfold validateEmail. rewrite (getField_run _ f _ E).
  settle_with. unfold outcome_email. cbv zeta.
  destruct (is_empty (trim (value f))); [finish |].
  destruct (test emailRegex (trim (value f))); finish.
Qed.

Lemma validatePassword_run :
  validatePassword s = Normal (is_valid (outcome "password" s)) (settle "password" s).
Proof.
  field "password" f E. unfold validatePassword. rewrite (getField_run _ f _ E).
  settle_with. unfold outcome_password, upperRegex, lowerRegex, digitRegex, specialRegex.
  cbv zeta. rewrite !test_search_class.
  destruct (is_empty (value f)); [finish |].
  destruct (length (value f) <? 8)%nat; [finish |].
  destruct (existsb is_upper (value f)); [| finish].
  destruct (existsb is_lower (value f)); [| finish].
  destruct (existsb is_digit (value f)); [| finish].
  destruct (existsb is_special (value f)); finish.
Qed.

Lemma validateConfirmPassword_run :
  validateConfirmPassword s
  = Normal (is_valid (outcome "confirmPassword" s)) (settle "confirmPassword" s).
Proof.
  field "confirmPassword" f E. field "password" g G.
  unfold validateConfirmPassword.
  rewrite (getField_run _ f _ E), (getField_run _ g _ G).
  settle_with. unfold outcome_confirmPassword, strict_equal. cbv zeta.
  destruct (is_empty (value f)); [finish |].
  destruct (bool_decide (value f = value g)); finish.
Qed.

Lemma validateAge_run :
  validateAge s = Normal (is_valid (outcome "age" s)) (settle "age" s).
Proof.
  field "age" f E. unfold validateAge. rewrite (getField_run _ f _ E).
  settle_with. unfold outcome_age. cbv zeta.
  destruct (is_empty (value f)); [finish |].
  destruct (parseInt (value f)) as [n|]; [| finish].
  destruct (n <? 13)%Z; [finish |].
  rewrite Z.gtb_ltb. destruct (120 <? n)%Z; finish.
Qed.

Lemma validatePhone_run :
  validatePhone s = Normal (is_valid (outcome "phone" s)) (settle "phone" s).
Proof.
  field "phone" f E. unfold validatePhone. rewrite (getField_run _ f _ E).
  settle_with. unfold outcome_phone. cbv zeta. rewrite remove_non_digits.
  destruct (is_empty (trim (value f))); [finish |].
  destruct (digit_count (trim (value f)) <? 10)%nat; [finish |].
  destruct (15 <? digit_count (trim (value f)))%nat; finish.
Qed.

Lemma validateTerms_run :
  validateTerms s = Normal (is_valid (outcome "terms" s)) (settle "terms" s).
Proof.
  field "terms" f E. unfold validateTerms. rewrite (getField_run _ f _ E).
  settle_with. unfold outcome_terms. cbv zeta.
  destruct (checked f); finish.
Qed.

(** Every validator returns the outcome of its rule and leaves the state
    [settle] describes. *)
Lemma validator_run name validate :
  In (name, validate) validators ->
  validate s = Normal (is_valid (outcome name s)) (settle name s).
Proof.
  unfold validators. simpl. intros H.
  repeat (destruct H as [H|H]; [injection H as <- <- |]); try contradiction.
  - apply validateFullName_run.
  - apply validateEmail_run.
  - apply validatePassword_run.
  - apply validateConfirmPassword_run.
  - apply validateAge_run.
  - apply validatePhone_run.
  - apply validateTerms_run.
Qed.

End Validators.

(** ** What a validator leaves alone *)

Section Settle.

Lemma all_present_settle n s : all_present s = true -> all_present (settle n s) = true.
Proof.
  intros H. unfold settle.
  destruct (outcome n s); repeat case_match;
    rewrite ?all_present_mark; auto using all_present_success_view.
Qed.

Lemma outcome_settle n s k : outcome k (settle n s) = outcome k s.
Proof.
  unfold settle.
  destruct (outcome n s); repeat case_match;
    rewrite ?outcome_mark, ?outcome_success_view; reflexivity.
Qed.

Lemma errorText_settle_ne n s k : n <> k -> errorText k (settle n s) = errorText k s.
Proof.
  intros Hne. unfold settle.
  destruct (outcome n s); repeat case_match; rewrite ?errorText_mark;
    try case_decide; try reflexivity; contradiction.
Qed.

Lemma classes_settle_ne n s k : n <> k -> classes k (settle n s) = classes k s.
Proof.
  intros Hne. unfold settle.
  destruct (outcome n s); repeat case_match; rewrite ?classes_mark;
    try case_decide; try reflexivity; contradiction.
Qed.

Lemma errorText_settle_invalid n s m :
  outcome n s = Invalid m ->
  errorText n (settle n s) = (fun _ => m) <$> errorText n s.
Proof.
  intros E. unfold settle. rewrite E, errorText_mark. now case_decide.
Qed.

Lemma classes_settle_invalid n s m :
  outcome n s = Invalid m -> classes n (settle n s) = to_error <$> classes n s.
Proof.
  intros E. unfold settle. rewrite E, classes_mark. now case_decide.
Qed.

Lemma bind_run {A B} (c : M A) (k : A -> M B) s a s' :
  c s = Normal a s' -> (c ≫= k) s = k a s'.
Proof. intros E. unfold mbind, M_bind. now rewrite E. Qed.

(** The state after the seven validators have run in the order of the
    array literal. *)
Lemma validateAllFields_run s :
  all_present s = true ->
  validateAllFields s
  = Normal (forallb (fun n => is_valid (outcome n s)) field_names)
      (fold_left (fun st n => settle n st) field_names s).
Proof.
  intros Hp. unfold validateAllFields.
  pose proof (all_present_settle "fullName" _ Hp) as H1.
  pose proof (all_present_settle "email" _ H1) as H2.
  pose proof (all_present_settle "password" _ H2) as H3.
  pose proof (all_present_settle "confirmPassword" _ H3) as H4.
  pose proof (all_present_settle "age" _ H4) as H5.
  pose proof (all_present_settle "phone" _ H5) as H6.
  rewrite (bind_run _ _ _ _ _ (validateFullName_run _ Hp)).
  rewrite (bind_run _ _ _ _ _ (validateEmail_run _ H1)).
  rewrite (bind_run _ _ _ _ _ (validatePassword_run _ H2)).
  rewrite (bind_run _ _ _ _ _ (validateConfirmPassword_run _ H3)).
  rewrite (bind_run _ _ _ _ _ (validateAge_run _ H4)).
  rewrite (bind_run _ _ _ _ _ (validatePhone_run _ H5)).
  rewrite (bind_run _ _ _ _ _ (validateTerms_run _ H6)).
  rewrite !outcome_settle. cbv zeta. unfold mret, M_ret. simpl forallb. simpl fold_left.
  f_equal. now destruct (is_valid (outcome "fullName" s)),
    (is_valid (outcome "email" s)), (is_valid (outcome "password" s)),
    (is_valid (outcome "confirmPassword" s)), (is_valid (outcome "age" s)),
    (is_valid (outcome "phone" s)), (is_valid (outcome "terms" s)).
Qed.

Lemma all_present_settled names s :
  all_present s = true ->
  all_present (fold_left (fun st n => settle n st) names s) = true.
Proof.
  revert s. induction names as [|n names IH]; simpl; intros s H; [assumption |].
  apply IH. now apply all_present_settle.
Qed.

Lemma outcome_settled names s k :
  outcome k (fold_left (fun st n => settle n st) names s) = outcome k s.
Proof.
  revert s. induction names as [|n names IH]; simpl; intros s; [reflexivity |].
  now rewrite IH, outcome_settle.
Qed.

Lemma errorText_settled_other names s k :
  ~ In k names ->
  errorText k (fold_left (fun st n => settle n st) names s) = errorText k s.
Proof.
  revert s. induction names as [|n names IH]; simpl; intros s H; [reflexivity |].
  rewrite IH by tauto. apply errorText_settle_ne. tauto.
Qed.

(** After a run over names without repetition, the message slot of every
    field whose rule fails holds the message of the rule. *)
Lemma errorText_settled_invalid names s k m :
  List.NoDup names -> In k names -> outcome k s = Invalid m ->
  errorText k (fold_left (fun st n => settle n st) names s)
  = (fun _ => m) <$> errorText k s.
Proof.
  revert s. induction names as [|n names IH]; simpl; intros s Hnd Hin E; [tauto |].
  apply List.NoDup_cons_iff in Hnd as [Hn Hnd].
  destruct Hin as [->|Hin].
  - rewrite errorText_settled_other by assumption.
    now apply errorText_settle_invalid.
  - rewrite IH; [| assumption | assumption | now rewrite outcome_settle].
    rewrite errorText_settle_ne; [reflexivity |]. intros ->. contradiction.
Qed.

Lemma NoDup_field_names : List.NoDup field_names.
Proof.
  unfold field_names.
  repeat (apply List.NoDup_cons; [simpl; intuition discriminate |]).
  apply List.NoDup_nil.
Qed.

(** [validateAllFields] does not stop at the first failure: it returns the
    conjunction of the seven outcomes, and every field whose rule fails has
    its message in its slot afterwards. *)
Lemma validateAllFields_conjunction s :
  all_present s = true ->
  result_of (validateAllFields s)
  = Some (forallb (fun n => is_valid (outcome n s)) field_names)
  /\ forall n m, In n field_names -> outcome n s = Invalid m ->
       errorText n (state_of (validateAllFields s)) = Some m.
Proof.
  intros Hp. rewrite (validateAllFields_run s Hp). split; [reflexivity |].
  intros n m Hin E. cbn [state_of].
  rewrite (errorText_settled_invalid _ _ _ m NoDup_field_names Hin E).
  destruct (error_present s Hp n Hin) as [e He].
  unfold errorText. now rewrite He.
Qed.

End Settle.

(** ** Typing into a field *)

Section Typing.

Lemma all_present_type_value n v s : all_present (type_value n v s) = all_present s.
Proof. unfold all_present, type_value; simpl. now rewrite !present_alter. Qed.

Lemma fieldValue_type_value n v s k :
  fieldValue k (type_value n v s)
  = if decide (n = k) then (if present (fields s !! k) then v else []) else fieldValue k s.
Proof.
  unfold fieldValue, type_value; simpl. rewrite lookup_alter.
  case_decide; subst; destruct (fields s !! k); reflexivity.
Qed.

Lemma fieldValue_typed n v s :
  all_present s = true -> In n field_names -> fieldValue n (type_value n v s) = v.
Proof.
  intros Hp Hin. rewrite fieldValue_type_value. case_decide; [| contradiction].
  destruct (field_present s Hp n Hin) as [f ->]. reflexivity.
Qed.

Lemma fieldValue_type_value_ne n v s k :
  n <> k -> fieldValue k (type_value n v s) = fieldValue k s.
Proof. intros H. rewrite fieldValue_type_value. now case_decide. Qed.

Lemma errorText_type_value n v s k : errorText k (type_value n v s) = errorText k s.
Proof. reflexivity. Qed.

(** The message slot of a field after its validator, whatever the page
    showed before. *)
Lemma errorText_settle n s :
  errorText n (settle n s)
  = match outcome n s with
    | Invalid m => (fun _ => m) <$> errorText n s
    | Valid =>
        if String.eqb n "terms"
           || String.eqb n "phone" && is_empty (trim (fieldValue "phone" s))
        then (fun _ => []) <$> errorText n s
        else errorText n s
    end.
Proof.
  unfold settle. destruct (outcome n s).
  - destruct (String.eqb n "terms"); simpl.
    + rewrite errorText_mark. now case_decide.
    + case_match; [| reflexivity]. rewrite errorText_mark. now case_decide.
  - rewrite errorText_mark. now case_decide.
Qed.

Lemma digit_count_trim_start s : digit_count (trim_start s) = digit_count s.
Proof.
  unfold digit_count. induction s as [|c s IH]; simpl; [reflexivity |].
  destruct (is_white_space c) eqn:E; [| reflexivity].
  rewrite IH. destruct (is_digit c) eqn:D; [| reflexivity].
  apply digit_not_white_space in D. congruence.
Qed.

Lemma digit_count_rev s : digit_count (rev s) = digit_count s.
Proof.
  unfold digit_count. induction s as [|c s IH]; simpl; [reflexivity |].
  rewrite List.filter_app, length_app, IH. simpl.
  destruct (is_digit c); simpl; lia.
Qed.

(** Trimming removes no digit. *)
Lemma digit_count_trim s : digit_count (trim s) = digit_count s.
Proof.
  unfold trim, trim_end.
  now rewrite digit_count_rev, digit_count_trim_start, digit_count_rev,
    digit_count_trim_start.
Qed.

Lemma trim_nil_digit_count s : trim s = [] -> digit_count s = 0%nat.
Proof. intros E. rewrite <- digit_count_trim, E. reflexivity. Qed.

End Typing.

(** ** Resetting the form *)

Section Resetting.

Lemma forEach_clearError names s :
  forEach names clearError s
  = Normal tt (fold_left (fun st n => mark n to_neutral [] st) names s).
Proof.
  revert s. induction names as [|n names IH]; intros s; simpl; [reflexivity |].
  unfold mbind, M_bind. rewrite clearError_eq. apply IH.
Qed.

Lemma resetForm_eq s :
  all_present s = true -> resetForm s = Normal tt (reset_state s).
Proof.
  intros Hp. unfold all_present in Hp.
  apply andb_true_iff in Hp as [Hp _]. apply andb_true_iff in Hp as [Hf Hs].
  unfold resetForm, reset_state.
  set (vals := reset_values s).
  assert (E1 : form_reset s = Normal tt (reset_values s)).
  { unfold form_reset. destruct (form s); [reflexivity | discriminate]. }
  rewrite (bind_run _ _ _ _ _ E1).
  rewrite (bind_run _ _ _ _ _ (forEach_clearError field_names (reset_values s))).
  set (cleared := fold_left _ field_names (reset_values s)).
  assert (Hform : form cleared = form s) by reflexivity.
  assert (Hsucc : formSuccess cleared = formSuccess s) by reflexivity.
  unfold mbind, M_bind, setFormDisplay, setFormSuccessDisplay.
  rewrite Hform. destruct (form s); [| discriminate].
  cbn [formSuccess set_form]. rewrite Hsucc.
  destruct (formSuccess s); [reflexivity | discriminate].
Qed.

Lemma cleared_kept names k s :
  visual k s = Some Unvalidated /\ errorText k s = Some [] ->
  visual k (fold_left (fun st n => mark n to_neutral [] st) names s) = Some Unvalidated
  /\ errorText k (fold_left (fun st n => mark n to_neutral [] st) names s) = Some [].
Proof.
  revert s. induction names as [|n names IH]; simpl; intros s H; [assumption |].
  apply IH. destruct H as [Hv He].
  unfold visual in *. rewrite classes_mark, errorText_mark.
  case_decide; [subst | auto]. rewrite He. split; [| reflexivity].
  destruct (classes k s); [| discriminate]. simpl. now rewrite visual_to_neutral.
Qed.

Lemma cleared_In names k s :
  In k names -> present (fields s !! k) = true -> present (errorElements s !! k) = true ->
  visual k (fold_left (fun st n => mark n to_neutral [] st) names s) = Some Unvalidated
  /\ errorText k (fold_left (fun st n => mark n to_neutral [] st) names s) = Some [].
Proof.
  revert s. induction names as [|n names IH]; simpl; intros s Hin Hf He; [tauto |].
  destruct (decide (n = k)) as [->|Hne].
  - apply cleared_kept. unfold visual. rewrite classes_mark, errorText_mark.
    case_decide; [| contradiction]. unfold classes, errorText.
    destruct (fields s !! k); [| discriminate].
    destruct (errorElements s !! k); [| discriminate].
    simpl. now rewrite visual_to_neutral.
  - destruct Hin as [->|Hin]; [contradiction |].
    apply IH; [assumption | |]; unfold mark; simpl; now rewrite present_alter.
Qed.

Lemma fieldValue_cleared names k s :
  fieldValue k (fold_left (fun st n => mark n to_neutral [] st) names s) = fieldValue k s
  /\ fieldChecked k (fold_left (fun st n => mark n to_neutral [] st) names s)
     = fieldChecked k s.
Proof.
  revert s. induction names as [|n names IH]; simpl; intros s; [auto |].
  destruct (IH (mark n to_neutral [] s)) as [-> ->].
  now rewrite fieldValue_mark, fieldChecked_mark.
Qed.

Lemma all_present_cleared names s :
  all_present (fold_left (fun st n => mark n to_neutral [] st) names s) = all_present s.
Proof.
  revert s. induction names as [|n names IH]; simpl; intros s; [reflexivity |].
  now rewrite IH, all_present_mark.
Qed.

Lemma blank_alter n (upd : list string -> list string) (m : gmap string InputElement) k :
  match alter (fun f => set_classList (upd (classList f)) f) n m !! k with
  | Some f => is_empty (defaultValue f) && negb (defaultChecked f)
  | None => true
  end
  = match m !! k with
    | Some f => is_empty (defaultValue f) && negb (defaultChecked f)
    | None => true
    end.
Proof. rewrite lookup_alter. case_decide; subst; destruct (m !! k); reflexivity. Qed.

Lemma defaults_blank_mark n upd msg s : defaults_blank (mark n upd msg s) = defaults_blank s.
Proof. unfold defaults_blank, mark; simpl. now rewrite !blank_alter. Qed.

Lemma defaults_blank_cleared names s :
  defaults_blank (fold_left (fun st n => mark n to_neutral [] st) names s)
  = defaults_blank s.
Proof.
  revert s. induction names as [|n names IH]; simpl; intros s; [reflexivity |].
  now rewrite IH, defaults_blank_mark.
Qed.

End Resetting.

Section ResetState.

Variable s : FormValidator.
Hypothesis Hpresent : all_present s = true.
Hypothesis Hblank : defaults_blank s = true.

Lemma all_present_vals : all_present (reset_values s) = true.
Proof.
  rewrite <- Hpresent. unfold all_present, reset_values; simpl.
  rewrite !lookup_fmap.
  repeat match goal with |- context [fields s !! ?k] => destruct (fields s !! k) end;
    reflexivity.
Qed.

Lemma defaults_blank_vals : defaults_blank (reset_values s) = true.
Proof.
  rewrite <- Hblank. unfold defaults_blank, reset_values; simpl.
  rewrite !lookup_fmap.
  repeat match goal with |- context [fields s !! ?k] => destruct (fields s !! k) end;
    reflexivity.
Qed.

Lemma vals_blank n :
  In n field_names -> fieldValue n (reset_values s) = [] /\ fieldChecked n (reset_values s) = false.
Proof.
  intros Hin. unfold defaults_blank in Hblank. rewrite forallb_forall in Hblank.
  specialize (Hblank n Hin).
  unfold fieldValue, fieldChecked, reset_values; simpl. rewrite lookup_fmap.
  destruct (fields s !! n) as [f|]; simpl; [| auto].
  apply andb_true_iff in Hblank as [Hv Hc].
  apply is_empty_true in Hv. apply negb_true_iff in Hc. auto.
Qed.

Lemma shown_all_present b1 b2 st :
  all_present st = true ->
  all_present (set_formSuccess (Some b2) (set_form (Some b1) st)) = true.
Proof.
  unfold all_present.
  cbn [form formSuccess fields errorElements set_form set_formSuccess present andb].
  intros H. apply andb_true_iff in H as [_ H]. exact H.
Qed.

Lemma all_present_reset_state : all_present (reset_state s) = true.
Proof.
  unfold reset_state. apply shown_all_present.
  rewrite all_present_cleared. apply all_present_vals.
Qed.

Lemma shown_defaults_blank b1 b2 st :
  defaults_blank (set_formSuccess b2 (set_form b1 st)) = defaults_blank st.
Proof. reflexivity. Qed.

Lemma shown_fieldValue b1 b2 st k :
  fieldValue k (set_formSuccess b2 (set_form b1 st)) = fieldValue k st
  /\ fieldChecked k (set_formSuccess b2 (set_form b1 st)) = fieldChecked k st.
Proof. split; reflexivity. Qed.

Lemma shown_visual b1 b2 st k :
  visual k (set_formSuccess b2 (set_form b1 st)) = visual k st
  /\ errorText k (set_formSuccess b2 (set_form b1 st)) = errorText k st.
Proof. split; reflexivity. Qed.

Lemma shown_timers b1 b2 st : timers (set_formSuccess b2 (set_form b1 st)) = timers st.
Proof. reflexivity. Qed.

Lemma defaults_blank_reset_state : defaults_blank (reset_state s) = true.
Proof.
  unfold reset_state. rewrite shown_defaults_blank, defaults_blank_cleared.
  apply defaults_blank_vals.
Qed.

(** [resetForm] gives back the form as it was first shown. *)
Lemma pristine_reset_state : pristine (reset_state s).
Proof.
  unfold pristine. split.
  - apply List.Forall_forall. intros n Hin.
    destruct (vals_blank n Hin) as [Hv Hc].
    destruct (fieldValue_cleared field_names n (reset_values s)) as [Ev Ec].
    destruct (field_present (reset_values s) all_present_vals n Hin) as [f Hf].
    destruct (error_present (reset_values s) all_present_vals n Hin) as [e He].
    destruct (cleared_In field_names n (reset_values s) Hin) as [Hvis Herr];
      [now rewrite Hf | now rewrite He |].
    unfold reset_state.
    set (cleared := fold_left _ field_names (reset_values s)) in *.
    clearbody cleared.
    destruct (shown_fieldValue (Some {| display := "block" |})
                (Some {| display := "none" |}) cleared n) as [-> ->].
    destruct (shown_visual (Some {| display := "block" |})
                (Some {| display := "none" |}) cleared n) as [-> ->].
    rewrite Ev, Ec, Hv, Hc. auto.
  - unfold reset_state.
    generalize (fold_left (fun st n => mark n to_neutral [] st) field_names
                  (reset_values s)).
    intros st. split; reflexivity.
Qed.

End ResetState.

Section Timers.

Lemma timers_cleared names st :
  timers (fold_left (fun st n => mark n to_neutral [] st) names st) = timers st.
Proof.
  revert st. induction names as [|n names IH]; simpl; intros st; [reflexivity |].
  now rewrite IH.
Qed.

Lemma timers_reset_state s : timers (reset_state s) = timers s.
Proof. unfold reset_state. now rewrite shown_timers, timers_cleared. Qed.

(** Once one reset has run, the form is pristine however many follow. *)
Lemma run_tasks_pristine ts s :
  all_present s = true -> defaults_blank s = true -> ts <> [] ->
  pristine (run_tasks ts s) /\ timers (run_tasks ts s) = timers s.
Proof.
  revert s. induction ts as [|t ts IH]; intros s Hp Hb Hne; [contradiction |].
  cbn [run_tasks]. destruct t as [[] d]. cbn [callback run_callback].
  rewrite (resetForm_eq s Hp). cbn [state_of].
  destruct ts as [|t' ts'].
  - cbn [run_tasks]. split; [now apply pristine_reset_state | apply timers_reset_state].
  - destruct (IH (reset_state s)) as [H1 H2].
    + now apply all_present_reset_state.
    + now apply defaults_blank_reset_state.
    + discriminate.
    + split; [exact H1 |]. rewrite H2. apply timers_reset_state.
Qed.

Lemma defaults_blank_settle n s : defaults_blank s = true -> defaults_blank (settle n s) = true.
Proof.
  intros H. unfold settle.
  destruct (outcome n s); repeat case_match; rewrite ?defaults_blank_mark; exact H.
Qed.

Lemma defaults_blank_settled names s :
  defaults_blank s = true ->
  defaults_blank (fold_left (fun st n => settle n st) names s) = true.
Proof.
  revert s. induction names as [|n names IH]; simpl; intros s H; [assumption |].
  apply IH. now apply defaults_blank_settle.
Qed.

End Timers.

(** * The claims *)

(** ** Submitting well-formed values *)

Section Acceptance.

Variable s : FormValidator.
Hypothesis Hpresent : all_present s = true.
Hypothesis Hshape : valid_shaped s.

Lemma name_char_of_letter_or_space c :
  is_lower c || is_upper c || (c =? 32)%N = true -> is_name_char c = true.
Proof.
  unfold is_name_char. rewrite !orb_true_iff. intros [[H|H]|H]; auto.
  apply N.eqb_eq in H as ->. right. reflexivity.
Qed.

Lemma valid_shaped_outcomes : forall n, In n field_names -> outcome n s = Valid.
Proof.
  destruct Hshape as ((Hn1 & Hn2) & He & (Hp1 & Hp2 & Hp3 & Hp4 & Hp5) & Hc
                      & (a & Ha & Ha1) & Hph & Ht).
  intros n Hin. simpl in Hin.
  repeat (destruct Hin as [<-|Hin]); try contradiction; unfold outcome;
    cbn [String.eqb Ascii.eqb Bool.eqb].
  - unfold outcome_fullName. cbv zeta.
    destruct (trim (fieldValue "fullName" s)) as [|c l] eqn:E; [simpl in Hn1; lia |].
    cbn [is_empty]. apply Nat.ltb_ge in Hn1. rewrite Hn1.
    now rewrite (forallb_impl _ _ _ name_char_of_letter_or_space Hn2).
  - unfold outcome_email. cbv zeta.
    rewrite (trim_id _ (email_no_white_space _ He)), He.
    destruct (fieldValue "email" s); [discriminate | reflexivity].
  - unfold outcome_password. rewrite Hp2, Hp3, Hp4, Hp5.
    apply Nat.ltb_ge in Hp1 as Hp1'. rewrite Hp1'.
    destruct (fieldValue "password" s); [simpl in Hp1; lia | reflexivity].
  - unfold outcome_confirmPassword. rewrite Hc.
    rewrite bool_decide_eq_true_2 by reflexivity.
    destruct (fieldValue "password" s); [simpl in Hp1; lia | reflexivity].
  - unfold outcome_age. rewrite Ha.
    destruct (fieldValue "age" s); [discriminate |]. cbn [is_empty].
    destruct (a <? 13)%Z eqn:E1; [apply Z.ltb_lt in E1; lia |].
    destruct (120 <? a)%Z eqn:E2; [apply Z.ltb_lt in E2; lia | reflexivity].
  - unfold outcome_phone. cbv zeta. rewrite digit_count_trim.
    destruct Hph as [->|[H1 H2]]; [reflexivity |].
    destruct (is_empty _); [reflexivity |].
    apply Nat.ltb_ge in H1. rewrite H1.
    destruct (15 <? _)%nat eqn:E; [apply Nat.ltb_lt in E; lia | reflexivity].
  - unfold outcome_terms. now rewrite Ht.
Qed.

(** Well-formed values are accepted. *)
Lemma validateAllFields_accepts : result_of (validateAllFields s) = Some true.
Proof.
  destruct (validateAllFields_conjunction s Hpresent) as [-> _]. f_equal.
  apply forallb_forall. intros n Hin. now rewrite (valid_shaped_outcomes n Hin).
Qed.

(** ... but the messages of the five fields whose validator ends in
    [this.showSuccess(...)] stay as they were. *)
Lemma validateAllFields_keeps_messages n :
  In n ["fullName"; "email"; "password"; "confirmPassword"; "age"] ->
  errorText n (state_of (validateAllFields s)) = errorText n s.
Proof.
  intros Hin. rewrite (validateAllFields_run s Hpresent). cbn [state_of].
  assert (Hin' : In n field_names) by (simpl in *; tauto).
  assert (Hstep : forall st, outcome n st = Valid ->
            errorText n (settle n st) = errorText n st).
  { intros st E. rewrite errorText_settle, E.
    simpl in Hin. repeat (destruct Hin as [<-|Hin]); try contradiction; reflexivity. }
  assert (Hgen : forall names st, outcome n st = Valid ->
            errorText n (fold_left (fun st n => settle n st) names st) = errorText n st).
  { induction names as [|k names IH]; simpl; intros st E; [reflexivity |].
    rewrite IH by now rewrite outcome_settle.
    destruct (decide (k = n)) as [->|Hne]; [now apply Hstep |].
    now apply errorText_settle_ne. }
  apply Hgen. now apply valid_shaped_outcomes.
Qed.

End Acceptance.

Example valid_page_shaped : valid_shaped valid_page.
Proof.
  unfold valid_shaped. cbv zeta.
  split; [split; [vm_compute; lia | vm_compute; reflexivity] |].
  split; [vm_compute; reflexivity |].
  split; [split; [vm_compute; lia | repeat split; vm_compute; reflexivity] |].
  split; [vm_compute; reflexivity |].
  split; [exists 13%Z; split; [vm_compute; reflexivity | lia] |].
  split; [right; vm_compute; lia | vm_compute; reflexivity].
Qed.

(** C1 (the code departs from the claim). On [stale_page] the seven values
    are well formed and the confirmation field still shows the mismatch
    message of an earlier blur. [validateAllFields] returns true, and the
    message is still there afterwards: the [showSuccess] that the validator
    reaches never touches the message slot. *)
Theorem C1_stale_message_after_valid_submit :
  all_present stale_page = true
  /\ Forall (fun n => outcome n stale_page = Valid) field_names
  /\ result_of (validateAllFields stale_page) = Some true
  /\ errorText "confirmPassword" (state_of (validateAllFields stale_page))
     = Some (js "Passwords do not match").
Proof.
  split; [reflexivity |]. split; [repeat constructor |]. split; reflexivity.
Qed.

(** ** All seven validators run *)

(** C2 (the code departs from the claim). The validators do run in the
    order of the array, none is skipped and the result is the conjunction of
    the seven outcomes (see [validateAllFields_run] and
    [validateAllFields_conjunction]). But not every message slot is written:
    on [stale_page_bad_name] the name fails, the confirmation passes, and the
    slot of the confirmation keeps the mismatch message it had before the
    call. *)
Theorem C2_valid_field_slot_not_written :
  all_present stale_page_bad_name = true
  /\ result_of (validateAllFields stale_page_bad_name) = Some false
  /\ errorText "fullName" (state_of (validateAllFields stale_page_bad_name))
     = Some (js "Full name can only contain letters and spaces")
  /\ outcome "confirmPassword" stale_page_bad_name = Valid
  /\ errorText "confirmPassword" stale_page_bad_name = Some (js "Passwords do not match")
  /\ errorText "confirmPassword" (state_of (validateAllFields stale_page_bad_name))
     = Some (js "Passwords do not match").
Proof. repeat split; reflexivity. Qed.

(** ** One validator, one field *)

(** C3, as stated: fails on the terms box. Ticking it makes [validateTerms]
    return true, and the validator then calls [clearError], which leaves the
    field unvalidated, not in the success state. *)
Lemma C3_valid_terms_not_success : ~ valid_shows_success.
Proof.
  intros H.
  destruct (H "terms" validateTerms terms_ticked) as [Hv _].
  - simpl. tauto.
  - reflexivity.
  - reflexivity.
  - vm_compute in Hv. discriminate.
Qed.

Section Frame.

Lemma only_touches_mark n upd msg s : only_touches n s (mark n upd msg s).
Proof.
  unfold only_touches. repeat split; try reflexivity.
  - apply fieldValue_mark.
  - apply fieldChecked_mark.
  - unfold mark; simpl. now rewrite lookup_alter_ne.
  - unfold mark; simpl. now rewrite lookup_alter_ne.
Qed.

Lemma visual_mark n upd msg s f :
  fields s !! n = Some f -> visual n (mark n upd msg s) = Some (visual_of (upd (classList f))).
Proof.
  intros E. unfold visual. rewrite classes_mark. case_decide; [| contradiction].
  unfold classes. now rewrite E.
Qed.

Lemma errorText_marked n upd msg s e :
  errorElements s !! n = Some e -> errorText n (mark n upd msg s) = Some msg.
Proof.
  intros E. rewrite errorText_mark. case_decide; [| contradiction].
  unfold errorText. now rewrite E.
Qed.

End Frame.

(** C3, amended. Each validator returns the outcome of the rule of its own
    field. After an Invalid outcome the field is in the error state, its slot
    holds the message of the rule, and nothing else on the page has changed.
    After a Valid outcome of the terms box, or of a phone field that is empty
    once trimmed, the field is unvalidated, its slot is empty, and nothing
    else on the page has changed. *)
Theorem C3_validator_frame (name : string) (validate : M bool) (s : FormValidator) :
  In (name, validate) validators -> all_present s = true ->
  result_of (validate s) = Some (is_valid (outcome name s))
  /\ (forall m, outcome name s = Invalid m ->
        visual name (state_of (validate s)) = Some ShowsError
        /\ errorText name (state_of (validate s)) = Some m
        /\ only_touches name s (state_of (validate s)))
  /\ (outcome name s = Valid ->
      name = "terms" \/ (name = "phone" /\ trim (fieldValue "phone" s) = []) ->
        visual name (state_of (validate s)) = Some Unvalidated
        /\ errorText name (state_of (validate s)) = Some []
        /\ only_touches name s (state_of (validate s))).
Proof.
  intros Hin Hp. rewrite (validator_run s Hp name validate Hin). cbn [result_of state_of].
  assert (Hn : In name field_names).
  { unfold validators in Hin. simpl in Hin |- *.
    repeat (destruct Hin as [Hin|Hin]; [injection Hin as <- _; tauto |]).
    contradiction. }
  destruct (field_present s Hp name Hn) as [f Hf].
  destruct (error_present s Hp name Hn) as [e He].
  split; [reflexivity |]. split.
  - intros m E. unfold settle. rewrite E.
    rewrite (visual_mark _ _ _ _ f Hf), visual_to_error.
    rewrite (errorText_marked _ _ _ _ e He).
    auto using only_touches_mark.
  - intros E Hwhich. unfold settle. rewrite E.
    assert (Hcond : String.eqb name "terms"
                    || String.eqb name "phone" && is_empty (trim (fieldValue "phone" s))
                    = true).
    { destruct Hwhich as [->|[-> Ht]]; [reflexivity |]. now rewrite Ht. }
    assert (Hstate :
      (if String.eqb name "terms" then mark name to_neutral [] s
       else if String.eqb name "phone" && is_empty (trim (fieldValue "phone" s))
            then mark name to_neutral [] s else success_view s)
      = mark name to_neutral [] s).
    { destruct (String.eqb name "terms"); [reflexivity |].
      simpl in Hcond. now rewrite Hcond. }
    rewrite Hstate.
    rewrite (visual_mark _ _ _ _ f Hf), visual_to_neutral.
    rewrite (errorText_marked _ _ _ _ e He).
    auto using only_touches_mark.
Qed.

Lemma C3_validator_frame_witness :
  result_of (validateTerms terms_ticked) = Some (is_valid (outcome "terms" terms_ticked))
  /\ visual "terms" (state_of (validateTerms terms_ticked)) = Some Unvalidated.
Proof.
  destruct (C3_validator_frame "terms" validateTerms terms_ticked) as (H1 & _ & H3).
  - do 6 right. left. reflexivity.
  - reflexivity.
  - split; [exact H1 |]. apply H3; [reflexivity | now left].
Defined.

(** ** The rules of the single fields *)

Section Rules.

Variable s : FormValidator.
Hypothesis Hpresent : all_present s = true.

Lemma validators_names name validate :
  In (name, validate) validators -> In name field_names.
Proof.
  unfold validators. simpl. intros H.
  repeat (destruct H as [H|H]; [injection H as <- _; tauto |]). contradiction.
Qed.

Lemma validator_result name validate :
  In (name, validate) validators ->
  result_of (validate s) = Some (is_valid (outcome name s)).
Proof. intros Hin. now rewrite (validator_run s Hpresent name validate Hin). Qed.

(** A failing rule makes the validator return false and show the message
    of the rule. *)
Lemma validator_invalid name validate m :
  In (name, validate) validators -> outcome name s = Invalid m ->
  result_of (validate s) = Some false
  /\ errorText name (state_of (validate s)) = Some m.
Proof.
  intros Hin E. rewrite (validator_run s Hpresent name validate Hin).
  cbn [result_of state_of]. rewrite E. split; [reflexivity |].
  rewrite (errorText_settle_invalid _ _ _ E).
  destruct (error_present s Hpresent name (validators_names _ _ Hin)) as [e He].
  unfold errorText. now rewrite He.
Qed.

Lemma validator_true name validate :
  In (name, validate) validators ->
  (result_of (validate s) = Some true <-> outcome name s = Valid).
Proof.
  intros Hin. rewrite (validator_result name validate Hin).
  destruct (outcome name s); simpl; split; intros H; congruence.
Qed.

Lemma outcome_password_eq pw :
  fieldValue "password" s = pw -> outcome "password" s = outcome_password pw.
Proof. intros <-. reflexivity. Qed.

Lemma outcome_age_eq raw :
  fieldValue "age" s = raw -> outcome "age" s = outcome_age raw.
Proof. intros <-. reflexivity. Qed.

Lemma outcome_phone_eq raw :
  fieldValue "phone" s = raw -> outcome "phone" s = outcome_phone raw.
Proof. intros <-. reflexivity. Qed.

Lemma outcome_confirmPassword_eq cp pw :
  fieldValue "confirmPassword" s = cp -> fieldValue "password" s = pw ->
  outcome "confirmPassword" s = outcome_confirmPassword cp pw.
Proof. intros <- <-. reflexivity. Qed.

Lemma In_password : In ("password", validatePassword) validators.
Proof. simpl. tauto. Qed.

Lemma In_confirmPassword : In ("confirmPassword", validateConfirmPassword) validators.
Proof. simpl. tauto. Qed.

Lemma In_age : In ("age", validateAge) validators.
Proof. simpl. tauto. Qed.

Lemma In_phone : In ("phone", validatePhone) validators.
Proof. simpl. tauto. Qed.

Lemma outcome_password_valid pw :
  outcome_password pw = Valid <->
  (8 <= length pw)%nat
  /\ existsb is_upper pw = true /\ existsb is_lower pw = true
  /\ existsb is_digit pw = true /\ existsb is_special pw = true.
Proof.
  unfold outcome_password.
  destruct pw as [|c pw]; [simpl; split; [discriminate | lia] |].
  cbn [is_empty].
  destruct (length (c :: pw) <? 8)%nat eqn:El.
  { apply Nat.ltb_lt in El. split; [discriminate | lia]. }
  apply Nat.ltb_ge in El.
  destruct (existsb is_upper (c :: pw)); cbn [negb]; [| split; [discriminate | intuition congruence]].
  destruct (existsb is_lower (c :: pw)); cbn [negb]; [| split; [discriminate | intuition congruence]].
  destruct (existsb is_digit (c :: pw)); cbn [negb]; [| split; [discriminate | intuition congruence]].
  destruct (existsb is_special (c :: pw)); cbn [negb]; [| split; [discriminate | intuition congruence]].
  intuition congruence.
Qed.

End Rules.

(** C4. [validatePassword] checks, in this order, that the password is not
    empty, has at least 8 code units, holds an uppercase letter, a lowercase
    letter, a digit and a special character; it shows the message of the
    first check that fails, whatever the later ones would say, and returns
    true exactly when none fails. The password [a] gets the length message. *)
Theorem C4_password_first_violation (s : FormValidator) (pw : jsstring) :
  all_present s = true -> fieldValue "password" s = pw ->
  let r := validatePassword s in
  let shown := errorText "password" (state_of r) in
  (pw = [] ->
     result_of r = Some false /\ shown = Some (js "Password is required"))
  /\ (pw <> [] -> (length pw < 8)%nat ->
     result_of r = Some false
     /\ shown = Some (js "Password must be at least 8 characters long"))
  /\ ((8 <= length pw)%nat -> existsb is_upper pw = false ->
     result_of r = Some false
     /\ shown = Some (js "Password must contain at least one uppercase letter"))
  /\ ((8 <= length pw)%nat -> existsb is_upper pw = true ->
      existsb is_lower pw = false ->
     result_of r = Some false
     /\ shown = Some (js "Password must contain at least one lowercase letter"))
  /\ ((8 <= length pw)%nat -> existsb is_upper pw = true ->
      existsb is_lower pw = true -> existsb is_digit pw = false ->
     result_of r = Some false
     /\ shown = Some (js "Password must contain at least one number"))
  /\ ((8 <= length pw)%nat -> existsb is_upper pw = true ->
      existsb is_lower pw = true -> existsb is_digit pw = true ->
      existsb is_special pw = false ->
     result_of r = Some false
     /\ shown = Some (js "Password must contain at least one special character"))
  /\ (result_of r = Some true <->
      (8 <= length pw)%nat
      /\ existsb is_upper pw = true /\ existsb is_lower pw = true
      /\ existsb is_digit pw = true /\ existsb is_special pw = true)
  /\ (pw = js "a" ->
      shown = Some (js "Password must be at least 8 characters long")).
Proof.
  intros Hp Hpw r shown. subst r shown.
  pose proof (outcome_password_eq s pw Hpw) as Ho.
  assert (Hinv : forall m, outcome_password pw = Invalid m ->
            result_of (validatePassword s) = Some false
            /\ errorText "password" (state_of (validatePassword s)) = Some m).
  { intros m E. apply (validator_invalid s Hp "password" _ m In_password). congruence. }
  split; [| split; [| split; [| split; [| split; [| split; [| split]]]]]].
  - intros ->. now apply Hinv.
  - intros Hne Hlen. apply Hinv. unfold outcome_password.
    destruct pw; [contradiction |]. cbn [is_empty].
    apply Nat.ltb_lt in Hlen. now rewrite Hlen.
  - intros Hlen Hu. apply Hinv. unfold outcome_password.
    destruct pw; [simpl in Hlen; lia |]. cbn [is_empty].
    apply Nat.ltb_ge in Hlen. now rewrite Hlen, Hu.
  - intros Hlen Hu Hl. apply Hinv. unfold outcome_password.
    destruct pw; [simpl in Hlen; lia |]. cbn [is_empty].
    apply Nat.ltb_ge in Hlen. now rewrite Hlen, Hu, Hl.
  - intros Hlen Hu Hl Hd. apply Hinv. unfold outcome_password.
    destruct pw; [simpl in Hlen; lia |]. cbn [is_empty].
    apply Nat.ltb_ge in Hlen. now rewrite Hlen, Hu, Hl, Hd.
  - intros Hlen Hu Hl Hd Hs. apply Hinv. unfold outcome_password.
    destruct pw; [simpl in Hlen; lia |]. cbn [is_empty].
    apply Nat.ltb_ge in Hlen. now rewrite Hlen, Hu, Hl, Hd, Hs.
  - rewrite (validator_true s Hp _ _ In_password), Ho.
    apply outcome_password_valid.
  - intros ->. now apply Hinv.
Qed.

Lemma C4_password_first_violation_witness :
  let page := type_value "password" (js "a") initial_page in
  all_present page = true
  /\ fieldValue "password" page = js "a"
  /\ result_of (validatePassword page) = Some false
  /\ errorText "password" (state_of (validatePassword page))
     = Some (js "Password must be at least 8 characters long").
Proof.
  intros page.
  assert (Hp : all_present page = true) by reflexivity.
  assert (Hv : fieldValue "password" page = js "a") by reflexivity.
  pose proof (C4_password_first_violation page (js "a") Hp Hv) as H.
  cbv zeta in H. destruct H as (_ & H & _).
  split; [exact Hp |]. split; [exact Hv |].
  apply H; [discriminate | simpl; lia].
Defined.

(** C5. [validateAge] returns false when the age text is empty, false when
    [parseInt] makes no number of it, false when the number is below 13 or
    above 120, and true otherwise; 13 and 120 pass, 12 and 121 do not. *)
Theorem C5_age_rule (s : FormValidator) (raw : jsstring) :
  all_present s = true -> fieldValue "age" s = raw ->
  let r := result_of (validateAge s) in
  (raw = [] -> r = Some false)
  /\ (parseInt raw = None -> r = Some false)
  /\ (forall n, parseInt raw = Some n -> (n < 13 \/ 120 < n)%Z -> r = Some false)
  /\ (forall n, parseInt raw = Some n -> (13 <= n <= 120)%Z -> r = Some true)
  /\ (raw = js "13" -> r = Some true)
  /\ (raw = js "120" -> r = Some true)
  /\ (raw = js "12" -> r = Some false)
  /\ (raw = js "121" -> r = Some false).
Proof.
  intros Hp Hraw r. subst r.
  rewrite (validator_result s Hp "age" validateAge In_age).
  rewrite (outcome_age_eq s raw Hraw).
  assert (Hlow : forall n, parseInt raw = Some n -> (n < 13 \/ 120 < n)%Z ->
            Some (is_valid (outcome_age raw)) = Some false).
  { intros n E Hn. unfold outcome_age. rewrite E.
    destruct (is_empty raw); [reflexivity |].
    destruct (n <? 13)%Z eqn:E1; [reflexivity |].
    destruct (120 <? n)%Z eqn:E2; [reflexivity |].
    apply Z.ltb_ge in E1, E2. lia. }
  assert (Hok : forall n, parseInt raw = Some n -> (13 <= n <= 120)%Z ->
            Some (is_valid (outcome_age raw)) = Some true).
  { intros n E Hn. unfold outcome_age. rewrite E.
    destruct raw; [discriminate E |]. cbn [is_empty].
    destruct (n <? 13)%Z eqn:E1; [apply Z.ltb_lt in E1; lia |].
    destruct (120 <? n)%Z eqn:E2; [apply Z.ltb_lt in E2; lia | reflexivity]. }
  repeat split.
  - intros ->. reflexivity.
  - intros E. unfold outcome_age. rewrite E. now destruct (is_empty raw).
  - exact Hlow.
  - exact Hok.
  - intros ->. reflexivity.
  - intros ->. reflexivity.
  - intros ->. reflexivity.
  - intros ->. reflexivity.
Qed.

Lemma C5_age_rule_witness :
  let page := type_value "age" (js "13") initial_page in
  all_present page = true
  /\ fieldValue "age" page = js "13"
  /\ result_of (validateAge page) = Some true.
Proof.
  intros page.
  assert (Hp : all_present page = true) by reflexivity.
  assert (Hv : fieldValue "age" page = js "13") by reflexivity.
  pose proof (C5_age_rule page (js "13") Hp Hv) as H.
  cbv zeta in H. destruct H as (_ & _ & _ & _ & H & _).
  split; [exact Hp |]. split; [exact Hv |]. now apply H.
Defined.

(** C6. [validateConfirmPassword] first asks for a confirmation: an empty one
    gets the required message. A confirmation that is not empty and differs
    from the current password gets the mismatch message. The validator
    returns true exactly when the confirmation is given and equals the
    password code unit for code unit. With password [Abcdef1!] and
    confirmation [Abcdef1] the confirmation fails with the mismatch message
    while the password passes. *)
Theorem C6_confirmation_rule (s : FormValidator) (cp pw : jsstring) :
  all_present s = true ->
  fieldValue "confirmPassword" s = cp -> fieldValue "password" s = pw ->
  let r := validateConfirmPassword s in
  let shown := errorText "confirmPassword" (state_of r) in
  (cp = [] ->
     result_of r = Some false /\ shown = Some (js "Please confirm your password"))
  /\ (cp <> [] -> cp <> pw ->
     result_of r = Some false /\ shown = Some (js "Passwords do not match"))
  /\ (result_of r = Some true <-> cp <> [] /\ cp = pw)
  /\ (pw = js "Abcdef1!" -> cp = js "Abcdef1" ->
     result_of r = Some false /\ shown = Some (js "Passwords do not match")
     /\ result_of (validatePassword s) = Some true).
Proof.
  intros Hp Hcp Hpw r shown. subst r shown.
  pose proof (outcome_confirmPassword_eq s cp pw Hcp Hpw) as Ho.
  assert (Hinv : forall m, outcome_confirmPassword cp pw = Invalid m ->
            result_of (validateConfirmPassword s) = Some false
            /\ errorText "confirmPassword" (state_of (validateConfirmPassword s)) = Some m).
  { intros m E. apply (validator_invalid s Hp _ _ m In_confirmPassword). congruence. }
  assert (Hdiff : cp <> [] -> cp <> pw ->
            outcome_confirmPassword cp pw = Invalid (js "Passwords do not match")).
  { intros Hne Hd. unfold outcome_confirmPassword.
    destruct cp; [contradiction |]. cbn [is_empty].
    now rewrite bool_decide_eq_false_2. }
  split; [| split; [| split]].
  - intros ->. now apply Hinv.
  - intros Hne Hd. apply Hinv. now apply Hdiff.
  - rewrite (validator_true s Hp _ _ In_confirmPassword), Ho.
    unfold outcome_confirmPassword. destruct cp as [|c cp].
    + simpl. split; [discriminate | tauto].
    + cbn [is_empty]. destruct (decide (c :: cp = pw)) as [E|E].
      * rewrite bool_decide_eq_true_2 by assumption. simpl. split; auto.
      * rewrite bool_decide_eq_false_2 by assumption. simpl.
        split; [discriminate | tauto].
  - intros -> ->.
    assert (Hd : outcome_confirmPassword (js "Abcdef1") (js "Abcdef1!")
                 = Invalid (js "Passwords do not match")) by reflexivity.
    destruct (Hinv _ Hd) as [H1 H2].
    split; [exact H1 |]. split; [exact H2 |].
    apply (validator_true s Hp _ _ In_password).
    rewrite (outcome_password_eq s _ Hpw). reflexivity.
Qed.

Lemma C6_confirmation_rule_witness :
  let page := type_value "confirmPassword" (js "Abcdef1")
                (type_value "password" (js "Abcdef1!") initial_page) in
  all_present page = true
  /\ fieldValue "confirmPassword" page = js "Abcdef1"
  /\ fieldValue "password" page = js "Abcdef1!"
  /\ result_of (validateConfirmPassword page) = Some false
  /\ errorText "confirmPassword" (state_of (validateConfirmPassword page))
     = Some (js "Passwords do not match")
  /\ result_of (validatePassword page) = Some true.
Proof.
  intros page.
  assert (Hp : all_present page = true) by reflexivity.
  assert (Hc : fieldValue "confirmPassword" page = js "Abcdef1") by reflexivity.
  assert (Hv : fieldValue "password" page = js "Abcdef1!") by reflexivity.
  pose proof (C6_confirmation_rule page _ _ Hp Hc Hv) as H.
  cbv zeta in H. destruct H as (_ & _ & _ & H).
  split; [exact Hp |]. split; [exact Hc |]. split; [exact Hv |].
  now apply H.
Defined.

(** C7, as stated: fails on a phone value made of one space. The value is
    not empty and holds no digit, yet [validatePhone] returns true, because
    it tests the trimmed value for emptiness. *)
Lemma C7_blank_phone_accepted : ~ phone_rule_on_raw_value.
Proof.
  intros H.
  destruct (H (type_value "phone" (js " ") initial_page) (js " ")) as [_ Hne];
    [reflexivity | reflexivity |].
  destruct Hne as [Hiff _]; [discriminate |].
  assert (Hd : (10 <= digit_count (js " ") <= 15)%nat) by (apply Hiff; reflexivity).
  vm_compute in Hd. lia.
Qed.

(** C7, amended. [validatePhone] returns true when the phone value is empty
    once trimmed; otherwise it drops every code unit that is not a digit and
    returns true exactly when between 10 and 15 digits remain. Ten digits
    pass, nine do not. *)
Theorem C7_phone_rule (s : FormValidator) (raw : jsstring) :
  all_present s = true -> fieldValue "phone" s = raw ->
  let r := result_of (validatePhone s) in
  (trim raw = [] -> r = Some true)
  /\ (trim raw <> [] -> (r = Some true <-> (10 <= digit_count raw <= 15)%nat))
  /\ (raw = js "0712345678" -> r = Some true)
  /\ (raw = js "071234567" -> r = Some false).
Proof.
  intros Hp Hraw r. subst r.
  rewrite (validator_result s Hp "phone" validatePhone In_phone).
  rewrite (outcome_phone_eq s raw Hraw).
  split; [| split; [| split]].
  - intros E. unfold outcome_phone. now rewrite E.
  - intros Hne. unfold outcome_phone. cbv zeta. rewrite digit_count_trim.
    destruct (trim raw); [contradiction |]. cbn [is_empty].
    destruct (digit_count raw <? 10)%nat eqn:E1.
    { apply Nat.ltb_lt in E1. simpl. split; [discriminate | lia]. }
    destruct (15 <? digit_count raw)%nat eqn:E2.
    { apply Nat.ltb_lt in E2. simpl. split; [discriminate | lia]. }
    apply Nat.ltb_ge in E1, E2. simpl. split; [lia | reflexivity].
  - intros ->. reflexivity.
  - intros ->. reflexivity.
Qed.

Lemma C7_phone_rule_witness :
  let page := type_value "phone" (js " ") initial_page in
  all_present page = true
  /\ fieldValue "phone" page = js " "
  /\ result_of (validatePhone page) = Some true.
Proof.
  intros page.
  assert (Hp : all_present page = true) by reflexivity.
  assert (Hv : fieldValue "phone" page = js " ") by reflexivity.
  pose proof (C7_phone_rule page (js " ") Hp Hv) as H.
  cbv zeta in H. destruct H as (H & _).
  split; [exact Hp |]. split; [exact Hv |]. now apply H.
Defined.

(** ** Missing elements *)

Section Tolerance.

(** The three helpers that guard their element never throw. *)
Lemma guarded_helpers_never_throw n msg s :
  result_of (showError n msg s) = Some tt
  /\ result_of (clearError n s) = Some tt
  /\ result_of (showSuccess_field n s) = Some tt.
Proof. now rewrite showError_eq, clearError_eq, showSuccess_field_eq. Qed.

(** A validator throws as soon as its own input is missing. *)
Lemma validator_throws name validate s :
  In (name, validate) validators -> fields s !! name = None ->
  validate s = Throw s.
Proof.
  unfold validators. simpl. intros H E.
  repeat (destruct H as [H|H]; [injection H as <- <- |]); try contradiction;
    unfold validateFullName, validateEmail, validatePassword,
      validateConfirmPassword, validateAge, validatePhone, validateTerms,
      mbind, M_bind, getField; now rewrite E.
Qed.

End Tolerance.

(** C8 (the code departs from the claim). [showError] and [clearError] do
    nothing for a missing element (see [guarded_helpers_never_throw]), but
    the validators read [value] or [checked] of their input without a test:
    on a page that lacks the input of a field, the validator of that field
    ends in a TypeError. So does the [showSuccess] that calls reach when the
    form element is missing. *)
Theorem C8_missing_element_throws :
  Forall (fun nv => result_of (snd nv (page_without (fst nv))) = None) validators
  /\ result_of (showSuccess ["fullName"] page_without_form) = None
  /\ result_of (validateFullName page_without_form) = None.
Proof.
  split; [| split; reflexivity].
  repeat constructor.
Qed.

(** ** Submit, success view, reset *)

(** C9. When the seven validators accept, [handleSubmit] shows the success
    view in place of the form and leaves a reset timer of 5000 ms pending.
    Once the pending timers have fired, every field is blank and
    unvalidated, every message is empty, the form is shown again and the
    success view is hidden. The defaults of the inputs are blank, as on the
    page the visitor first sees. *)
Theorem C9_reset_after_submit (s s1 : FormValidator) :
  all_present s = true -> defaults_blank s = true ->
  validateAllFields s = Normal true s1 ->
  let s2 := state_of (handleSubmit s) in
  result_of (handleSubmit s) = Some tt
  /\ form s2 = Some {| display := "none" |}
  /\ formSuccess s2 = Some {| display := "block" |}
  /\ In {| callback := ResetForm; delay := 5000 |} (timers s2)
  /\ pristine (run_timers s2)
  /\ timers (run_timers s2) = [].
Proof.
  intros Hp Hb Hv s2.
  assert (Hs1 : s1 = fold_left (fun st n => settle n st) field_names s).
  { assert (E : state_of (validateAllFields s) = s1) by (rewrite Hv; reflexivity).
    rewrite <- E, (validateAllFields_run s Hp). reflexivity. }
  assert (Hp1 : all_present s1 = true).
  { rewrite Hs1. apply all_present_settled. exact Hp. }
  assert (Hb1 : defaults_blank s1 = true).
  { rewrite Hs1. apply defaults_blank_settled. exact Hb. }
  clear Hs1.
  assert (Hsub : handleSubmit s = Normal tt (success_view s1)).
  { unfold handleSubmit. rewrite (bind_run _ _ _ _ _ Hv).
    apply showSuccess_eq; unfold all_present in Hp1;
      rewrite !andb_true_iff in Hp1; tauto. }
  subst s2. rewrite Hsub. clear Hsub Hv. cbn [result_of state_of].
  split; [reflexivity |]. split; [reflexivity |]. split; [reflexivity |].
  split; [cbn [timers success_view]; apply in_or_app; right; now left |].
  unfold run_timers.
  apply (run_tasks_pristine (timers (success_view s1)) (set_timers [] (success_view s1))).
  - now apply all_present_success_view.
  - exact Hb1.
  - cbn [timers success_view]. destruct (timers s1); discriminate.
Qed.

Lemma C9_reset_after_submit_witness :
  all_present valid_page = true
  /\ defaults_blank valid_page = true
  /\ result_of (validateAllFields valid_page) = Some true
  /\ pristine (run_timers (state_of (handleSubmit valid_page)))
  /\ fields (run_timers (state_of (handleSubmit valid_page))) = fields initial_page
  /\ errorElements (run_timers (state_of (handleSubmit valid_page)))
     = errorElements initial_page.
Proof.
  assert (Hp : all_present valid_page = true) by (vm_compute; reflexivity).
  assert (Hb : defaults_blank valid_page = true) by (vm_compute; reflexivity).
  assert (Hv : validateAllFields valid_page
               = Normal true (state_of (validateAllFields valid_page)))
    by (vm_compute; reflexivity).
  pose proof (C9_reset_after_submit valid_page _ Hp Hb Hv) as H.
  cbv zeta in H. destruct H as (_ & _ & _ & _ & H & _).
  split; [exact Hp |]. split; [exact Hb |]. split; [vm_compute; reflexivity |].
  split; [exact H |]. split; vm_compute; reflexivity.
Defined.

(** ** Raw and trimmed values *)

Section Padding.

Variable s : FormValidator.
Hypothesis Hpresent : all_present s = true.
Variables w1 w2 : jsstring.
Hypothesis Hw1 : forallb is_white_space w1 = true.
Hypothesis Hw2 : forallb is_white_space w2 = true.

Lemma outcome_fullName_pad v : outcome_fullName (w1 ++ v ++ w2) = outcome_fullName v.
Proof. unfold outcome_fullName. now rewrite trim_pad. Qed.

Lemma outcome_email_pad v : outcome_email (w1 ++ v ++ w2) = outcome_email v.
Proof. unfold outcome_email. now rewrite trim_pad. Qed.

Lemma outcome_phone_pad v : outcome_phone (w1 ++ v ++ w2) = outcome_phone v.
Proof. unfold outcome_phone. now rewrite trim_pad. Qed.

Lemma outcome_padded name v :
  In name ["fullName"; "email"; "phone"] ->
  outcome name (type_value name (w1 ++ v ++ w2) s) = outcome name (type_value name v s)
  /\ trim (fieldValue "phone" (type_value name (w1 ++ v ++ w2) s))
     = trim (fieldValue "phone" (type_value name v s)).
Proof.
  simpl. intros H.
  repeat (destruct H as [<-|H]); try contradiction; unfold outcome;
    cbn [String.eqb Ascii.eqb Bool.eqb];
    rewrite ?fieldValue_typed by (assumption || (simpl; tauto));
    rewrite ?fieldValue_type_value_ne by discriminate;
    auto using outcome_fullName_pad, outcome_email_pad, outcome_phone_pad, trim_pad.
Qed.

Lemma outcome_password_pad pw :
  outcome_password (w1 ++ pw ++ w2) = Valid <->
  (8 <= length w1 + length pw + length w2)%nat
  /\ existsb is_upper pw = true /\ existsb is_lower pw = true
  /\ existsb is_digit pw = true /\ existsb is_special pw = true.
Proof.
  rewrite outcome_password_valid.
  rewrite (existsb_pad is_upper w1 pw w2 upper_not_white_space Hw1 Hw2).
  rewrite (existsb_pad is_lower w1 pw w2 lower_not_white_space Hw1 Hw2).
  rewrite (existsb_pad is_digit w1 pw w2 digit_not_white_space Hw1 Hw2).
  rewrite (existsb_pad is_special w1 pw w2 special_not_white_space Hw1 Hw2).
  rewrite !length_app. split; intros (H & H'); (split; [lia | exact H']).
Qed.

End Padding.

Lemma outcome_confirmPassword_valid cp pw :
  outcome_confirmPassword cp pw = Valid <-> cp <> [] /\ cp = pw.
Proof.
  unfold outcome_confirmPassword. destruct cp as [|c cp].
  - simpl. split; [discriminate | tauto].
  - cbn [is_empty]. destruct (decide (c :: cp = pw)) as [E|E].
    + rewrite bool_decide_eq_true_2 by assumption. simpl. split; auto.
    + rewrite bool_decide_eq_false_2 by assumption. simpl.
      split; [discriminate | tauto].
Qed.

(** C10. The password and its confirmation are read as typed: white space
    around the password counts towards the eight code units, and the
    confirmation passes only when it repeats the password with that white
    space. The name, the e-mail address and the phone number are trimmed
    first: white space around them changes neither the result nor the
    message. *)
Theorem C10_raw_and_trimmed (s : FormValidator) (w1 w2 pw cp v : jsstring) :
  all_present s = true ->
  forallb is_white_space w1 = true -> forallb is_white_space w2 = true ->
  let typed := type_value "password" (w1 ++ pw ++ w2) s in
  (result_of (validatePassword typed) = Some true <->
     (8 <= length w1 + length pw + length w2)%nat
     /\ existsb is_upper pw = true /\ existsb is_lower pw = true
     /\ existsb is_digit pw = true /\ existsb is_special pw = true)
  /\ (result_of (validateConfirmPassword (type_value "confirmPassword" cp typed))
      = Some true <-> cp <> [] /\ cp = w1 ++ pw ++ w2)
  /\ (w1 ++ w2 <> [] ->
      result_of (validateConfirmPassword (type_value "confirmPassword" pw typed))
      = Some false)
  /\ (forall name validate,
        In (name, validate)
          [("fullName", validateFullName); ("email", validateEmail);
           ("phone", validatePhone)] ->
        result_of (validate (type_value name (w1 ++ v ++ w2) s))
        = result_of (validate (type_value name v s))
        /\ errorText name (state_of (validate (type_value name (w1 ++ v ++ w2) s)))
           = errorText name (state_of (validate (type_value name v s)))).
Proof.
  intros Hp Hw1 Hw2 typed.
  assert (Hpt : all_present typed = true) by (subst typed; now rewrite all_present_type_value).
  assert (Hvt : fieldValue "password" typed = w1 ++ pw ++ w2).
  { subst typed. apply fieldValue_typed; [assumption | simpl; tauto]. }
  assert (Hconf : forall c,
            outcome "confirmPassword" (type_value "confirmPassword" c typed)
            = outcome_confirmPassword c (w1 ++ pw ++ w2)).
  { intros c. apply outcome_confirmPassword_eq.
    - apply fieldValue_typed; [assumption | simpl; tauto].
    - now rewrite fieldValue_type_value_ne by discriminate. }
  assert (Hpc : forall c, all_present (type_value "confirmPassword" c typed) = true)
    by (intros c; now rewrite all_present_type_value).
  split; [| split; [| split]].
  - rewrite (validator_true typed Hpt _ _ In_password).
    rewrite (outcome_password_eq typed _ Hvt).
    now apply outcome_password_pad.
  - rewrite (validator_true _ (Hpc cp) _ _ In_confirmPassword), Hconf.
    apply outcome_confirmPassword_valid.
  - intros Hpad.
    rewrite (validator_result _ (Hpc pw) _ _ In_confirmPassword), Hconf.
    destruct (outcome_confirmPassword pw (w1 ++ pw ++ w2)) eqn:E; [| reflexivity].
    apply outcome_confirmPassword_valid in E as [_ E].
    apply (f_equal (@length N)) in E. rewrite !length_app in E.
    assert (length (w1 ++ w2) = 0)%nat by (rewrite length_app; lia).
    destruct (w1 ++ w2); [contradiction | discriminate].
  - intros name validate Hin.
    assert (Hin' : In (name, validate) validators).
    { simpl in Hin |- *. intuition. }
    assert (Hn : In name ["fullName"; "email"; "phone"]).
    { simpl in Hin |- *.
      repeat (destruct Hin as [Hin|Hin]; [injection Hin as <- _; tauto |]).
      contradiction. }
    destruct (outcome_padded s Hp w1 w2 Hw1 Hw2 name v Hn) as [Ho Ht].
    assert (Ha : all_present (type_value name (w1 ++ v ++ w2) s) = true)
      by now rewrite all_present_type_value.
    assert (Hb : all_present (type_value name v s) = true)
      by now rewrite all_present_type_value.
    rewrite (validator_run _ Ha name validate Hin').
    rewrite (validator_run _ Hb name validate Hin').
    cbn [result_of state_of]. rewrite Ho. split; [reflexivity |].
    rewrite !errorText_settle, Ho, Ht, !errorText_type_value. reflexivity.
Qed.

Lemma C10_raw_and_trimmed_witness :
  all_present initial_page = true
  /\ forallb is_white_space (js " ") = true
  /\ result_of (validatePassword (type_value "password" (js " Abcd1! ") initial_page))
     = Some true
  /\ result_of (validateConfirmPassword
                  (type_value "confirmPassword" (js "Abcd1!")
                     (type_value "password" (js " Abcd1! ") initial_page)))
     = Some false
  /\ result_of (validateFullName (type_value "fullName" (js " Jo ") initial_page))
     = result_of (validateFullName (type_value "fullName" (js "Jo") initial_page)).
Proof.
  assert (Hp : all_present initial_page = true) by reflexivity.
  assert (Hw : forallb is_white_space (js " ") = true) by reflexivity.
  pose proof (C10_raw_and_trimmed initial_page (js " ") (js " ") (js "Abcd1!")
                (js "Abcd1!") (js "Jo") Hp Hw Hw) as H.
  cbv zeta in H. destruct H as (H1 & _ & H3 & H4).
  split; [exact Hp |]. split; [exact Hw |]. split; [| split].
  - apply H1. split; [vm_compute; lia | repeat split; reflexivity].
  - apply H3. discriminate.
  - apply (H4 "fullName" validateFullName). left. reflexivity.
Defined.

(** * Further properties of the form validator *)

(** ** Validation never edits the form *)

Section KeepsInputs.

Lemma same_inputs_refl s : same_inputs s s.
Proof. intros k. split; reflexivity. Qed.

Lemma same_inputs_trans s1 s2 s3 :
  same_inputs s1 s2 -> same_inputs s2 s3 -> same_inputs s1 s3.
Proof.
  intros H12 H23 k. destruct (H12 k) as [Hv Hc], (H23 k) as [Hv' Hc'].
  split; congruence.
Qed.

Lemma keeps_ret {A} (a : A) : keeps_inputs (mret a).
Proof. intros s. apply same_inputs_refl. Qed.

Lemma keeps_bind {A B} (c : M A) (k : A -> M B) :
  keeps_inputs c -> (forall a, keeps_inputs (k a)) -> keeps_inputs (c ≫= k).
Proof.
  intros Hc Hk s. unfold mbind, M_bind. specialize (Hc s).
  destruct (c s) as [a s'|s']; cbn [state_of] in *; [| exact Hc].
  eapply same_inputs_trans; [exact Hc | apply Hk].
Qed.

Lemma keeps_of_fields {A} (c : M A) :
  (forall s, fields (state_of (c s)) = fields s) -> keeps_inputs c.
Proof. intros H s k. now rewrite H. Qed.

Lemma keeps_getField n : keeps_inputs (getField n).
Proof.
  apply keeps_of_fields. intros s. unfold getField. now destruct (fields s !! n).
Qed.

Lemma same_inputs_mark n upd msg s : same_inputs s (mark n upd msg s).
Proof.
  intros k. unfold mark; simpl. rewrite lookup_alter.
  case_decide; subst; destruct (fields s !! k); split; reflexivity.
Qed.

Lemma keeps_showError n msg : keeps_inputs (showError n msg).
Proof. intros s. rewrite showError_eq. apply same_inputs_mark. Qed.

Lemma keeps_clearError n : keeps_inputs (clearError n).
Proof. intros s. rewrite clearError_eq. apply same_inputs_mark. Qed.

Lemma keeps_showSuccess args : keeps_inputs (showSuccess args).
Proof.
  apply keeps_of_fields. intros s. unfold showSuccess, mbind, M_bind,
    setFormDisplay, setFormSuccessDisplay, scrollFormSuccessIntoView, setTimeout, modify.
  destruct s as [[fm|] [fs|] fl er tm sc fo]; reflexivity.
Qed.

Lemma keeps_showFormErrors : keeps_inputs showFormErrors.
Proof.
  apply keeps_of_fields. intros s. unfold showFormErrors.
  now destruct (firstErrorField s).
Qed.

Ltac keeps :=
  repeat first
    [ apply keeps_ret | apply keeps_getField | apply keeps_showError
    | apply keeps_clearError | apply keeps_showSuccess | apply keeps_showFormErrors
    | apply keeps_bind; [| intros ?]
    | match goal with
      | |- keeps_inputs (if ?c then _ else _) => destruct c
      | |- keeps_inputs (match ?c with Some _ => _ | None => _ end) => destruct c
      end ].

Lemma keeps_validator name validate :
  In (name, validate) validators -> keeps_inputs validate.
Proof.
  unfold validators. simpl. intros H.
  repeat (destruct H as [H|H]; [injection H as <- <- |]); try contradiction;
    unfold validateFullName, validateEmail, validatePassword, validateConfirmPassword,
      validateAge, validatePhone, validateTerms; cbv zeta; keeps.
Qed.

Lemma keeps_validateAllFields : keeps_inputs validateAllFields.
Proof.
  unfold validateAllFields.
  apply keeps_bind; [apply (keeps_validator "fullName"); left; reflexivity | intros ?].
  apply keeps_bind;
    [apply (keeps_validator "email"); right; left; reflexivity | intros ?].
  apply keeps_bind;
    [apply (keeps_validator "password"); do 2 right; left; reflexivity | intros ?].
  apply keeps_bind;
    [apply (keeps_validator "confirmPassword"); do 3 right; left; reflexivity
    | intros ?].
  apply keeps_bind; [apply (keeps_validator "age"); do 4 right; left; reflexivity | intros ?].
  apply keeps_bind;
    [apply (keeps_validator "phone"); do 5 right; left; reflexivity | intros ?].
  apply keeps_bind;
    [apply (keeps_validator "terms"); do 6 right; left; reflexivity | intros ?].
  apply keeps_ret.
Qed.

End KeepsInputs.

(** X1. No validator, nor [validateAllFields], nor [handleSubmit] changes
    the value or the checkedness of any field, whether it completes or ends
    in a TypeError: only [resetForm] edits the form. *)
Theorem validation_keeps_inputs :
  (forall name validate, In (name, validate) validators -> keeps_inputs validate)
  /\ keeps_inputs validateAllFields
  /\ keeps_inputs handleSubmit.
Proof.
  split; [exact keeps_validator |]. split; [exact keeps_validateAllFields |].
  unfold handleSubmit. apply keeps_bind; [exact keeps_validateAllFields |].
  intros [|]; [apply keeps_showSuccess | apply keeps_showFormErrors].
Qed.

(** ** What a passing field does to the page *)

Section SuccessPath.

Lemma fieldValue_settle n s k : fieldValue k (settle n s) = fieldValue k s.
Proof.
  unfold settle. destruct (outcome n s); repeat case_match;
    rewrite ?fieldValue_mark; reflexivity.
Qed.

Lemma reaches_settle n s k :
  reaches_showSuccess k (settle n s) = reaches_showSuccess k s.
Proof. unfold reaches_showSuccess. now rewrite outcome_settle, fieldValue_settle. Qed.

(** A validator either marks its field or, on the success path, runs the
    form-level [showSuccess]. *)
Lemma settle_cases n s :
  settle n s
  = if reaches_showSuccess n s then success_view s
    else match outcome n s with
         | Invalid m => mark n to_error m s
         | Valid => mark n to_neutral [] s
         end.
Proof.
  unfold settle, reaches_showSuccess.
  destruct (outcome n s); cbn [is_valid andb]; [| reflexivity].
  destruct (String.eqb n "terms"); cbn [orb negb]; [reflexivity |].
  destruct (String.eqb n "phone" && is_empty (trim (fieldValue "phone" s)));
    reflexivity.
Qed.

Lemma existsb_reaches_settle n names s :
  existsb (fun k => reaches_showSuccess k (settle n s)) names
  = existsb (fun k => reaches_showSuccess k s) names.
Proof.
  induction names as [|k names IH]; simpl; [reflexivity |].
  now rewrite reaches_settle, IH.
Qed.

Lemma filter_reaches_settle n names s :
  List.filter (fun k => reaches_showSuccess k (settle n s)) names
  = List.filter (fun k => reaches_showSuccess k s) names.
Proof.
  induction names as [|k names IH]; simpl; [reflexivity |].
  now rewrite reaches_settle, IH.
Qed.

Lemma views_settled names s :
  let s' := fold_left (fun st n => settle n st) names s in
  if existsb (fun n => reaches_showSuccess n s) names
  then form s' = Some {| display := "none" |}
       /\ formSuccess s' = Some {| display := "block" |}
  else form s' = form s /\ formSuccess s' = formSuccess s
       /\ scrolledTo s' = scrolledTo s.
Proof.
  revert s. induction names as [|n names IH]; intros s; simpl; [auto |].
  specialize (IH (settle n s)). cbv zeta in IH.
  rewrite existsb_reaches_settle in IH.
  rewrite (settle_cases n s) in IH |- *.
  destruct (reaches_showSuccess n s); cbn [orb].
  - destruct (existsb _ names); [exact IH |].
    destruct IH as (-> & -> & _). split; reflexivity.
  - destruct (existsb _ names); [exact IH |].
    destruct IH as (-> & -> & ->). destruct (outcome n s); repeat split; reflexivity.
Qed.

Lemma timers_settled names s :
  timers (fold_left (fun st n => settle n st) names s)
  = timers s
    ++ repeat reset_timer
         (length (List.filter (fun n => reaches_showSuccess n s) names)).
Proof.
  revert s. induction names as [|n names IH]; intros s; simpl.
  - now rewrite app_nil_r.
  - rewrite IH, filter_reaches_settle, (settle_cases n s).
    destruct (reaches_showSuccess n s).
    + cbn [timers success_view length repeat]. now rewrite <- app_assoc.
    + destruct (outcome n s); reflexivity.
Qed.

Lemma all_valid_reaches s :
  forallb (fun n => is_valid (outcome n s)) field_names = true ->
  existsb (fun n => reaches_showSuccess n s) field_names = true.
Proof.
  intros H. cbn [forallb field_names] in H. apply andb_true_iff in H as [H _].
  cbn [existsb field_names]. unfold reaches_showSuccess at 1. rewrite H.
  reflexivity.
Qed.

End SuccessPath.

Lemma showFormErrors_eq s : showFormErrors s = Normal tt (focus_first_error s).
Proof. unfold showFormErrors, focus_first_error. now destruct (firstErrorField s). Qed.

Lemma views_focus_first_error s :
  form (focus_first_error s) = form s
  /\ formSuccess (focus_first_error s) = formSuccess s
  /\ timers (focus_first_error s) = timers s.
Proof. unfold focus_first_error. now destruct (firstErrorField s). Qed.

Lemma handleSubmit_after s b s1 :
  validateAllFields s = Normal b s1 -> all_present s1 = true ->
  handleSubmit s = Normal tt (if b then success_view s1 else focus_first_error s1).
Proof.
  intros Hv Hp. unfold handleSubmit. rewrite (bind_run _ _ _ _ _ Hv).
  destruct b.
  - apply showSuccess_eq; unfold all_present in Hp;
      rewrite !andb_true_iff in Hp; tauto.
  - apply showFormErrors_eq.
Qed.

(** X2. [handleSubmit] shows the success view in place of the form as soon
    as one field reaches [this.showSuccess(...)] in its validator, that is,
    passes its rule and is neither the terms box nor an empty phone field:
    the other fields may fail and the submission be refused. When no field
    does, the two views are left as they were. *)
Theorem submit_swaps_views_when_a_field_passes (s : FormValidator) :
  all_present s = true ->
  let s' := state_of (handleSubmit s) in
  result_of (handleSubmit s) = Some tt
  /\ (existsb (fun n => reaches_showSuccess n s) field_names = true ->
      form s' = Some {| display := "none" |}
      /\ formSuccess s' = Some {| display := "block" |})
  /\ (existsb (fun n => reaches_showSuccess n s) field_names = false ->
      result_of (validateAllFields s) = Some false
      /\ form s' = form s /\ formSuccess s' = formSuccess s).
Proof.
  intros Hp.
  pose proof (validateAllFields_run s Hp) as Hrun.
  pose proof (views_settled field_names s) as Hviews.
  pose proof (all_present_settled field_names s Hp) as Hp'.
  pose proof (all_valid_reaches s) as Hall.
  cbv zeta in Hviews.
  generalize dependent (fold_left (fun st n => settle n st) field_names s).
  generalize dependent (existsb (fun n => reaches_showSuccess n s) field_names).
  generalize dependent (forallb (fun n => is_valid (outcome n s)) field_names).
  intros b r Hall s1 Hrun Hviews Hp1.
  rewrite (handleSubmit_after s b s1 Hrun Hp1), Hrun. cbv zeta.
  cbn [result_of state_of]. split; [reflexivity |].
  destruct b.
  - rewrite (Hall eq_refl) in *.
    split; [intros _; split; reflexivity | discriminate].
  - destruct (views_focus_first_error s1) as (-> & -> & _).
    destruct r.
    + split; [intros _; exact Hviews | discriminate].
    + split; [discriminate | intros _].
      destruct Hviews as (-> & -> & _). auto.
Qed.

Lemma submit_swaps_views_when_a_field_passes_witness :
  let page := type_value "fullName" (js "Jo Doe") initial_page in
  all_present page = true
  /\ result_of (validateAllFields page) = Some false
  /\ form (state_of (handleSubmit page)) = Some {| display := "none" |}
  /\ formSuccess (state_of (handleSubmit page)) = Some {| display := "block" |}.
Proof.
  intros page.
  assert (Hp : all_present page = true) by (vm_compute; reflexivity).
  pose proof (submit_swaps_views_when_a_field_passes page Hp) as H.
  cbv zeta in H. destruct H as (_ & H & _).
  split; [exact Hp |]. split; [vm_compute; reflexivity |].
  apply H. vm_compute. reflexivity.
Defined.

(** X3. Every field that reaches [this.showSuccess(...)] in its validator
    starts a reset timer of its own: after [validateAllFields] the pending
    timers are those from before followed by one timer of 5000 ms per such
    field, and an accepted submission adds one more. *)
Theorem each_passing_field_starts_a_reset_timer (s : FormValidator) :
  all_present s = true ->
  let passing := List.filter (fun n => reaches_showSuccess n s) field_names in
  timers (state_of (validateAllFields s))
  = timers s ++ repeat reset_timer (length passing)
  /\ (result_of (validateAllFields s) = Some true ->
      timers (state_of (handleSubmit s))
      = timers s ++ repeat reset_timer (length passing) ++ [reset_timer])
  /\ (result_of (validateAllFields s) = Some false ->
      timers (state_of (handleSubmit s))
      = timers s ++ repeat reset_timer (length passing)).
Proof.
  intros Hp.
  pose proof (validateAllFields_run s Hp) as Hrun.
  pose proof (timers_settled field_names s) as Htimers.
  pose proof (all_present_settled field_names s Hp) as Hp'.
  generalize dependent (fold_left (fun st n => settle n st) field_names s).
  generalize dependent (forallb (fun n => is_valid (outcome n s)) field_names).
  intros b s1 Hrun Htimers Hp1. cbv zeta.
  rewrite (handleSubmit_after s b s1 Hrun Hp1), Hrun.
  cbn [result_of state_of]. rewrite <- Htimers.
  split; [reflexivity |]. split; intros E; injection E as ->.
  - cbn [timers success_view]. now rewrite app_assoc, Htimers.
  - now destruct (views_focus_first_error s1) as (_ & _ & ->).
Qed.

Lemma each_passing_field_starts_a_reset_timer_witness :
  all_present valid_page = true
  /\ length (timers (state_of (validateAllFields valid_page))) = 6%nat
  /\ length (timers (state_of (handleSubmit valid_page))) = 7%nat.
Proof.
  assert (Hp : all_present valid_page = true) by (vm_compute; reflexivity).
  pose proof (each_passing_field_starts_a_reset_timer valid_page Hp) as H.
  cbv zeta in H. destruct H as (H1 & H2 & _).
  split; [exact Hp |]. split.
  - rewrite H1. vm_compute. reflexivity.
  - rewrite H2 by (vm_compute; reflexivity). vm_compute. reflexivity.
Defined.

(** ** Typing into a field that shows an error *)



(** ** The helpers and the class list *)

Section ClassList.

Lemma filter_filter_weaker (p q : string -> bool) l :
  (forall x, p x = true -> q x = true) ->
  List.filter p (List.filter q l) = List.filter p l.
Proof.
  intros Hpq. induction l as [|x l IH]; simpl; [reflexivity |].
  destruct (q x) eqn:Eq; simpl; destruct (p x) eqn:Ep; rewrite ?IH; try reflexivity.
  apply Hpq in Ep. congruence.
Qed.

Lemma remove_add_same tok toks l :
  contains tok toks = true ->
  classList_remove toks (classList_add tok l) = classList_remove toks l.
Proof.
  intros H. unfold classList_add, classList_remove.
  destruct (contains tok l); [reflexivity |].
  rewrite List.filter_app. simpl. rewrite H. simpl. apply app_nil_r.
Qed.

Lemma to_neutral_to_error cl : to_neutral (to_error cl) = to_neutral cl.
Proof.
  unfold to_neutral, to_error, classList_remove at 1 2.
  rewrite filter_filter_weaker.
  - apply (remove_add_same "error" ["error"; "success"]). reflexivity.
  - intros x. unfold contains. simpl. destruct (String.eqb x "success"); simpl;
      [now rewrite orb_true_r | reflexivity].
Qed.

Lemma to_neutral_idem cl : to_neutral (to_neutral cl) = to_neutral cl.
Proof. unfold to_neutral, classList_remove. now apply filter_filter_weaker. Qed.

Lemma to_error_idem cl : to_error (to_error cl) = to_error cl.
Proof.
  unfold to_error at 1.
  assert (H : contains "error" (to_error cl) = true).
  { unfold to_error. rewrite contains_remove, contains_add. reflexivity. }
  unfold classList_add. rewrite H. unfold to_error, classList_remove.
  now apply filter_filter_weaker.
Qed.

Lemma mark_mark n f g m m' s :
  mark n f m (mark n g m' s) = mark n (fun cl => f (g cl)) m s.
Proof.
  destruct s as [fm fs fl er tm sc fo]. unfold mark, set_errorElements, set_fields.
  cbn [form formSuccess fields errorElements timers scrolledTo focused].
  f_equal; now rewrite alter_alter_eq.
Qed.

Lemma mark_ext n f g m s : (forall cl, f cl = g cl) -> mark n f m s = mark n g m s.
Proof.
  intros H. destruct s as [fm fs fl er tm sc fo].
  unfold mark, set_errorElements, set_fields.
  cbn [form formSuccess fields errorElements timers scrolledTo focused].
  f_equal. apply alter_ext. intros x _. now rewrite H.
Qed.

Lemma contains_other_to_error t cl :
  t <> "error" -> t <> "success" -> contains t (to_error cl) = contains t cl.
Proof.
  intros H1 H2. unfold to_error. rewrite contains_remove, contains_add.
  apply String.eqb_neq in H1, H2. unfold contains at 1. simpl.
  now rewrite H1, H2.
Qed.

Lemma contains_other_to_neutral t cl :
  t <> "error" -> t <> "success" -> contains t (to_neutral cl) = contains t cl.
Proof.
  intros H1 H2. unfold to_neutral. rewrite contains_remove.
  apply String.eqb_neq in H1, H2. unfold contains at 1. simpl.
  now rewrite H1, H2.
Qed.

End ClassList.

(** X5. Clearing a field after an error has been shown on it leaves the
    page as clearing alone does; showing an error over an error leaves only
    the later message; clearing twice is clearing once. *)
Theorem helpers_compose (n : string) (msg msg' : jsstring) (s : FormValidator) :
  state_of (clearError n (state_of (showError n msg s))) = state_of (clearError n s)
  /\ state_of (showError n msg (state_of (showError n msg' s)))
     = state_of (showError n msg s)
  /\ state_of (clearError n (state_of (clearError n s))) = state_of (clearError n s).
Proof.
  repeat (rewrite ?showError_eq, ?clearError_eq; cbn [state_of]).
  rewrite !mark_mark. repeat split; apply mark_ext; intros cl.
  - apply to_neutral_to_error.
  - apply to_error_idem.
  - apply to_neutral_idem.
Qed.

(** X6. [showError] and [clearError] change two tokens of the class list of
    the field only, [error] and [success]: every other class of the element
    is there afterwards exactly when it was there before. [showError] leaves
    the field with [error] and without [success], [clearError] without
    either, whatever the class list held. *)
Theorem helpers_touch_two_tokens (n : string) (msg : jsstring) (s : FormValidator)
    (f : InputElement) :
  fields s !! n = Some f ->
  visual n (state_of (showError n msg s)) = Some ShowsError
  /\ visual n (state_of (clearError n s)) = Some Unvalidated
  /\ (forall t, t <> "error" -> t <> "success" ->
        contains t <$> classes n (state_of (showError n msg s))
          = Some (contains t (classList f))
        /\ contains t <$> classes n (state_of (clearError n s))
           = Some (contains t (classList f))).
Proof.
  intros Hf. rewrite showError_eq, clearError_eq. cbn [state_of].
  rewrite !(visual_mark _ _ _ _ _ Hf), visual_to_error, visual_to_neutral.
  split; [reflexivity |]. split; [reflexivity |].
  intros t H1 H2. rewrite !classes_mark.
  case_decide; [| contradiction]. unfold classes. rewrite Hf. simpl.
  now rewrite contains_other_to_error, contains_other_to_neutral.
Qed.

Lemma helpers_touch_two_tokens_witness :
  let f := set_classList ["form-control"; "success"] blank_input in
  let page := set_fields (<["email" := f]> (fields initial_page)) initial_page in
  fields page !! "email" = Some f
  /\ classes "email" (state_of (showError "email" (js "Email address is required") page))
     = Some ["form-control"; "error"]
  /\ contains "form-control"
       <$> classes "email"
             (state_of (showError "email" (js "Email address is required") page))
     = Some (contains "form-control" (classList f)).
Proof.
  intros f page.
  assert (Hf : fields page !! "email" = Some f) by (vm_compute; reflexivity).
  pose proof (helpers_touch_two_tokens "email" (js "Email address is required")
                page f Hf) as H.
  destruct H as (_ & _ & H).
  destruct (H "form-control") as [H1 _]; [discriminate | discriminate |].
  split; [exact Hf |]. split; [vm_compute; reflexivity | exact H1].
Defined.

(** ** The rules of the name, the address and the age *)

Section MoreRules.

Lemma email_char_not_at c : is_email_char c = true -> c <> ch "@".
Proof.
  unfold is_email_char. rewrite negb_true_iff, orb_false_iff.
  intros [_ H]. now apply N.eqb_neq in H.
Qed.

Lemma count_at_email_chars l :
  forallb is_email_char l = true -> count_occ N.eq_dec l (ch "@") = 0%nat.
Proof.
  induction l as [|c l IH]; cbn [count_occ forallb]; [reflexivity |].
  intros H. apply andb_true_iff in H as [Hc Hl].
  destruct (N.eq_dec c (ch "@")) as [E|_]; [| now apply IH].
  now apply email_char_not_at in Hc.
Qed.

Lemma outcome_email_valid raw :
  outcome_email raw = Valid <-> test emailRegex (trim raw) = true.
Proof.
  unfold outcome_email. cbv zeta.
  destruct (test emailRegex (trim raw)) eqn:E.
  - destruct (trim raw); [discriminate E | cbn [is_empty negb]; tauto].
  - destruct (is_empty (trim raw)); cbn [negb]; split; discriminate.
Qed.

Lemma outcome_fullName_valid raw :
  outcome_fullName raw = Valid <->
  (2 <= length (trim raw))%nat /\ forallb is_name_char (trim raw) = true.
Proof.
  unfold outcome_fullName. cbv zeta.
  destruct (trim raw) as [|c l] eqn:E; [simpl; split; [discriminate | lia] |].
  cbn [is_empty].
  destruct (length (c :: l) <? 2)%nat eqn:El.
  { apply Nat.ltb_lt in El. split; [discriminate | lia]. }
  apply Nat.ltb_ge in El.
  destruct (forallb is_name_char (c :: l)); cbn [negb];
    split; intuition congruence.
Qed.

Lemma In_fullName : In ("fullName", validateFullName) validators.
Proof. left. reflexivity. Qed.

Lemma In_email : In ("email", validateEmail) validators.
Proof. right. left. reflexivity. Qed.

End MoreRules.

(** X7. [validateEmail] accepts exactly the values that, once trimmed, read
    [a@b.c] with [a], [b] and [c] non-empty and free of white space and of
    [@]; an accepted address therefore holds exactly one [@] and no white
    space, while [b] and [c] may hold further dots. *)
Theorem email_accepted_iff (s : FormValidator) :
  all_present s = true ->
  let v := trim (fieldValue "email" s) in
  (result_of (validateEmail s) = Some true <->
   exists a b c,
     v = a ++ [ch "@"] ++ b ++ [ch "."] ++ c
     /\ (is_empty a = false /\ forallb is_email_char a = true)
     /\ (is_empty b = false /\ forallb is_email_char b = true)
     /\ (is_empty c = false /\ forallb is_email_char c = true))
  /\ (result_of (validateEmail s) = Some true ->
      count_occ N.eq_dec v (ch "@") = 1%nat
      /\ forallb (fun c => negb (is_white_space c)) v = true).
Proof.
  intros Hp v. subst v.
  assert (Hiff : result_of (validateEmail s) = Some true
                 <-> test emailRegex (trim (fieldValue "email" s)) = true).
  { rewrite (validator_true s Hp _ _ In_email). apply outcome_email_valid. }
  split.
  - rewrite Hiff. apply test_emailRegex.
  - intros H. apply Hiff in H. split; [| now apply email_no_white_space].
    apply test_emailRegex in H as (a & b & c & -> & [_ Ha] & [_ Hb] & [_ Hc]).
    rewrite !count_occ_app, (count_at_email_chars a Ha),
      (count_at_email_chars b Hb), (count_at_email_chars c Hc).
    reflexivity.
Qed.

Lemma email_accepted_iff_witness :
  let page := type_value "email" (js " jo@mail.example.com ") initial_page in
  all_present page = true
  /\ result_of (validateEmail page) = Some true
  /\ count_occ N.eq_dec (trim (fieldValue "email" page)) (ch "@") = 1%nat.
Proof.
  intros page.
  assert (Hp : all_present page = true) by (vm_compute; reflexivity).
  assert (Hv : result_of (validateEmail page) = Some true) by (vm_compute; reflexivity).
  pose proof (email_accepted_iff page Hp) as H. cbv zeta in H.
  destruct H as [_ H]. destruct (H Hv) as [H1 _].
  split; [exact Hp |]. split; [exact Hv | exact H1].
Defined.

(** X8. [validateFullName] judges the trimmed value: empty gets the required
    message, a single code unit the length message, a value of two or more
    code units with one that is neither an ASCII letter nor white space the
    letters-and-spaces message; it returns true exactly when the trimmed
    value has two or more code units, all of them ASCII letters or white
    space. *)
Theorem fullName_first_violation (s : FormValidator) (raw : jsstring) :
  all_present s = true -> fieldValue "fullName" s = raw ->
  let r := validateFullName s in
  let shown := errorText "fullName" (state_of r) in
  (trim raw = [] ->
     result_of r = Some false /\ shown = Some (js "Full name is required"))
  /\ (length (trim raw) = 1%nat ->
     result_of r = Some false
     /\ shown = Some (js "Full name must be at least 2 characters"))
  /\ ((2 <= length (trim raw))%nat -> forallb is_name_char (trim raw) = false ->
     result_of r = Some false
     /\ shown = Some (js "Full name can only contain letters and spaces"))
  /\ (result_of r = Some true <->
      (2 <= length (trim raw))%nat /\ forallb is_name_char (trim raw) = true).
Proof.
  intros Hp Hraw r shown. subst r shown.
  assert (Ho : outcome "fullName" s = outcome_fullName raw) by (now rewrite <- Hraw).
  assert (Hinv : forall m, outcome_fullName raw = Invalid m ->
            result_of (validateFullName s) = Some false
            /\ errorText "fullName" (state_of (validateFullName s)) = Some m).
  { intros m E. apply (validator_invalid s Hp "fullName" _ m In_fullName). congruence. }
  split; [| split; [| split]].
  - intros E. apply Hinv. unfold outcome_fullName. now rewrite E.
  - intros E. apply Hinv. unfold outcome_fullName. cbv zeta.
    destruct (trim raw) as [|c [|c' l]]; try discriminate E. reflexivity.
  - intros Hlen Hc. apply Hinv. unfold outcome_fullName. cbv zeta.
    destruct (trim raw) as [|c l] eqn:E; [simpl in Hlen; lia |].
    cbn [is_empty]. apply Nat.ltb_ge in Hlen. now rewrite Hlen, Hc.
  - rewrite (validator_true s Hp _ _ In_fullName), Ho.
    apply outcome_fullName_valid.
Qed.

Lemma fullName_first_violation_witness :
  let page := type_value "fullName" (js " Jo3 ") initial_page in
  all_present page = true
  /\ fieldValue "fullName" page = js " Jo3 "
  /\ result_of (validateFullName page) = Some false
  /\ errorText "fullName" (state_of (validateFullName page))
     = Some (js "Full name can only contain letters and spaces").
Proof.
  intros page.
  assert (Hp : all_present page = true) by (vm_compute; reflexivity).
  assert (Hv : fieldValue "fullName" page = js " Jo3 ") by (vm_compute; reflexivity).
  pose proof (fullName_first_violation page _ Hp Hv) as H. cbv zeta in H.
  destruct H as (_ & _ & H & _).
  split; [exact Hp |]. split; [exact Hv |].
  apply H; [vm_compute; lia | vm_compute; reflexivity].
Defined.

Section LeadingNumber.

Lemma digit_value_10 c :
  digit_value 10 c
  = if is_digit c then Some (Z.of_N c - Z.of_N (ch "0"))%Z else None.
Proof. unfold digit_value. now destruct (is_digit c). Qed.

Lemma digits_prefix_decimal ds t :
  forallb is_digit ds = true ->
  (forall c r, t = c :: r -> is_digit c = false) ->
  digits_prefix 10 (ds ++ t) = map (fun c => Z.of_N c - Z.of_N (ch "0"))%Z ds.
Proof.
  intros Hds Ht. induction ds as [|d ds IH].
  - destruct t as [|c r]; [reflexivity |]. cbn [app digits_prefix map].
    now rewrite digit_value_10, (Ht c r eq_refl).
  - cbn [forallb] in Hds. apply andb_true_iff in Hds as [Hd Hds].
    cbn [app digits_prefix map]. rewrite digit_value_10, Hd. now rewrite IH.
Qed.

Lemma digit_not_sign_or_x c :
  is_digit c = true ->
  (c =? ch "-")%N = false /\ (c =? ch "+")%N = false
  /\ (c =? ch "x")%N = false /\ (c =? ch "X")%N = false.
Proof.
  unfold is_digit, in_range. intros H. apply andb_true_iff in H as [H1 H2].
  apply N.leb_le in H1, H2.
  change (ch "0") with 48%N in *. change (ch "9") with 57%N in *.
  change (ch "-") with 45%N. change (ch "+") with 43%N.
  change (ch "x") with 120%N. change (ch "X") with 88%N.
  rewrite !N.eqb_neq. repeat split; lia.
Qed.

(** [parseInt] reads the leading decimal number and ignores what follows. *)
Lemma parseInt_leading_number ds t :
  ds <> [] -> forallb is_digit ds = true ->
  (forall c r, t = c :: r ->
     is_digit c = false /\ (ds = [ch "0"] -> c <> ch "x" /\ c <> ch "X")) ->
  parseInt (ds ++ t) = Some (decimal ds).
Proof.
  intros Hne Hds Ht.
  assert (Hstop : forall c r, t = c :: r -> is_digit c = false)
    by (intros c r E; now destruct (Ht c r E)).
  pose proof (digits_prefix_decimal ds t Hds Hstop) as Hpre.
  destruct ds as [|d ds]; [contradiction |].
  cbn [forallb] in Hds. apply andb_true_iff in Hds as [Hd Hds].
  destruct (digit_not_sign_or_x d Hd) as (Hminus & Hplus & _ & _).
  unfold parseInt. cbn [app trim_start].
  rewrite (digit_not_white_space d Hd), Hminus, Hplus.
  assert (Hradix :
    match ds ++ t with
    | c1 :: r =>
        if (d =? ch "0")%N && ((c1 =? ch "x")%N || (c1 =? ch "X")%N)
        then (16%Z, r) else (10%Z, d :: ds ++ t)
    | [] => (10%Z, d :: ds ++ t)
    end = (10%Z, d :: ds ++ t)).
  { destruct ds as [|c1 ds'].
    - destruct t as [|c1 r]; [reflexivity |]. cbn [app].
      destruct (Ht c1 r eq_refl) as [_ Hx].
      destruct (d =? ch "0")%N eqn:E0; [| reflexivity].
      apply N.eqb_eq in E0 as ->. destruct (Hx eq_refl) as [Hx1 Hx2].
      apply N.eqb_neq in Hx1, Hx2. now rewrite Hx1, Hx2.
    - cbn [app]. cbn [forallb] in Hds. apply andb_true_iff in Hds as [Hc1 _].
      destruct (digit_not_sign_or_x c1 Hc1) as (_ & _ & -> & ->).
      now rewrite andb_false_r. }
  cbn [app] in Hradix. rewrite Hradix. cbn [app] in Hpre. rewrite Hpre.
  unfold decimal. cbn [map]. now rewrite Z.mul_1_l.
Qed.

End LeadingNumber.



(** * The theme switch *)

Section ThemeFacts.

Import ThemeToggle.

Lemma is_light_light : is_light light = true.
Proof. reflexivity. Qed.

Lemma is_light_dark : is_light dark = false.
Proof. reflexivity. Qed.

Lemma flipped_theme theme :
  (if is_light theme then dark else light) = light
  \/ (if is_light theme then dark else light) = dark.
Proof. destruct (is_light theme); auto. Qed.

Lemma currentTheme_toggleTheme s :
  currentTheme (toggleTheme s) = if is_light (currentTheme s) then dark else light.
Proof. reflexivity. Qed.

Lemma settled_toggleTheme s : settled (toggleTheme s).
Proof.
  unfold settled, toggleTheme. cbn -[is_light light dark moon sun js].
  split; [reflexivity |]. split; [apply lookup_insert_eq |]. split.
  - intros t. destruct (themeIcon s); [| discriminate]. now intros [= <-].
  - intros b. destruct (themeToggle s); [| discriminate]. now intros [= <-].
Qed.

Lemma theme_of_new button icon storage root :
  currentTheme (new button icon storage root) = saved_theme storage
  /\ dataTheme (new button icon storage root) = Some (saved_theme storage).
Proof. split; reflexivity. Qed.

End ThemeFacts.

(** X10. After a click on the theme button the theme is [light] or [dark]
    (the other one if it was one of the two, [light] after anything else),
    and the root attribute, the stored preference, the icon and the label of
    the button all agree with it: the label names the theme a further click
    would give. *)
Theorem theme_toggle_settles (s : ThemeToggle.state) :
  let s' := ThemeToggle.toggleTheme s in
  ThemeToggle.settled s'
  /\ (ThemeToggle.currentTheme s' = ThemeToggle.light
      \/ ThemeToggle.currentTheme s' = ThemeToggle.dark)
  /\ (ThemeToggle.currentTheme s = ThemeToggle.light ->
      ThemeToggle.currentTheme s' = ThemeToggle.dark)
  /\ (ThemeToggle.currentTheme s <> ThemeToggle.light ->
      ThemeToggle.currentTheme s' = ThemeToggle.light).
Proof.
  cbv zeta. split; [apply settled_toggleTheme |].
  rewrite currentTheme_toggleTheme. split; [apply flipped_theme |].
  unfold ThemeToggle.is_light. split.
  - intros E. now rewrite bool_decide_eq_true_2.
  - intros E. now rewrite bool_decide_eq_false_2.
Qed.

(** X11. Once the page agrees with a theme that is [light] or [dark], two
    clicks on the button give back the very same state: theme, attribute,
    icon, label and stored preference. *)
Theorem theme_toggle_twice (s : ThemeToggle.state) :
  ThemeToggle.settled s ->
  ThemeToggle.currentTheme s = ThemeToggle.light
  \/ ThemeToggle.currentTheme s = ThemeToggle.dark ->
  ThemeToggle.toggleTheme (ThemeToggle.toggleTheme s) = s.
Proof.
  intros (Hd & Hst & Hi & Hb) Hth.
  destruct s as [btn icon cur st dt ls]. cbn in Hd, Hst, Hi, Hb, Hth.
  assert (Hback : (if ThemeToggle.is_light
                        (if ThemeToggle.is_light cur then ThemeToggle.dark
                         else ThemeToggle.light)
                   then ThemeToggle.dark else ThemeToggle.light) = cur).
  { destruct Hth as [-> | ->]; reflexivity. }
  unfold ThemeToggle.toggleTheme, ThemeToggle.applyTheme, ThemeToggle.setItem,
    ThemeToggle.set_currentTheme.
  cbn [ThemeToggle.themeToggle ThemeToggle.themeIcon ThemeToggle.currentTheme
       ThemeToggle.localStorage ThemeToggle.dataTheme ThemeToggle.listening].
  rewrite Hback, insert_insert_eq, (insert_id st "theme" cur Hst).
  f_equal.
  - destruct btn as [[lbl]|]; [| reflexivity]. f_equal.
    specialize (Hb _ eq_refl). cbn in Hb. now rewrite Hb.
  - destruct icon as [t|]; [| reflexivity]. now rewrite (Hi t eq_refl).
  - now symmetry.
Qed.

Lemma theme_toggle_twice_witness :
  let s := ThemeToggle.new (Some {| ThemeToggle.ariaLabel := None |}) (Some []) ∅ None in
  let s1 := ThemeToggle.toggleTheme s in
  ThemeToggle.currentTheme s1 = ThemeToggle.dark
  /\ ThemeToggle.toggleTheme (ThemeToggle.toggleTheme s1) = s1.
Proof.
  intros s s1. split; [reflexivity |].
  apply theme_toggle_twice; [apply settled_toggleTheme | right; reflexivity].
Defined.

(** X12. The preference survives a reload: a switch built on the storage
    that a click has written starts with the theme the click gave, and puts
    it on the root element. Without a stored theme, or with an empty one,
    the switch starts with [light]; any other stored string is taken as the
    theme as it stands. *)
Theorem theme_restored_on_load (s : ThemeToggle.state)
    (button : option ThemeToggle.Button) (icon : option jsstring)
    (storage : gmap string jsstring) (root : option jsstring) :
  let reloaded :=
    ThemeToggle.new button icon (ThemeToggle.localStorage (ThemeToggle.toggleTheme s)) root in
  ThemeToggle.currentTheme reloaded = ThemeToggle.currentTheme (ThemeToggle.toggleTheme s)
  /\ ThemeToggle.dataTheme reloaded = Some (ThemeToggle.currentTheme (ThemeToggle.toggleTheme s))
  /\ (storage !! "theme" = None \/ storage !! "theme" = Some [] ->
      ThemeToggle.currentTheme (ThemeToggle.new button icon storage root)
      = ThemeToggle.light)
  /\ (forall v, storage !! "theme" = Some v -> v <> [] ->
      ThemeToggle.currentTheme (ThemeToggle.new button icon storage root) = v
      /\ ThemeToggle.dataTheme (ThemeToggle.new button icon storage root) = Some v).
Proof.
  cbv zeta.
  assert (Hsaved : ThemeToggle.saved_theme
                     (ThemeToggle.localStorage (ThemeToggle.toggleTheme s))
                   = ThemeToggle.currentTheme (ThemeToggle.toggleTheme s)).
  { unfold ThemeToggle.saved_theme.
    destruct (settled_toggleTheme s) as (_ & -> & _).
    rewrite currentTheme_toggleTheme.
    now destruct (ThemeToggle.is_light (ThemeToggle.currentTheme s)). }
  destruct (theme_of_new button icon
              (ThemeToggle.localStorage (ThemeToggle.toggleTheme s)) root) as [-> ->].
  destruct (theme_of_new button icon storage root) as [-> ->].
  rewrite Hsaved. split; [reflexivity |]. split; [reflexivity |]. split.
  - intros [E|E]; unfold ThemeToggle.saved_theme; now rewrite E.
  - intros v E Hv. unfold ThemeToggle.saved_theme. rewrite E.
    destruct v; [contradiction |]. split; reflexivity.
Qed.

(** * The counter *)

Section CounterFacts.

Import CounterGame.

Lemma shows_count_updateDisplay s : shows_count (updateDisplay s).
Proof.
  unfold shows_count, updateDisplay. intros d.
  destruct (counterValue s) as [d0|] eqn:E; cbn [counterValue set_counterValue count].
  - now intros [= <-].
  - now rewrite E.
Qed.

Lemma shows_count_animateCounter s : shows_count s -> shows_count (animateCounter s).
Proof.
  unfold shows_count, animateCounter. intros H d.
  destruct (counterValue s) as [d0|] eqn:E;
    cbn [counterValue set_counterValue setTimeout count].
  - intros [= <-]. cbn [textContent]. now apply H.
  - now rewrite E.
Qed.

Lemma shows_count_writeMessage m s :
  shows_count s -> shows_count (state_of (writeMessage m s)).
Proof. unfold writeMessage. now destruct (counterMessage s). Qed.

Lemma shows_count_setTimeout cb ms s : shows_count s -> shows_count (setTimeout cb ms s).
Proof. auto. Qed.

Lemma shows_count_showMessage s :
  shows_count s -> shows_count (state_of (showMessage s)).
Proof.
  intros H. unfold showMessage, writeMessage, and_then.
  destruct (counterMessage s); [| exact H].
  now destruct (negb (is_empty (message_for (count s))) && _).
Qed.

Lemma shows_count_step s1 :
  shows_count s1 ->
  shows_count
    (state_of (and_then (showMessage s1) (fun s2 => Normal (animateCounter s2)))).
Proof.
  intros H. pose proof (shows_count_showMessage s1 H) as H'.
  destruct (showMessage s1) as [s2|s2]; cbn [and_then state_of] in *; [| exact H'].
  now apply shows_count_animateCounter.
Qed.

Lemma count_showMessage s : count (state_of (showMessage s)) = count s.
Proof.
  unfold showMessage, writeMessage, and_then.
  destruct (counterMessage s); [| reflexivity].
  now destruct (negb (is_empty (message_for (count s))) && _).
Qed.

Lemma count_updateDisplay s : count (updateDisplay s) = count s.
Proof. unfold updateDisplay. now destruct (counterValue s). Qed.

Lemma count_animateCounter s : count (animateCounter s) = count s.
Proof. unfold animateCounter. now destruct (counterValue s). Qed.

Lemma count_step s1 :
  count (state_of (and_then (showMessage s1) (fun s2 => Normal (animateCounter s2))))
  = count s1.
Proof.
  pose proof (count_showMessage s1) as H.
  destruct (showMessage s1) as [s2|s2]; cbn [and_then state_of] in *; [| exact H].
  now rewrite count_animateCounter.
Qed.

Lemma count_increment s : count (state_of (increment s)) = succ (count s).
Proof. unfold increment. cbv zeta. now rewrite count_step, count_updateDisplay. Qed.

Lemma count_decrement s : count (state_of (decrement s)) = pred (count s).
Proof. unfold decrement. cbv zeta. now rewrite count_step, count_updateDisplay. Qed.

Lemma count_reset s : count (state_of (reset s)) = 0%Z.
Proof.
  unfold reset, writeMessage, and_then. cbv zeta.
  destruct (counterMessage (updateDisplay (set_count 0 s))).
  - cbn [state_of setTimeout count]. rewrite count_animateCounter.
    cbn [count set_counterMessage]. now rewrite count_updateDisplay.
  - cbn [state_of]. now rewrite count_updateDisplay.
Qed.

Lemma succ_bounds c : (- limit <= c <= limit)%Z -> (- limit <= succ c <= limit)%Z.
Proof.
  unfold succ. intros H.
  destruct (c =? limit)%Z eqn:E; [exact H |].
  apply Z.eqb_neq in E. lia.
Qed.

Lemma pred_bounds c : (- limit <= c <= limit)%Z -> (- limit <= pred c <= limit)%Z.
Proof.
  unfold pred. intros H.
  destruct (c =? - limit)%Z eqn:E; [exact H |].
  apply Z.eqb_neq in E. lia.
Qed.

Lemma pred_succ c : (c < limit)%Z -> (- limit <= c)%Z -> pred (succ c) = c.
Proof.
  unfold pred, succ. intros H1 H2.
  destruct (c =? limit)%Z eqn:E; [apply Z.eqb_eq in E; lia |].
  destruct (c + 1 =? - limit)%Z eqn:E'; [apply Z.eqb_eq in E'; lia |].
  lia.
Qed.

Lemma succ_pred c : (- limit < c)%Z -> (c <= limit)%Z -> succ (pred c) = c.
Proof.
  unfold pred, succ. intros H1 H2.
  destruct (c =? - limit)%Z eqn:E; [apply Z.eqb_eq in E; lia |].
  destruct (c - 1 =? limit)%Z eqn:E'; [apply Z.eqb_eq in E'; lia |].
  lia.
Qed.

Lemma shows_count_increment s : shows_count (state_of (increment s)).
Proof. apply shows_count_step, shows_count_updateDisplay. Qed.

Lemma shows_count_new display message : shows_count (new display message).
Proof. apply shows_count_updateDisplay. Qed.

End CounterFacts.

(** X13. The display never lags behind the count: after a click on any of
    the three buttons the element that shows the count, when the page has
    one, holds the decimal string of the count, even when the handler ends
    in a TypeError because the message element is missing; so it does on a
    fresh counter, and a timer that fires does not disturb it. *)
Theorem counter_display_shows_count (s : CounterGame.state) :
  CounterGame.shows_count (CounterGame.state_of (CounterGame.increment s))
  /\ CounterGame.shows_count (CounterGame.state_of (CounterGame.decrement s))
  /\ CounterGame.shows_count (CounterGame.state_of (CounterGame.reset s))
  /\ (forall display message,
        CounterGame.shows_count (CounterGame.new display message))
  /\ (forall i, CounterGame.shows_count s ->
        CounterGame.shows_count (CounterGame.fire i s)).
Proof.
  split; [| split; [| split; [| split]]].
  - apply shows_count_step, shows_count_updateDisplay.
  - apply shows_count_step, shows_count_updateDisplay.
  - unfold CounterGame.reset. cbv zeta.
    pose proof (shows_count_updateDisplay (CounterGame.set_count 0 s)) as H.
    apply (shows_count_writeMessage (js "Counter reset!")) in H.
    destruct (CounterGame.writeMessage _ _) as [s2|s2];
      cbn [CounterGame.and_then CounterGame.state_of] in *; [| exact H].
    now apply shows_count_setTimeout, shows_count_animateCounter.
  - intros display message. apply shows_count_updateDisplay.
  - intros i H. unfold CounterGame.fire.
    destruct (CounterGame.timers s !! i) as [[[] d]|]; [| | exact H];
      cbn [CounterGame.callback CounterGame.run_callback].
    + apply shows_count_writeMessage. exact H.
    + unfold CounterGame.shows_count in *. cbn [CounterGame.counterValue].
      destruct (CounterGame.counterValue s) as [d0|] eqn:E;
        cbn [CounterGame.state_of CounterGame.counterValue
             CounterGame.set_counterValue CounterGame.count].
      * intros d' [= <-]. cbn [CounterGame.textContent]. now apply H.
      * intros d' Hd. discriminate Hd.
Qed.

(** X14. The count stays between -2^53 and 2^53, where every integer is a
    number; below 2^53 a click on minus after a click on plus gives back the
    count, and above -2^53 a click on plus after a click on minus. *)
Theorem counter_stays_in_bounds (s : CounterGame.state) :
  CounterGame.in_bounds s ->
  CounterGame.in_bounds (CounterGame.state_of (CounterGame.increment s))
  /\ CounterGame.in_bounds (CounterGame.state_of (CounterGame.decrement s))
  /\ CounterGame.in_bounds (CounterGame.state_of (CounterGame.reset s))
  /\ ((CounterGame.count s < CounterGame.limit)%Z ->
      CounterGame.count
        (CounterGame.state_of
           (CounterGame.decrement (CounterGame.state_of (CounterGame.increment s))))
      = CounterGame.count s)
  /\ ((- CounterGame.limit < CounterGame.count s)%Z ->
      CounterGame.count
        (CounterGame.state_of
           (CounterGame.increment (CounterGame.state_of (CounterGame.decrement s))))
      = CounterGame.count s).
Proof.
  unfold CounterGame.in_bounds. intros H.
  rewrite !count_decrement, !count_increment, count_reset, count_decrement.
  split; [now apply succ_bounds |]. split; [now apply pred_bounds |].
  split; [unfold CounterGame.limit; lia |]. split.
  - intros Hc. apply pred_succ; lia.
  - intros Hc. apply succ_pred; lia.
Qed.

Lemma counter_stays_in_bounds_witness :
  let s := CounterGame.new None (Some []) in
  CounterGame.in_bounds s
  /\ CounterGame.count
       (CounterGame.state_of
          (CounterGame.decrement (CounterGame.state_of (CounterGame.increment s))))
     = 0%Z.
Proof.
  intros s.
  assert (Hb : CounterGame.in_bounds s) by (vm_compute; split; discriminate).
  destruct (counter_stays_in_bounds s Hb) as (_ & _ & _ & H & _).
  split; [exact Hb |]. apply H. reflexivity.
Defined.

(** X15. A fresh counter that has taken [n] clicks on plus holds [n], for
    every [n] up to 2^53, and shows the decimal string of [n] when the page
    has the display element. *)
Theorem counter_counts_clicks (n : nat) (display : option CounterGame.Display)
    (message : option jsstring) :
  (Z.of_nat n <= CounterGame.limit)%Z ->
  let s := Nat.iter n (fun st => CounterGame.state_of (CounterGame.increment st))
             (CounterGame.new display message) in
  CounterGame.count s = Z.of_nat n
  /\ (forall d, CounterGame.counterValue s = Some d ->
        CounterGame.textContent d = number_to_string (Z.of_nat n)).
Proof.
  intros Hn. cbv zeta.
  assert (Hc : CounterGame.count
                 (Nat.iter n (fun st => CounterGame.state_of (CounterGame.increment st))
                    (CounterGame.new display message)) = Z.of_nat n).
  { induction n as [|n IH].
    - change (CounterGame.count (CounterGame.new display message) = 0%Z).
      unfold CounterGame.new. now rewrite count_updateDisplay.
    - rewrite Nat.iter_succ, count_increment, IH by lia.
      unfold CounterGame.succ.
      destruct (Z.of_nat n =? CounterGame.limit)%Z eqn:E;
        [apply Z.eqb_eq in E |]; lia. }
  split; [exact Hc |]. rewrite <- Hc.
  destruct n as [|n].
  - apply shows_count_new.
  - rewrite Nat.iter_succ. apply shows_count_increment.
Qed.

Lemma counter_counts_clicks_witness :
  let s := Nat.iter 12 (fun st => CounterGame.state_of (CounterGame.increment st))
             (CounterGame.new (Some {| CounterGame.textContent := [];
                                       CounterGame.transform := [] |}) (Some [])) in
  (12 <= CounterGame.limit)%Z
  /\ CounterGame.count s = 12%Z
  /\ CounterGame.textContent <$> CounterGame.counterValue s = Some (js "12").
Proof.
  intros s.
  assert (Hn : (Z.of_nat 12 <= CounterGame.limit)%Z) by (vm_compute; discriminate).
  destruct (counter_counts_clicks 12
              (Some {| CounterGame.textContent := []; CounterGame.transform := [] |})
              (Some []) Hn) as [H1 H2].
  split; [exact Hn |]. split; [exact H1 |].
  vm_compute. reflexivity.
Defined.

Section CounterMessages.

Import CounterGame.

(** A timer is started for every message but the empty one and the warning,
    the only one that holds the word it is tested for. *)
Lemma timed_message c :
  negb (is_empty (message_for c)) && negb (includes (message_for c) (js "negative"))
  = milestone c.
Proof.
  unfold message_for, milestone.
  destruct (c =? 10)%Z eqn:E10; [apply Z.eqb_eq in E10; subst c; reflexivity |].
  destruct (c =? 25)%Z eqn:E25; [apply Z.eqb_eq in E25; subst c; reflexivity |].
  destruct (c =? 50)%Z eqn:E50; [apply Z.eqb_eq in E50; subst c; reflexivity |].
  destruct (c =? 100)%Z eqn:E100; [apply Z.eqb_eq in E100; subst c; reflexivity |].
  destruct (c <? 0)%Z eqn:Eneg.
  - apply Z.ltb_lt in Eneg.
    assert (E0 : (c =? 0)%Z = false) by (apply Z.eqb_neq; lia).
    rewrite E0. reflexivity.
  - destruct (c =? 0)%Z; reflexivity.
Qed.

Lemma message_for_empty c :
  message_for c = [] <-> (0 < c)%Z /\ milestone c = false.
Proof.
  unfold message_for, milestone.
  destruct (c =? 10)%Z eqn:E10;
    [apply Z.eqb_eq in E10; subst c; split; [discriminate | intros [_ H]; discriminate H] |].
  destruct (c =? 25)%Z eqn:E25;
    [apply Z.eqb_eq in E25; subst c; split; [discriminate | intros [_ H]; discriminate H] |].
  destruct (c =? 50)%Z eqn:E50;
    [apply Z.eqb_eq in E50; subst c; split; [discriminate | intros [_ H]; discriminate H] |].
  destruct (c =? 100)%Z eqn:E100;
    [apply Z.eqb_eq in E100; subst c; split; [discriminate | intros [_ H]; discriminate H] |].
  destruct (c <? 0)%Z eqn:Eneg.
  - apply Z.ltb_lt in Eneg. split; [discriminate | lia].
  - apply Z.ltb_ge in Eneg. destruct (c =? 0)%Z eqn:E0.
    + split; [discriminate | intros [_ H]; discriminate H].
    + apply Z.eqb_neq in E0. split; [intros _; split; [lia | reflexivity] | reflexivity].
Qed.

(** What a click on plus or minus does once the new count [c] is set and
    shown. *)
Lemma step_with_message s1 m0 :
  counterMessage s1 = Some m0 ->
  let r := and_then (showMessage s1) (fun s2 => Normal (animateCounter s2)) in
  completes r = true
  /\ counterMessage (state_of r) = Some (message_for (count s1))
  /\ timers (state_of r)
     = timers s1
       ++ (if milestone (count s1)
           then [{| callback := ClearMessage; delay := 3000 |}] else [])
       ++ match counterValue s1 with
          | Some _ => [{| callback := ScaleBack; delay := 200 |}]
          | None => []
          end.
Proof.
  intros Hm. cbv zeta. unfold showMessage, writeMessage. cbv zeta.
  rewrite Hm, timed_message. cbn [and_then].
  unfold animateCounter.
  destruct (milestone (count s1)), (counterValue s1) as [d|] eqn:Ed;
    cbn [and_then state_of completes counterValue counterMessage timers
         setTimeout set_counterMessage set_counterValue];
    rewrite ?Ed;
    cbn [and_then state_of completes counterValue counterMessage timers
         setTimeout set_counterMessage set_counterValue];
    rewrite ?app_nil_r, <- ?app_assoc; auto.
Qed.

Lemma step_without_message s1 :
  counterMessage s1 = None ->
  and_then (showMessage s1) (fun s2 => Normal (animateCounter s2)) = Throw s1.
Proof. intros Hm. unfold showMessage, writeMessage. cbv zeta. now rewrite Hm. Qed.

Lemma counterMessage_updateDisplay s :
  counterMessage (updateDisplay s) = counterMessage s.
Proof. unfold updateDisplay. now destruct (counterValue s). Qed.

Lemma timers_updateDisplay s : timers (updateDisplay s) = timers s.
Proof. unfold updateDisplay. now destruct (counterValue s). Qed.

Lemma present_updateDisplay s :
  match counterValue (updateDisplay s) with
  | Some _ => [{| callback := ScaleBack; delay := 200 |}]
  | None => []
  end
  = match counterValue s with
    | Some _ => [{| callback := ScaleBack; delay := 200 |}]
    | None => []
    end.
Proof.
  unfold updateDisplay.
  destruct (counterValue s) eqn:E; cbn [counterValue set_counterValue];
    rewrite ?E; reflexivity.
Qed.

End CounterMessages.

(** X16. With the message element on the page, a click on plus or minus
    completes and shows the message of the new count: one of four
    congratulations at 10, 25, 50 and 100, a notice at 0, a warning below 0,
    and nothing at any other count. A timer of 3000 ms that clears the
    message is started at 0, 10, 25, 50 and 100 and not for the warning; the
    animation adds its timer of 200 ms when the page has the display. *)
Theorem counter_message_policy (s : CounterGame.state) (m0 : jsstring) :
  CounterGame.counterMessage s = Some m0 ->
  let scale := match CounterGame.counterValue s with
               | Some _ => [{| CounterGame.callback := CounterGame.ScaleBack;
                               CounterGame.delay := 200 |}]
               | None => []
               end in
  let clear c := if CounterGame.milestone c
                 then [{| CounterGame.callback := CounterGame.ClearMessage;
                          CounterGame.delay := 3000 |}]
                 else [] in
  let up := CounterGame.increment s in
  let down := CounterGame.decrement s in
  (CounterGame.completes up = true
   /\ CounterGame.counterMessage (CounterGame.state_of up)
      = Some (CounterGame.message_for (CounterGame.succ (CounterGame.count s)))
   /\ CounterGame.timers (CounterGame.state_of up)
      = CounterGame.timers s ++ clear (CounterGame.succ (CounterGame.count s)) ++ scale)
  /\ (CounterGame.completes down = true
      /\ CounterGame.counterMessage (CounterGame.state_of down)
         = Some (CounterGame.message_for (CounterGame.pred (CounterGame.count s)))
      /\ CounterGame.timers (CounterGame.state_of down)
         = CounterGame.timers s ++ clear (CounterGame.pred (CounterGame.count s)) ++ scale)
  /\ (forall c, CounterGame.message_for c = []
                <-> (0 < c)%Z /\ CounterGame.milestone c = false).
Proof.
  intros Hm. cbv zeta.
  assert (Hstep : forall c,
    let s1 := CounterGame.updateDisplay (CounterGame.set_count c s) in
    CounterGame.counterMessage s1 = Some m0
    /\ CounterGame.count s1 = c /\ CounterGame.timers s1 = CounterGame.timers s
    /\ match CounterGame.counterValue s1 with
       | Some _ => [{| CounterGame.callback := CounterGame.ScaleBack;
                       CounterGame.delay := 200 |}]
       | None => []
       end
       = match CounterGame.counterValue s with
         | Some _ => [{| CounterGame.callback := CounterGame.ScaleBack;
                         CounterGame.delay := 200 |}]
         | None => []
         end).
  { intros c. cbv zeta.
    rewrite counterMessage_updateDisplay, count_updateDisplay, timers_updateDisplay,
      present_updateDisplay. auto. }
  split; [| split; [| exact message_for_empty]].
  - destruct (Hstep (CounterGame.succ (CounterGame.count s))) as (H1 & H2 & H3 & H4).
    destruct (step_with_message _ m0 H1) as (Hc & Hmsg & Ht).
    unfold CounterGame.increment. cbv zeta.
    rewrite Hc, Hmsg, Ht, H2, H3, H4. auto.
  - destruct (Hstep (CounterGame.pred (CounterGame.count s))) as (H1 & H2 & H3 & H4).
    destruct (step_with_message _ m0 H1) as (Hc & Hmsg & Ht).
    unfold CounterGame.decrement. cbv zeta.
    rewrite Hc, Hmsg, Ht, H2, H3, H4. auto.
Qed.

Lemma counter_message_policy_witness :
  let s := CounterGame.set_count 9 (CounterGame.new None (Some [])) in
  CounterGame.counterMessage s = Some []
  /\ CounterGame.counterMessage (CounterGame.state_of (CounterGame.increment s))
     = Some (CounterGame.party ++ js " You reached 10! Great job!")
  /\ CounterGame.timers (CounterGame.state_of (CounterGame.increment s))
     = [{| CounterGame.callback := CounterGame.ClearMessage; CounterGame.delay := 3000 |}].
Proof.
  intros s.
  assert (Hm : CounterGame.counterMessage s = Some []) by reflexivity.
  destruct (counter_message_policy s [] Hm) as ((_ & H1 & H2) & _).
  split; [exact Hm |]. split; [exact H1 | exact H2].
Defined.

(** X17. Without the message element a click on plus, on minus or on reset
    ends in a TypeError, but only after the count has changed and the
    display has been brought up to date; the animation is not reached and
    no timer is started. *)
Theorem counter_without_message_element (s : CounterGame.state) :
  CounterGame.counterMessage s = None ->
  CounterGame.increment s
  = CounterGame.Throw
      (CounterGame.updateDisplay
         (CounterGame.set_count (CounterGame.succ (CounterGame.count s)) s))
  /\ CounterGame.decrement s
     = CounterGame.Throw
         (CounterGame.updateDisplay
            (CounterGame.set_count (CounterGame.pred (CounterGame.count s)) s))
  /\ CounterGame.reset s
     = CounterGame.Throw (CounterGame.updateDisplay (CounterGame.set_count 0 s))
  /\ (forall c,
        CounterGame.timers (CounterGame.updateDisplay (CounterGame.set_count c s))
        = CounterGame.timers s
        /\ CounterGame.count (CounterGame.updateDisplay (CounterGame.set_count c s)) = c).
Proof.
  intros Hm.
  assert (Hm' : forall c, CounterGame.counterMessage
                  (CounterGame.updateDisplay (CounterGame.set_count c s)) = None).
  { intros c. now rewrite counterMessage_updateDisplay. }
  split; [| split; [| split]].
  - unfold CounterGame.increment. cbv zeta. apply step_without_message, Hm'.
  - unfold CounterGame.decrement. cbv zeta. apply step_without_message, Hm'.
  - unfold CounterGame.reset, CounterGame.writeMessage. cbv zeta. now rewrite Hm'.
  - intros c. now rewrite timers_updateDisplay, count_updateDisplay.
Qed.

Lemma counter_without_message_element_witness :
  let s := CounterGame.new (Some {| CounterGame.textContent := [];
                                    CounterGame.transform := [] |}) None in
  CounterGame.counterMessage s = None
  /\ CounterGame.completes (CounterGame.increment s) = false
  /\ CounterGame.textContent
       <$> CounterGame.counterValue (CounterGame.state_of (CounterGame.increment s))
     = Some (js "1").
Proof.
  intros s.
  assert (Hm : CounterGame.counterMessage s = None) by reflexivity.
  destruct (counter_without_message_element s Hm) as (H & _).
  split; [exact Hm |]. rewrite H. split; reflexivity.
Defined.

(** X18. A timer outlives the message it was started for. Two clicks on
    minus from 1 leave the count at -1 and the warning on the page; the
    timer that the first click started for the notice at 0 is still pending,
    and when it fires it wipes the warning, which no timer of its own would
    have cleared, while the count stays at -1. *)
Theorem counter_stale_timer_wipes_warning (s : CounterGame.state) (m0 : jsstring) :
  CounterGame.counterMessage s = Some m0 -> CounterGame.count s = 1%Z ->
  let s1 := CounterGame.state_of (CounterGame.decrement s) in
  let s2 := CounterGame.state_of (CounterGame.decrement s1) in
  let i := length (CounterGame.timers s) in
  CounterGame.count s2 = (-1)%Z
  /\ CounterGame.counterMessage s2 = Some (CounterGame.warning ++ js " Going negative!")
  /\ CounterGame.timers s2 !! i
     = Some {| CounterGame.callback := CounterGame.ClearMessage;
               CounterGame.delay := 3000 |}
  /\ CounterGame.counterMessage (CounterGame.fire i s2) = Some []
  /\ CounterGame.count (CounterGame.fire i s2) = (-1)%Z.
Proof.
  intros Hm Hc. cbv zeta.
  set (s1 := CounterGame.state_of (CounterGame.decrement s)).
  assert (Hc1 : CounterGame.count s1 = 0%Z).
  { subst s1. rewrite count_decrement, Hc. reflexivity. }
  assert (Hstep : forall st m c,
            CounterGame.counterMessage st = Some m ->
            CounterGame.pred (CounterGame.count st) = c ->
            CounterGame.counterMessage (CounterGame.state_of (CounterGame.decrement st))
            = Some (CounterGame.message_for c)
            /\ exists rest,
                CounterGame.timers (CounterGame.state_of (CounterGame.decrement st))
                = CounterGame.timers st
                  ++ (if CounterGame.milestone c
                      then [{| CounterGame.callback := CounterGame.ClearMessage;
                               CounterGame.delay := 3000 |}] else [])
                  ++ rest).
  { intros st m c Hst <-.
    assert (H1 : CounterGame.counterMessage
                   (CounterGame.updateDisplay
                      (CounterGame.set_count (CounterGame.pred (CounterGame.count st)) st))
                 = Some m) by now rewrite counterMessage_updateDisplay.
    destruct (step_with_message _ m H1) as (_ & Hmsg & Ht).
    unfold CounterGame.decrement. cbv zeta.
    rewrite Hmsg, Ht, count_updateDisplay, timers_updateDisplay.
    split; [reflexivity | eauto]. }
  destruct (Hstep s m0 0%Z Hm) as (Hm1 & rest1 & Ht1); [now rewrite Hc |].
  fold s1 in Hm1, Ht1.
  destruct (Hstep s1 _ (-1)%Z Hm1) as (Hm2 & rest2 & Ht2); [now rewrite Hc1 |].
  set (s2 := CounterGame.state_of (CounterGame.decrement s1)) in *.
  assert (Hc2 : CounterGame.count s2 = (-1)%Z).
  { subst s2. rewrite count_decrement, Hc1. reflexivity. }
  assert (Hi : CounterGame.timers s2 !! length (CounterGame.timers s)
               = Some {| CounterGame.callback := CounterGame.ClearMessage;
                         CounterGame.delay := 3000 |}).
  { rewrite Ht2, Ht1. cbn [CounterGame.milestone Z.eqb orb app].
    rewrite <- !app_assoc. apply list_lookup_middle. reflexivity. }
  clearbody s2 s1.
  split; [exact Hc2 |]. split; [exact Hm2 |]. split; [exact Hi |].
  unfold CounterGame.fire. rewrite Hi.
  cbn [CounterGame.callback CounterGame.run_callback].
  unfold CounterGame.writeMessage. cbn [CounterGame.counterMessage].
  rewrite Hm2. cbn [CounterGame.state_of]. split; [reflexivity | exact Hc2].
Qed.

Lemma counter_stale_timer_wipes_warning_witness :
  let s := CounterGame.state_of
             (CounterGame.increment (CounterGame.new None (Some []))) in
  CounterGame.counterMessage s = Some []
  /\ CounterGame.count s = 1%Z
  /\ CounterGame.counterMessage
       (CounterGame.fire 0
          (CounterGame.state_of
             (CounterGame.decrement (CounterGame.state_of (CounterGame.decrement s)))))
     = Some [].
Proof.
  intros s.
  assert (Hm : CounterGame.counterMessage s = Some []) by reflexivity.
  assert (Hc : CounterGame.count s = 1%Z) by reflexivity.
  destruct (counter_stale_timer_wipes_warning s [] Hm Hc) as (_ & _ & _ & H & _).
  split; [exact Hm |]. split; [exact Hc |]. exact H.
Defined.

(** * The tabs and the questions *)

Section DomFacts.

Import Dom.

Lemma lookup_with_classes f i (d : list Node) j :
  with_classes f i d !! j = if decide (i = j) then set_classes f <$> d !! j else d !! j.
Proof.
  unfold with_classes. rewrite list_lookup_alter. now case_decide; subst.
Qed.

Lemma attributes_with_classes f i (d : list Node) :
  map attributes (with_classes f i d) = map attributes d.
Proof.
  apply list_eq. intros j.
  change (map attributes) with (fmap (M := list) attributes).
  rewrite !list_lookup_fmap, lookup_with_classes.
  case_decide; [| reflexivity]. now destruct (d !! j).
Qed.

(** Which element an id names depends on the attributes alone. *)
Lemma query_id_attributes (d d' : list Node) v :
  map attributes d = map attributes d' -> query_id d v = query_id d' v.
Proof.
  revert d'. induction d as [|n d IH]; intros [|n' d'] E; try discriminate E;
    [reflexivity |].
  cbn [map] in E. injection E as En Ed.
  unfold query_id in *. cbn [find_index]. unfold getAttribute in *.
  rewrite En, (IH d' Ed). reflexivity.
Qed.

Lemma find_index_lt {A} (p : A -> bool) (l : list A) i :
  find_index p l = Some i -> (i < length l)%nat.
Proof.
  revert i. induction l as [|x l IH]; simpl; intros i; [discriminate |].
  destruct (p x); [intros [= <-]; lia |].
  destruct (find_index p l) as [k|]; simpl; [| discriminate].
  intros [= <-]. specialize (IH k eq_refl). lia.
Qed.

Lemma remove_active_idem (n : Node) :
  set_classes (classList_remove ["active"]) (set_classes (classList_remove ["active"]) n)
  = set_classes (classList_remove ["active"]) n.
Proof.
  unfold set_classes. cbn [attributes classList]. f_equal.
  unfold classList_remove. now apply filter_filter_weaker.
Qed.

Lemma mem_cons i k l : mem i (k :: l) = Nat.eqb i k || mem i l.
Proof. reflexivity. Qed.

Lemma mem_app i l1 l2 : mem i (l1 ++ l2) = mem i l1 || mem i l2.
Proof. unfold mem. apply existsb_app. Qed.

Lemma mem_In i l : mem i l = true <-> In i l.
Proof.
  unfold mem. rewrite existsb_exists. split.
  - intros (k & Hin & E). apply Nat.eqb_eq in E. now subst.
  - intros H. exists i. split; [assumption | apply Nat.eqb_refl].
Qed.

Lemma has_class_lookup t (d : list Node) i :
  has_class t d i = from_option (fun n => contains t (classList n)) false (d !! i).
Proof. unfold has_class. now destruct (d !! i). Qed.

End DomFacts.

Section TabFacts.

Import Dom TabbedInterface.

Lemma lookup_remove_active nodes (d : list Node) j :
  remove_active nodes d !! j
  = if mem j nodes then set_classes (classList_remove ["active"]) <$> d !! j
    else d !! j.
Proof.
  revert d. induction nodes as [|i nodes IH]; intros d; [reflexivity |].
  cbn [remove_active fold_left]. fold (remove_active nodes).
  rewrite IH, lookup_with_classes, mem_cons.
  destruct (Nat.eqb_spec j i) as [->|Hne].
  - rewrite decide_True by reflexivity. cbn [orb].
    destruct (mem i nodes); [| reflexivity].
    destruct (d !! i); cbn [fmap option_fmap option_map]; [| reflexivity].
    now rewrite remove_active_idem.
  - rewrite decide_False by congruence. reflexivity.
Qed.

Lemma attributes_remove_active nodes (d : list Node) :
  map attributes (remove_active nodes d) = map attributes d.
Proof.
  revert d. induction nodes as [|i nodes IH]; intros d; [reflexivity |].
  cbn [remove_active fold_left]. fold (remove_active nodes).
  now rewrite IH, attributes_with_classes.
Qed.

End TabFacts.

Section TabSwitch.

Import Dom TabbedInterface.

Variable s : state.
Variable c : nat.
Variable button : Node.
Variable target : option nat.
Hypothesis Hclicked : doc s !! c = Some button.
Hypothesis Htarget :
  target = query_id (doc s) (template (getAttribute "data-tab" button)).

Lemma lookup_switchTab i :
  doc (switchTab c s) !! i = tab_view s c target i <$> doc s !! i.
Proof.
  unfold switchTab. rewrite Hclicked. cbv zeta.
  set (d2 := remove_active (tabPanels s) (remove_active (tabButtons s) (doc s))).
  set (d3 := with_classes (classList_add "active") c d2).
  assert (Ha : map attributes d3 = map attributes (doc s)).
  { subst d3 d2. now rewrite attributes_with_classes, !attributes_remove_active. }
  rewrite (query_id_attributes d3 (doc s) _ Ha), <- Htarget.
  assert (H3 : d3 !! i
               = (if decide (c = i) then set_classes (classList_add "active") else id)
                 <$> ((if mem i (tabPanels s)
                       then set_classes (classList_remove ["active"]) else id)
                      <$> ((if mem i (tabButtons s)
                            then set_classes (classList_remove ["active"]) else id)
                           <$> doc s !! i))).
  { subst d3 d2. rewrite lookup_with_classes, !lookup_remove_active.
    destruct (decide (c = i)), (mem i (tabPanels s)), (mem i (tabButtons s)),
      (doc s !! i); reflexivity. }
  clearbody d3. clear Htarget. unfold tab_view. cbn [doc].
  destruct target as [p|].
  - rewrite lookup_with_classes, H3.
    destruct (decide (p = i)) as [->|Hne].
    + destruct (decide (Some i = Some i)) as [_|Hn]; [| contradiction].
      now destruct (doc s !! i).
    + destruct (decide (Some p = Some i)) as [Hn|_]; [congruence |].
      now destruct (doc s !! i).
  - rewrite H3. destruct (decide (None = Some i)) as [Hn|_]; [discriminate |].
    now destruct (doc s !! i).
Qed.

Lemma attributes_switchTab :
  map attributes (doc (switchTab c s)) = map attributes (doc s).
Proof.
  apply list_eq. intros i.
  change (map attributes) with (fmap (M := list) attributes).
  rewrite !list_lookup_fmap, lookup_switchTab.
  destruct (doc s !! i) as [n|]; [| reflexivity]. cbn. unfold tab_view.
  now destruct (decide (target = Some i)), (decide (c = i)), (mem i (tabPanels s)),
    (mem i (tabButtons s)).
Qed.

Lemma target_is_element p : target = Some p -> is_Some (doc s !! p).
Proof.
  intros E. apply lookup_lt_is_Some. rewrite Htarget in E.
  apply (find_index_lt _ _ _ E).
Qed.

Lemma contains_tab_view t i n :
  contains t (classList (tab_view s c target i n))
  = if String.eqb t "active"
    then Nat.eqb i c || bool_decide (target = Some i)
         || negb (mem i (tabButtons s ++ tabPanels s)) && contains t (classList n)
    else contains t (classList n).
Proof.
  unfold tab_view. rewrite mem_app.
  assert (Hpush : forall (b : bool) f m,
            classList ((if b then set_classes f else id) m)
            = (if b then f else id) (classList m)).
  { now intros [|] f m. }
  assert (Hadd : forall l, contains t (classList_add "active" l)
                           = String.eqb t "active" || contains t l)
    by (intros l; apply contains_add).
  assert (Hrem : forall l, contains t (classList_remove ["active"] l)
                           = negb (String.eqb t "active") && contains t l).
  { intros l. rewrite contains_remove. unfold contains at 1. cbn [existsb].
    now rewrite orb_false_r. }
  assert (Hc : Nat.eqb i c = bool_decide (c = i)).
  { destruct (Nat.eqb_spec i c) as [->|Hne];
      [now rewrite bool_decide_eq_true_2 | now rewrite bool_decide_eq_false_2]. }
  rewrite Hc.
  destruct (decide (target = Some i)) as [Et|Et];
    [rewrite (bool_decide_eq_true_2 _ Et) | rewrite (bool_decide_eq_false_2 _ Et)];
    (destruct (decide (c = i)) as [Ec|Ec];
     [rewrite (bool_decide_eq_true_2 _ Ec) | rewrite (bool_decide_eq_false_2 _ Ec)]);
    cbn [set_classes classList id]; rewrite !Hpush;
    destruct (mem i (tabPanels s)), (mem i (tabButtons s));
    cbn [id]; rewrite ?Hadd, ?Hrem, ?Hadd, ?Hrem;
    destruct (String.eqb t "active"); cbn [orb andb negb]; try reflexivity;
    rewrite ?orb_true_r; reflexivity.
Qed.

End TabSwitch.



Section TabTwice.

Import Dom TabbedInterface.

Lemma remove_remove_active l :
  classList_remove ["active"] (classList_remove ["active"] l)
  = classList_remove ["active"] l.
Proof. unfold classList_remove. now apply filter_filter_weaker. Qed.

Lemma remove_add_active l :
  classList_remove ["active"] (classList_add "active" l)
  = classList_remove ["active"] l.
Proof. now apply remove_add_same. Qed.

Lemma add_add_active l :
  classList_add "active" (classList_add "active" l) = classList_add "active" l.
Proof.
  unfold classList_add at 1.
  assert (H : contains "active" (classList_add "active" l) = true)
    by (rewrite contains_add; reflexivity).
  now rewrite H.
Qed.

Lemma tab_view_idem s c target i n :
  tab_view s c target i (tab_view s c target i n) = tab_view s c target i n.
Proof.
  unfold tab_view.
  destruct (decide (target = Some i)), (decide (c = i)), (mem i (tabPanels s)),
    (mem i (tabButtons s)); destruct n as [a l];
    unfold set_classes, id; cbn [attributes classList]; f_equal;
    repeat (rewrite remove_remove_active || rewrite add_add_active
            || rewrite remove_add_active);
    reflexivity.
Qed.

Lemma tab_view_lists s s' c target i n :
  tabButtons s' = tabButtons s -> tabPanels s' = tabPanels s ->
  tab_view s' c target i n = tab_view s c target i n.
Proof. intros Hb Hp. unfold tab_view. now rewrite Hb, Hp. Qed.

End TabTwice.



Section FaqFacts.

Import Dom FAQSection.

Lemma attributes_lookup (d d' : list Node) i :
  map attributes d = map attributes d' ->
  attributes <$> d !! i = attributes <$> d' !! i.
Proof.
  intros E. change (map attributes) with (fmap (M := list) attributes) in E.
  now rewrite <- !list_lookup_fmap, E.
Qed.

Lemma answer_attributes (d d' : list Node) q :
  map attributes d = map attributes d' -> answer d q = answer d' q.
Proof.
  intros E. unfold answer, named_by.
  pose proof (attributes_lookup d d' q E) as H.
  destruct (d !! q) as [n|], (d' !! q) as [n'|]; try discriminate H; [| reflexivity].
  injection H as H. unfold getAttribute. rewrite H.
  now apply query_id_attributes.
Qed.

Lemma attributes_close_other c (d : list Node) q :
  map attributes (close_other c d q) = map attributes d.
Proof.
  unfold close_other. case_bool_decide; [| reflexivity]. cbv zeta.
  destruct (with_classes _ q d !! q); [| apply attributes_with_classes].
  destruct (query_id _ _); [| apply attributes_with_classes].
  now rewrite !attributes_with_classes.
Qed.

Lemma lookup_close_other c (d : list Node) q i :
  close_other c d q !! i
  = if bool_decide (q <> c) && (Nat.eqb i q || bool_decide (answer d q = Some i))
    then set_classes (classList_remove ["active"]) <$> d !! i
    else d !! i.
Proof.
  unfold close_other. case_bool_decide as Hq; [| reflexivity]. cbv zeta. cbn [andb].
  set (d1 := with_classes (classList_remove ["active"]) q d).
  assert (Ha : map attributes d1 = map attributes d)
    by apply attributes_with_classes.
  assert (H1 : d1 !! i
               = if Nat.eqb i q
                 then set_classes (classList_remove ["active"]) <$> d !! i
                 else d !! i).
  { subst d1. rewrite lookup_with_classes.
    destruct (Nat.eqb_spec i q) as [->|Hne];
      [now rewrite decide_True | now rewrite decide_False by congruence]. }
  assert (Hans : match d1 !! q with
                 | Some n => query_id d1 (template (getAttribute "data-target" n))
                 | None => None
                 end = answer d q).
  { rewrite <- (answer_attributes d1 d q Ha). reflexivity. }
  clearbody d1.
  destruct (d1 !! q) as [n|].
  - rewrite Hans. destruct (answer d q) as [a|].
    + rewrite lookup_with_classes, H1.
      destruct (decide (a = i)) as [->|Hne].
      * rewrite bool_decide_eq_true_2 by reflexivity. rewrite orb_true_r.
        destruct (Nat.eqb i q); [| reflexivity].
        destruct (d !! i); cbn [fmap option_fmap option_map]; [| reflexivity].
        now rewrite remove_active_idem.
      * rewrite bool_decide_eq_false_2 by congruence. now rewrite orb_false_r.
    + rewrite H1, bool_decide_eq_false_2 by discriminate. now rewrite orb_false_r.
  - rewrite <- Hans, H1, bool_decide_eq_false_2 by discriminate.
    now rewrite orb_false_r.
Qed.

Lemma attributes_closed c qs (d : list Node) :
  map attributes (fold_left (close_other c) qs d) = map attributes d.
Proof.
  revert d. induction qs as [|q qs IH]; intros d; [reflexivity |].
  cbn [fold_left]. now rewrite IH, attributes_close_other.
Qed.

Lemma closes_attributes (d d' : list Node) c qs i :
  map attributes d = map attributes d' -> closes d c qs i = closes d' c qs i.
Proof.
  intros E. unfold closes. induction qs as [|q qs IH]; [reflexivity |].
  cbn [existsb]. now rewrite IH, (answer_attributes d d' q E).
Qed.

Lemma lookup_closed c qs (d : list Node) i :
  fold_left (close_other c) qs d !! i
  = if closes d c qs i
    then set_classes (classList_remove ["active"]) <$> d !! i
    else d !! i.
Proof.
  revert d. induction qs as [|q qs IH]; intros d; [reflexivity |].
  cbn [fold_left]. rewrite IH, lookup_close_other.
  rewrite (closes_attributes _ d c qs i (attributes_close_other c d q)).
  unfold closes at 2. cbn [existsb]. fold (closes d c qs i).
  destruct (bool_decide (q <> c)
            && (Nat.eqb i q || bool_decide (answer d q = Some i)));
    cbn [orb]; [| reflexivity].
  destruct (closes d c qs i); [| reflexivity].
  destruct (d !! i); cbn [fmap option_fmap option_map]; [| reflexivity].
  now rewrite remove_active_idem.
Qed.

Lemma lookup_toggleFAQ s c q :
  doc s !! c = Some q ->
  forall i, doc (toggleFAQ c s) !! i = faq_view s c (answer (doc s) c) i <$> doc s !! i.
Proof.
  intros Hc i. unfold toggleFAQ. rewrite Hc. cbv zeta. cbn [doc].
  assert (Ht : query_id (doc s) (template (getAttribute "data-target" q))
               = answer (doc s) c).
  { unfold answer, named_by. now rewrite Hc. }
  rewrite Ht. unfold faq_view.
  assert (H2 : with_classes (toggle "active") c
                 (fold_left (close_other c) (faqQuestions s) (doc s)) !! i
               = (if decide (c = i) then set_classes (toggle "active") else id)
                 <$> ((if closes (doc s) c (faqQuestions s) i
                       then set_classes (classList_remove ["active"]) else id)
                      <$> doc s !! i)).
  { rewrite lookup_with_classes, lookup_closed.
    destruct (decide (c = i)), (closes (doc s) c (faqQuestions s) i), (doc s !! i);
      reflexivity. }
  destruct (answer (doc s) c) as [a|].
  - rewrite lookup_with_classes, H2.
    destruct (decide (a = i)) as [->|Hne].
    + destruct (decide (Some i = Some i)) as [_|Hn]; [| contradiction].
      now destruct (doc s !! i).
    + destruct (decide (Some a = Some i)) as [Hn|_]; [congruence |].
      now destruct (doc s !! i).
  - rewrite H2. destruct (decide (None = Some i)) as [Hn|_]; [discriminate |].
    now destruct (doc s !! i).
Qed.

Lemma contains_toggle t tok l :
  contains t (toggle tok l)
  = if String.eqb t tok then negb (contains tok l) else contains t l.
Proof.
  unfold toggle. destruct (contains tok l) eqn:E.
  - rewrite contains_remove. unfold contains at 1. cbn [existsb].
    rewrite orb_false_r.
    destruct (String.eqb_spec t tok) as [->|Hne]; [reflexivity | reflexivity].
  - rewrite contains_add.
    destruct (String.eqb_spec t tok) as [->|Hne]; [reflexivity |]. reflexivity.
Qed.

Lemma contains_faq_view s c target t i n :
  contains t (classList (faq_view s c target i n))
  = if String.eqb t "active"
    then xorb (bool_decide (target = Some i))
           (xorb (bool_decide (c = i))
              (negb (closes (doc s) c (faqQuestions s) i)
               && contains t (classList n)))
    else contains t (classList n).
Proof.
  unfold faq_view.
  assert (Hrem : forall l, contains t (classList_remove ["active"] l)
                           = negb (String.eqb t "active") && contains t l).
  { intros l. rewrite contains_remove. unfold contains at 1. cbn [existsb].
    now rewrite orb_false_r. }
  destruct (decide (target = Some i)) as [Et|Et];
    [rewrite (bool_decide_eq_true_2 _ Et) | rewrite (bool_decide_eq_false_2 _ Et)];
    (destruct (decide (c = i)) as [Ec|Ec];
     [rewrite (bool_decide_eq_true_2 _ Ec) | rewrite (bool_decide_eq_false_2 _ Ec)]);
    destruct (closes (doc s) c (faqQuestions s) i);
    cbn [set_classes classList id];
    rewrite ?contains_toggle, ?Hrem;
    destruct (String.eqb_spec t "active") as [->|Hne];
    cbn [xorb negb andb];
    rewrite ?contains_toggle, ?Hrem; cbn [String.eqb Ascii.eqb Bool.eqb negb andb];
    try reflexivity;
    try (apply String.eqb_neq in Hne; rewrite ?Hne; reflexivity);
    destruct (contains "active" (classList n)); reflexivity.
Qed.

End FaqFacts.

Section FaqAccordion.

Import Dom FAQSection.

Lemma closes_spec (d : list Node) c qs i :
  closes d c qs i = true
  <-> exists q, In q qs /\ q <> c /\ (i = q \/ answer d q = Some i).
Proof.
  unfold closes. rewrite existsb_exists. split.
  - intros (q & Hin & H). exists q. apply andb_true_iff in H as [H1 H2].
    apply bool_decide_eq_true in H1. apply orb_true_iff in H2.
    split; [assumption |]. split; [assumption |].
    destruct H2 as [H2|H2]; [left; now apply Nat.eqb_eq in H2 |].
    right. now apply bool_decide_eq_true in H2.
  - intros (q & Hin & Hne & H). exists q. split; [assumption |].
    apply andb_true_iff. split; [now apply bool_decide_eq_true_2 |].
    apply orb_true_iff. destruct H as [->|H]; [left; apply Nat.eqb_refl |].
    right. now apply bool_decide_eq_true_2.
Qed.

Lemma answer_is_element (d : list Node) q a :
  answer d q = Some a -> is_Some (d !! a).
Proof.
  unfold answer, named_by. destruct (d !! q); [| discriminate].
  intros E. apply lookup_lt_is_Some. apply (find_index_lt _ _ _ E).
Qed.

Lemma has_class_toggleFAQ s c q t i :
  doc s !! c = Some q -> is_Some (doc s !! i) ->
  has_class t (doc (toggleFAQ c s)) i
  = if String.eqb t "active"
    then xorb (bool_decide (answer (doc s) c = Some i))
           (xorb (bool_decide (c = i))
              (negb (closes (doc s) c (faqQuestions s) i) && has_class t (doc s) i))
    else has_class t (doc s) i.
Proof.
  intros Hc [n Hn]. rewrite !has_class_lookup, (lookup_toggleFAQ s c q Hc), Hn.
  cbn [fmap option_fmap option_map from_option]. apply contains_faq_view.
Qed.

Lemma attributes_toggleFAQ s c :
  map attributes (doc (toggleFAQ c s)) = map attributes (doc s).
Proof.
  unfold toggleFAQ. destruct (doc s !! c); [| reflexivity]. cbv zeta. cbn [doc].
  destruct (query_id _ _);
    now rewrite !attributes_with_classes, attributes_closed.
Qed.

Lemma faqQuestions_toggleFAQ s c : faqQuestions (toggleFAQ c s) = faqQuestions s.
Proof. unfold toggleFAQ. now destruct (doc s !! c). Qed.

Lemma is_Some_attributes (d d' : list Node) i :
  map attributes d = map attributes d' -> is_Some (d' !! i) -> is_Some (d !! i).
Proof.
  intros E [n Hn]. pose proof (attributes_lookup d d' i E) as H. rewrite Hn in H.
  destruct (d !! i); [eauto | discriminate].
Qed.

Lemma well_formed_toggleFAQ s c : well_formed s -> well_formed (toggleFAQ c s).
Proof.
  intros (W1 & W2 & W3).
  pose proof (attributes_toggleFAQ s c) as Ha.
  unfold well_formed. rewrite faqQuestions_toggleFAQ.
  split; [| split].
  - intros q Hq. apply (is_Some_attributes _ _ _ Ha), W1, Hq.
  - intros q a Hq. rewrite (answer_attributes _ _ q Ha). now apply W2.
  - intros q q' a Hq Hq'. rewrite !(answer_attributes _ _ _ Ha). now apply W3.
Qed.

Section Click.

Variables (s : state) (c : nat).
Hypothesis Hwf : well_formed s.
Hypothesis Hc : In c (faqQuestions s).

Lemma clicked_is_element : exists q, doc s !! c = Some q.
Proof. destruct Hwf as (W1 & _). apply W1, Hc. Qed.

Lemma question_not_answer q q' : In q (faqQuestions s) -> In q' (faqQuestions s) ->
  answer (doc s) q' <> Some q.
Proof. destruct Hwf as (_ & W2 & _). intros Hq Hq' E. exact (W2 q' q Hq' E Hq). Qed.

Lemma question_after q : In q (faqQuestions s) ->
  has_class "active" (doc (toggleFAQ c s)) q
  = Nat.eqb q c && negb (has_class "active" (doc s) c).
Proof.
  intros Hq. destruct clicked_is_element as [n Hn].
  destruct Hwf as (W1 & _).
  rewrite (has_class_toggleFAQ s c n "active" q Hn (W1 q Hq)).
  cbn [String.eqb Ascii.eqb Bool.eqb].
  rewrite (bool_decide_eq_false_2 _ (question_not_answer q c Hq Hc)).
  destruct (Nat.eqb_spec q c) as [->|Hne].
  - rewrite bool_decide_eq_true_2 by reflexivity.
    destruct (closes (doc s) c (faqQuestions s) c) eqn:E.
    + apply closes_spec in E as (q' & Hq' & Hne & [->|E]); [congruence |].
      now destruct (question_not_answer c q' Hc Hq').
    + cbn [negb andb xorb]. now destruct (has_class "active" (doc s) c).
  - rewrite bool_decide_eq_false_2 by congruence.
    assert (E : closes (doc s) c (faqQuestions s) q = true).
    { apply closes_spec. exists q. auto. }
    now rewrite E.
Qed.

Lemma answer_after q a : In q (faqQuestions s) -> answer (doc s) q = Some a ->
  has_class "active" (doc (toggleFAQ c s)) a
  = Nat.eqb q c && negb (has_class "active" (doc s) a).
Proof.
  intros Hq Ha. destruct clicked_is_element as [n Hn].
  pose proof Hwf as (W1 & W2 & W3).
  rewrite (has_class_toggleFAQ s c n "active" a Hn (answer_is_element _ _ _ Ha)).
  cbn [String.eqb Ascii.eqb Bool.eqb].
  assert (Hca : c <> a) by (intros <-; exact (W2 q c Hq Ha Hc)).
  rewrite (bool_decide_eq_false_2 _ Hca).
  destruct (Nat.eqb_spec q c) as [->|Hne].
  - rewrite (bool_decide_eq_true_2 _ Ha).
    destruct (closes (doc s) c (faqQuestions s) a) eqn:E.
    + apply closes_spec in E as (q' & Hq' & Hne & [->|E]).
      * now destruct (W2 c q' Hc Ha).
      * destruct Hne. exact (W3 q' c a Hq' Hc E Ha).
    + cbn [negb andb xorb]. now destruct (has_class "active" (doc s) a).
  - assert (Hn' : answer (doc s) c <> Some a).
    { intros E. apply Hne. exact (W3 q c a Hq Hc Ha E). }
    rewrite (bool_decide_eq_false_2 _ Hn').
    assert (E : closes (doc s) c (faqQuestions s) a = true).
    { apply closes_spec. exists q. auto. }
    now rewrite E.
Qed.

Lemma bystander_after t i :
  t <> "active"
  \/ (~ In i (faqQuestions s)
      /\ forall q, In q (faqQuestions s) -> answer (doc s) q <> Some i) ->
  has_class t (doc (toggleFAQ c s)) i = has_class t (doc s) i.
Proof.
  intros H. destruct clicked_is_element as [n Hn].
  destruct (doc s !! i) as [m|] eqn:Ei.
  - rewrite (has_class_toggleFAQ s c n t i Hn) by (rewrite Ei; eauto).
    destruct (String.eqb_spec t "active") as [->|Hne]; [| reflexivity].
    destruct H as [H|[H1 H2]]; [congruence |].
    rewrite (bool_decide_eq_false_2 _ (H2 c Hc)).
    rewrite bool_decide_eq_false_2 by (intros <-; now apply H1).
    destruct (closes (doc s) c (faqQuestions s) i) eqn:E; [| reflexivity].
    apply closes_spec in E as (q' & Hq' & Hne & [->|E]); [contradiction |].
    now destruct (H2 q' Hq').
  - rewrite !has_class_lookup, (lookup_toggleFAQ s c n Hn), Ei. reflexivity.
Qed.

Lemma in_step_toggleFAQ : in_step s -> in_step (toggleFAQ c s).
Proof.
  intros Hs q a. rewrite faqQuestions_toggleFAQ.
  rewrite (answer_attributes _ _ q (attributes_toggleFAQ s c)).
  intros Hq Ha. rewrite (answer_after q a Hq Ha), (question_after q Hq).
  destruct (Nat.eqb_spec q c) as [->|]; [| reflexivity].
  now rewrite (Hs c a Hc Ha).
Qed.

End Click.

Lemma faqQuestions_clicks cs s : faqQuestions (clicks cs s) = faqQuestions s.
Proof.
  revert s. induction cs as [|c cs IH]; intros s; [reflexivity |].
  unfold clicks. cbn [fold_left]. fold (clicks cs (toggleFAQ c s)).
  now rewrite IH, faqQuestions_toggleFAQ.
Qed.

Lemma clicks_snoc cs c s : clicks (cs ++ [c]) s = toggleFAQ c (clicks cs s).
Proof. unfold clicks. now rewrite fold_left_app. Qed.

Lemma clicks_keep cs s :
  well_formed s -> in_step s -> Forall (fun c => In c (faqQuestions s)) cs ->
  well_formed (clicks cs s) /\ in_step (clicks cs s).
Proof.
  intros Hwf Hs. induction cs as [|c cs IH] using rev_ind; intros Hcs.
  - now split.
  - apply Forall_app in Hcs as [Hcs Hc]. apply Forall_inv in Hc.
    destruct (IH Hcs) as [IH1 IH2]. rewrite clicks_snoc. split.
    + now apply well_formed_toggleFAQ.
    + apply in_step_toggleFAQ; [assumption | | assumption].
      now rewrite faqQuestions_clicks.
Qed.

End FaqAccordion.





Section CounterTraces.

Import CounterGame.

Lemma shows_count_decrement s : shows_count (state_of (decrement s)).
Proof. apply shows_count_step, shows_count_updateDisplay. Qed.

Lemma shows_count_reset s : shows_count (state_of (reset s)).
Proof.
  unfold reset. cbv zeta.
  pose proof (shows_count_updateDisplay (set_count 0 s)) as H.
  apply (shows_count_writeMessage (js "Counter reset!")) in H.
  destruct (writeMessage _ _) as [s2|s2]; cbn [and_then state_of] in *; [| exact H].
  now apply shows_count_setTimeout, shows_count_animateCounter.
Qed.

Lemma shows_count_fire i s : shows_count s -> shows_count (fire i s).
Proof.
  intros H. unfold fire.
  destruct (timers s !! i) as [[[] d]|]; [| | exact H]; cbn [callback run_callback].
  - apply shows_count_writeMessage. exact H.
  - unfold shows_count in *. cbn [counterValue].
    destruct (counterValue s) as [d0|] eqn:E;
      cbn [state_of counterValue set_counterValue count].
    + intros d' [= <-]. cbn [textContent]. now apply H.
    + intros d' Hd. discriminate Hd.
Qed.

Lemma count_fire i s : count (fire i s) = count s.
Proof.
  unfold fire. destruct (timers s !! i) as [[[] d]|]; [| | reflexivity];
    cbn [callback run_callback]; unfold writeMessage; cbn [counterMessage counterValue].
  - now destruct (counterMessage s).
  - now destruct (counterValue s).
Qed.

Lemma handleKeyboard_cases e s :
  handleKeyboard e s = (true, increment s)
  \/ handleKeyboard e s = (true, decrement s)
  \/ handleKeyboard e s = (true, reset s)
  \/ handleKeyboard e s = (false, Normal s).
Proof.
  unfold handleKeyboard.
  destruct (bool_decide (key e = js "+") || bool_decide (key e = js "=")); [auto |].
  destruct (bool_decide (key e = js "-")); [auto |].
  destruct (bool_decide (key e = js "0")); [| auto].
  destruct (ctrlKey e); auto.
Qed.

Lemma shows_count_handle ev s : shows_count s -> shows_count (counter_handle ev s).
Proof.
  intros H. destruct ev as [| | |e|i]; cbn [counter_handle].
  - apply shows_count_increment.
  - apply shows_count_decrement.
  - apply shows_count_reset.
  - destruct (handleKeyboard_cases e s) as [E|[E|[E|E]]]; rewrite E; cbn [snd].
    + apply shows_count_increment.
    + apply shows_count_decrement.
    + apply shows_count_reset.
    + exact H.
  - now apply shows_count_fire.
Qed.

Lemma count_handle ev s :
  (Z.abs (count (counter_handle ev s)) <= Z.abs (count s) + 1)%Z.
Proof.
  assert (Hs : forall c, (Z.abs (succ c) <= Z.abs c + 1)%Z)
    by (intros c; unfold succ; destruct (c =? limit)%Z; lia).
  assert (Hp : forall c, (Z.abs (pred c) <= Z.abs c + 1)%Z)
    by (intros c; unfold pred; destruct (c =? - limit)%Z; lia).
  destruct ev as [| | |e|i]; cbn [counter_handle].
  - rewrite count_increment. apply Hs.
  - rewrite count_decrement. apply Hp.
  - rewrite count_reset. lia.
  - destruct (handleKeyboard_cases e s) as [E|[E|[E|E]]]; rewrite E; cbn [snd state_of].
    + rewrite count_increment. apply Hs.
    + rewrite count_decrement. apply Hp.
    + rewrite count_reset. lia.
    + lia.
  - rewrite count_fire. lia.
Qed.

Lemma elements_updateDisplay s : counter_elements (updateDisplay s) = counter_elements s.
Proof. unfold updateDisplay. now destruct s as [[d|] m c t]. Qed.

Lemma elements_animateCounter s : counter_elements (animateCounter s) = counter_elements s.
Proof. unfold animateCounter. now destruct s as [[d|] m c t]. Qed.

Lemma elements_writeMessage m s :
  counter_elements (state_of (writeMessage m s)) = counter_elements s.
Proof. unfold writeMessage. now destruct s as [d [m0|] c t]. Qed.

Lemma elements_showMessage s :
  counter_elements (state_of (showMessage s)) = counter_elements s.
Proof.
  unfold showMessage. cbv zeta.
  pose proof (elements_writeMessage (message_for (count s)) s) as H.
  destruct (writeMessage _ s) as [s1|s1]; cbn [and_then state_of] in *; [| exact H].
  now destruct (_ && _).
Qed.

Lemma elements_step s1 :
  counter_elements
    (state_of (and_then (showMessage s1) (fun s2 => Normal (animateCounter s2))))
  = counter_elements s1.
Proof.
  pose proof (elements_showMessage s1) as H.
  destruct (showMessage s1) as [s2|s2]; cbn [and_then state_of] in *; [| exact H].
  now rewrite elements_animateCounter.
Qed.

Lemma elements_increment s : counter_elements (state_of (increment s)) = counter_elements s.
Proof. unfold increment. cbv zeta. now rewrite elements_step, elements_updateDisplay. Qed.

Lemma elements_decrement s : counter_elements (state_of (decrement s)) = counter_elements s.
Proof. unfold decrement. cbv zeta. now rewrite elements_step, elements_updateDisplay. Qed.

Lemma elements_reset s : counter_elements (state_of (reset s)) = counter_elements s.
Proof.
  unfold reset. cbv zeta.
  pose proof (elements_writeMessage (js "Counter reset!") (updateDisplay (set_count 0 s)))
    as H.
  rewrite elements_updateDisplay in H.
  destruct (writeMessage _ _) as [s2|s2]; cbn [and_then state_of] in *; [| exact H].
  change (counter_elements (set_count 0 s)) with (counter_elements s) in H.
  rewrite <- H. apply (elements_animateCounter s2).
Qed.

Lemma elements_fire i s : counter_elements (fire i s) = counter_elements s.
Proof.
  unfold fire. destruct (timers s !! i) as [[[] d]|]; [| | reflexivity];
    cbn [callback run_callback].
  - now rewrite (elements_writeMessage []).
  - cbn [counterValue]. now destruct s as [[d0|] m c t].
Qed.

Lemma elements_handle ev s : counter_elements (counter_handle ev s) = counter_elements s.
Proof.
  destruct ev as [| | |e|i]; cbn [counter_handle].
  - apply elements_increment.
  - apply elements_decrement.
  - apply elements_reset.
  - destruct (handleKeyboard_cases e s) as [E|[E|[E|E]]]; rewrite E; cbn [snd state_of];
      auto using elements_increment, elements_decrement, elements_reset.
  - apply elements_fire.
Qed.

Lemma counter_run_snoc evs ev s :
  counter_run (evs ++ [ev]) s = counter_handle ev (counter_run evs s).
Proof. unfold counter_run. now rewrite fold_left_app. Qed.

End CounterTraces.

(** X23. Whatever happens to a counter after it is built (clicks on its
    buttons, keys pressed, timers that fire, in any order and number, with
    handlers that end in a TypeError among them), the display, when the page
    has one, shows the count; the count is no further from 0 than the number
    of events; and the counter holds on to the same two elements, or to
    their absence, as when it was built. *)
Theorem counter_holds_after_any_events (display : option CounterGame.Display)
    (message : option jsstring) (evs : list CounterEvent) :
  let s := counter_run evs (CounterGame.new display message) in
  CounterGame.shows_count s
  /\ (Z.abs (CounterGame.count s) <= Z.of_nat (length evs))%Z
  /\ counter_elements s
     = (bool_decide (is_Some display), bool_decide (is_Some message)).
Proof.
  cbv zeta. induction evs as [|ev evs IH] using rev_ind.
  - split; [apply shows_count_new |]. split.
    + unfold counter_run. cbn [fold_left length]. unfold CounterGame.new.
      rewrite count_updateDisplay. reflexivity.
    + unfold counter_run. cbn [fold_left]. unfold CounterGame.new.
      rewrite elements_updateDisplay. reflexivity.
  - destruct IH as (IH1 & IH2 & IH3). rewrite counter_run_snoc.
    split; [now apply shows_count_handle |]. split.
    + pose proof (count_handle ev (counter_run evs (CounterGame.new display message))) as H.
      rewrite length_app. cbn [length]. lia.
    + now rewrite elements_handle.
Qed.
